(** * Talkie: the real-time hub, its session bootstrap and the message history

    A shallow embedding of the Go packages [db] (message history),
    [ws] (hub, client pumps, wire messages) and [httpapi] (the websocket
    upgrade handler), followed by the properties of the hub.

    Conventions of the embedding.
    - [uuid.UUID] is a 16 byte value; it is represented by the number it
      denotes ([N]).  The hub compares identifiers and prints them
      ([uuid_String]).
    - A [*Client] is an address ([positive]) into a heap of [Client] structs.
    - Go maps are [gmap]s, Go sets ([map[K]struct{}]) are [gset]s.  The inner
      maps of the hub are reference values in Go: an update through a local
      alias is written back into the outer map here.
    - Go's [int] is the 64 bit machine integer; its arithmetic is written
      with [wrap_int].
    - [time.Time] is a number of nanoseconds ([Z]).
    - Every database round trip can fail; the outcome of each round trip is
      an explicit boolean argument ([true]: the driver returns an error). *)

From Stdlib Require Import ZArith Lia.
From stdpp Require Import base option list sorting gmap fin_sets strings.

Open Scope Z_scope.

Abbreviation uuid := N (only parsing).
Abbreviation ptr := positive (only parsing).
Abbreviation time := Z (only parsing).

(** Go's [int] on the 64 bit targets the server is built for. *)
Definition int_min : Z := - 2 ^ 63.
Definition int_max : Z := 2 ^ 63 - 1.
Definition wrap_int (z : Z) : Z := (z + 2 ^ 63) mod 2 ^ 64 - 2 ^ 63.

Inductive error := ErrNotFound | ErrDriver.

Inductive Result (A : Type) :=
  | Ok (a : A)
  | Err (e : error).
Arguments Ok {A} a.
Arguments Err {A} e.

(** [uuid.UUID.String]: the canonical 8-4-4-4-12 lower case hexadecimal
    rendering of the 16 bytes. *)
Definition hex_digit (n : N) : Ascii.ascii :=
  default Ascii.zero (String.get (N.to_nat n) "0123456789abcdef").

(** [hex_field n lo u]: the [n] hexadecimal digits of [u] whose least
    significant digit is digit number [lo], most significant first. *)
Fixpoint hex_field (n : nat) (lo : N) (u : N) : string :=
  match n with
  | O => EmptyString
  | S k =>
      String (hex_digit (N.land (N.shiftr u (4 * (lo + N.of_nat k))) 15))
             (hex_field k lo u)
  end.

Definition uuid_String (u : uuid) : string :=
  (hex_field 8 24 u +:+ "-" +:+ hex_field 4 20 u +:+ "-" +:+
   hex_field 4 16 u +:+ "-" +:+ hex_field 4 12 u +:+ "-" +:+
   hex_field 12 0 u)%string.

(* ================================================================== *)
(** * Package db *)
(* ================================================================== *)

Module db.

Record User := {
  User_ID : uuid;
  User_Email : string;
  User_Username : string;
  User_EmailVerified : bool;
  User_PasswordHash : string;
  User_CreatedAt : time
}.

Record Room := {
  Room_ID : uuid;
  Room_Name : string;
  Room_CreatedBy : uuid;
  Room_IsPrivate : bool;
  Room_CreatedAt : time
}.

Record RoomMember := {
  RoomMember_ID : uuid;
  RoomMember_Username : string
}.

Record Message := {
  ID : Z;
  RoomID : uuid;
  UserID : uuid;
  Username : string;
  Content : string;
  MessageType : string;
  MediaURL : string;
  CreatedAt : time
}.

(** A row of the [messages] table; [media_url] is nullable. *)
Record MessageRow := {
  row_id : Z;
  row_room_id : uuid;
  row_user_id : uuid;
  row_content : string;
  row_message_type : string;
  row_media_url : option string;
  row_created_at : time
}.

(** The tables the hub reads and writes.  [messages] is kept in
    insertion order, [messages_id_seq] is the BIGSERIAL behind
    [messages.id]. *)
Record Store := {
  users : gmap uuid User;
  rooms : gmap uuid Room;
  room_members : gset (uuid * uuid);
  messages : list MessageRow;
  messages_id_seq : Z
}.

Definition nullableString (v : string) : option string :=
  if decide (v = EmptyString) then None else Some v.

(** [SELECT ... FROM users WHERE id = $1] *)
Definition FindUserByID (s : Store) (fail : bool) (id : uuid) : Result User :=
  if fail then Err ErrDriver
  else match users s !! id with
       | Some u => Ok u
       | None => Err ErrNotFound
       end.

(** [SELECT ... FROM rooms WHERE id = $1] *)
Definition GetRoomByID (s : Store) (fail : bool) (roomID : uuid) : Result Room :=
  if fail then Err ErrDriver
  else match rooms s !! roomID with
       | Some r => Ok r
       | None => Err ErrNotFound
       end.

(** [SELECT EXISTS(SELECT 1 FROM room_members WHERE room_id = $1 AND
    user_id = $2)]; the Go function returns [(exists, err)]. *)
Definition IsRoomMember (s : Store) (fail : bool) (roomID userID : uuid)
  : Result bool :=
  if fail then Err ErrDriver
  else Ok (bool_decide ((roomID, userID) ∈ room_members s)).

Definition username_le (a b : RoomMember) : Prop :=
  String.leb (RoomMember_Username a) (RoomMember_Username b) = true.

Global Instance username_le_dec a b : Decision (username_le a b).
Proof. unfold username_le. apply _. Defined.

(** [SELECT u.id, u.username FROM room_members rm JOIN users u
    ON u.id = rm.user_id WHERE rm.room_id = $1 ORDER BY u.username ASC] *)
Definition ListRoomMembers (s : Store) (fail : bool) (roomID : uuid)
  : Result (list RoomMember) :=
  if fail then Err ErrDriver
  else
    let joined :=
      omap (λ rm : uuid * uuid,
              if decide (rm.1 = roomID) then
                (λ u, {| RoomMember_ID := User_ID u;
                         RoomMember_Username := User_Username u |})
                  <$> users s !! rm.2
              else None)
           (elements (room_members s)) in
    Ok (merge_sort username_le joined).

(** What the environment decides when a message is saved: whether the
    INSERT and the following user lookup fail, and the value of
    [NOW()] that becomes [created_at]. *)
Record SaveEnv := {
  fail_insert : bool;
  fail_find_user : bool;
  now : time
}.

Definition SaveMessageWithType (s : Store) (e : SaveEnv)
    (roomID userID : uuid) (content messageType mediaURL : string)
  : Store * Result Message :=
  let messageType :=
    if decide (messageType = EmptyString) then "text"%string else messageType in
  if fail_insert e then (s, Err ErrDriver)
  else
    let id := messages_id_seq s + 1 in
    let row := {| row_id := id; row_room_id := roomID; row_user_id := userID;
                  row_content := content; row_message_type := messageType;
                  row_media_url := nullableString mediaURL;
                  row_created_at := now e |} in
    let s' := {| users := users s; rooms := rooms s;
                 room_members := room_members s;
                 messages := messages s ++ [row];
                 messages_id_seq := id |} in
    match FindUserByID s' (fail_find_user e) userID with
    | Err err => (s', Err err)
    | Ok u =>
        (s', Ok {| ID := id; RoomID := roomID; UserID := userID;
                   Username := User_Username u; Content := content;
                   MessageType := messageType;
                   MediaURL := default EmptyString (row_media_url row);
                   CreatedAt := now e |})
    end.

Definition SaveMessage (s : Store) (e : SaveEnv) (roomID userID : uuid)
    (content : string) : Store * Result Message :=
  SaveMessageWithType s e roomID userID content "text" "".

(** The rows of [messages m JOIN users u ON u.id = m.user_id WHERE
    m.room_id = $1], with [COALESCE(m.media_url, '')], in table order. *)
Definition room_rows (s : Store) (roomID : uuid) : list Message :=
  omap (λ r : MessageRow,
          if decide (row_room_id r = roomID) then
            (λ u, {| ID := row_id r; RoomID := row_room_id r;
                     UserID := row_user_id r; Username := User_Username u;
                     Content := row_content r;
                     MessageType := row_message_type r;
                     MediaURL := default EmptyString (row_media_url r);
                     CreatedAt := row_created_at r |})
              <$> users s !! row_user_id r
          else None)
       (messages s).

(** [ORDER BY m.created_at DESC]: [newer_first a b] when [a] may come
    before [b]. *)
Definition newer_first (a b : Message) : Prop := CreatedAt b ≤ CreatedAt a.

Global Instance newer_first_dec a b : Decision (newer_first a b).
Proof. unfold newer_first. apply _. Defined.

(** [... ORDER BY m.created_at DESC LIMIT $2] *)
Definition query_messages (s : Store) (roomID : uuid) (limit : Z) : list Message :=
  take (Z.to_nat limit) (merge_sort newer_first (room_rows s roomID)).

(** The reversal loop at the end of [ListMessages]:
    [for i, j := 0, len(messages)-1; i < j; i, j = i+1, j-1 {
       messages[i], messages[j] = messages[j], messages[i] }].
    [fuel] bounds the number of iterations. *)
Fixpoint swap_loop {A} (fuel : nat) (i j : nat) (l : list A) : list A :=
  match fuel with
  | O => l
  | S fuel' =>
      if decide (i < j)%nat then
        match l !! i, l !! j with
        | Some x, Some y => swap_loop fuel' (i + 1) (j - 1) (<[j := x]> (<[i := y]> l))
        | _, _ => l
        end
      else l
  end.

Definition reverse_in_place {A} (l : list A) : list A :=
  swap_loop (length l) 0 (length l - 1) l.

Definition ListMessages (s : Store) (fail : bool) (roomID : uuid) (limit : Z)
  : Result (list Message) :=
  let limit := if decide (limit ≤ 0 ∨ limit > 200) then 50 else limit in
  if fail then Err ErrDriver
  else Ok (reverse_in_place (query_messages s roomID limit)).

End db.

(* ================================================================== *)
(** * Package ws *)
(* ================================================================== *)

Module ws.

(** ** Wire messages *)

Record IncomingMessage := {
  In_Type : string;
  In_Content : string
}.

Record MessagePayload := {
  MP_ID : Z;
  MP_RoomID : string;
  MP_UserID : string;
  MP_Username : string;
  MP_Content : string;
  MP_MessageType : string;
  MP_MediaURL : string;
  MP_CreatedAt : time
}.

Record Participant := {
  Participant_ID : string;
  Participant_Username : string
}.

(** The absent pointer and the absent slices of the Go struct are
    [None] and [[]]. *)
Record OutgoingMessage := {
  Type_ : string;
  Message : option MessagePayload;
  Participants_ : list Participant;
  CallUsers : list Participant;
  Messages : list MessagePayload
}.

Definition PayloadFromMessage (m : db.Message) : MessagePayload :=
  {| MP_ID := db.ID m;
     MP_RoomID := uuid_String (db.RoomID m);
     MP_UserID := uuid_String (db.UserID m);
     MP_Username := db.Username m;
     MP_Content := db.Content m;
     MP_MessageType := db.MessageType m;
     MP_MediaURL := db.MediaURL m;
     MP_CreatedAt := db.CreatedAt m |}.

Definition chat_msg (p : MessagePayload) : OutgoingMessage :=
  {| Type_ := "chat"; Message := Some p; Participants_ := [];
     CallUsers := []; Messages := [] |}.

Definition participants_msg (ps : list Participant) : OutgoingMessage :=
  {| Type_ := "participants"; Message := None; Participants_ := ps;
     CallUsers := []; Messages := [] |}.

Definition call_participants_msg (ps : list Participant) : OutgoingMessage :=
  {| Type_ := "call_participants"; Message := None; Participants_ := [];
     CallUsers := ps; Messages := [] |}.

Definition history_msg (ms : list MessagePayload) : OutgoingMessage :=
  {| Type_ := "history"; Message := None; Participants_ := [];
     CallUsers := []; Messages := ms |}.

(** The loop in [ReadPump] and [roomWebSocket] that turns the member
    rows into participants. *)
Definition participants_of_members (members : list db.RoomMember)
  : list Participant :=
  (λ m, {| Participant_ID := uuid_String (db.RoomMember_ID m);
           Participant_Username := db.RoomMember_Username m |}) <$> members.

(** ** Clients *)

(** The socket: all that the hub observes of it is whether it was closed. *)
Inductive ConnState := ConnOpen | ConnClosed.

(** A buffered Go channel: its pending elements, oldest first, and
    its capacity. *)
Record Chan := {
  buf : list OutgoingMessage;
  cap : nat
}.

Record Client := {
  Conn : ConnState;
  RoomID : uuid;
  UserID : uuid;
  Username : string;
  InCall : bool;
  Send : Chan
}.

Definition set_Conn (cl : Client) (s : ConnState) : Client :=
  {| Conn := s; RoomID := RoomID cl; UserID := UserID cl;
     Username := Username cl; InCall := InCall cl; Send := Send cl |}.

Definition set_InCall (cl : Client) (b : bool) : Client :=
  {| Conn := Conn cl; RoomID := RoomID cl; UserID := UserID cl;
     Username := Username cl; InCall := b; Send := Send cl |}.

Definition set_Send (cl : Client) (ch : Chan) : Client :=
  {| Conn := Conn cl; RoomID := RoomID cl; UserID := UserID cl;
     Username := Username cl; InCall := InCall cl; Send := ch |}.

(** [Client.Close] *)
Definition Close (cl : Client) : Client := set_Conn cl ConnClosed.

(** A send that does not wait: [Some] the channel with the element
    queued when the buffer has room, [None] when the send would have
    to wait. *)
Definition try_send (ch : Chan) (m : OutgoingMessage) : option Chan :=
  if decide (length (buf ch) < cap ch)%nat
  then Some {| buf := buf ch ++ [m]; cap := cap ch |}
  else None.

(** ** The hub *)

Record Hub := {
  rooms : gmap uuid (gset ptr);
  callCounts : gmap uuid (gmap uuid Z);
  callUsers : gmap uuid (gmap uuid Participant)
}.

Definition NewHub : Hub :=
  {| rooms := ∅; callCounts := ∅; callUsers := ∅ |}.

(** The hub methods are given the address [c] of the client together
    with the struct [cl] stored there. *)
Definition Add (h : Hub) (c : ptr) (cl : Client) : Hub :=
  let rooms1 :=
    match rooms h !! RoomID cl with
    | Some _ => rooms h
    | None => <[RoomID cl := ∅]> (rooms h)
    end in
  {| rooms := alter (λ clients, {[c]} ∪ clients) (RoomID cl) rooms1;
     callCounts := callCounts h;
     callUsers := callUsers h |}.

Definition addCallLocked (h : Hub) (roomID userID : uuid) (username : string)
  : Hub :=
  let counts1 :=
    match callCounts h !! roomID with
    | Some _ => callCounts h
    | None => <[roomID := ∅]> (callCounts h)
    end in
  let users1 :=
    match callUsers h !! roomID with
    | Some _ => callUsers h
    | None => <[roomID := ∅]> (callUsers h)
    end in
  {| rooms := rooms h;
     callCounts :=
       alter (λ counts, <[userID := wrap_int (default 0 (counts !! userID) + 1)]> counts)
             roomID counts1;
     callUsers :=
       alter (λ users, <[userID := {| Participant_ID := uuid_String userID;
                                     Participant_Username := username |}]> users)
             roomID users1 |}.

Definition removeCallLocked (h : Hub) (roomID userID : uuid) : Hub :=
  match callCounts h !! roomID with
  | None => h
  | Some counts =>
      let n := wrap_int (default 0 (counts !! userID) - 1) in
      let counts' :=
        if decide (n ≤ 0) then delete userID counts else <[userID := n]> counts in
      let users1 :=
        if decide (n ≤ 0) then alter (delete userID) roomID (callUsers h)
        else callUsers h in
      if decide (size counts' = 0%nat) then
        {| rooms := rooms h;
           callCounts := delete roomID (callCounts h);
           callUsers := delete roomID users1 |}
      else
        {| rooms := rooms h;
           callCounts := <[roomID := counts']> (callCounts h);
           callUsers := users1 |}
  end.

Definition Remove (h : Hub) (c : ptr) (cl : Client) : Hub :=
  match rooms h !! RoomID cl with
  | None => h
  | Some clients =>
      let clients' := clients ∖ {[c]} in
      let h1 := {| rooms := <[RoomID cl := clients']> (rooms h);
                   callCounts := callCounts h;
                   callUsers := callUsers h |} in
      let h2 := removeCallLocked h1 (RoomID cl) (UserID cl) in
      if decide (size clients' = 0%nat) then
        {| rooms := delete (RoomID cl) (rooms h2);
           callCounts := callCounts h2;
           callUsers := callUsers h2 |}
      else h2
  end.

Definition SetInCall (h : Hub) (cl : Client) (inCall : bool) : Hub :=
  if inCall then addCallLocked h (RoomID cl) (UserID cl) (Username cl)
  else removeCallLocked h (RoomID cl) (UserID cl).

(** The body of the loop of [Broadcast] for one client: the [select]
    queues the payload when the buffer has room and closes the client
    otherwise. *)
Definition deliver (payload : OutgoingMessage) (cl : Client) : Client :=
  match try_send (Send cl) payload with
  | Some ch => set_Send cl ch
  | None => Close cl
  end.

(** The clients attached to a room; a missing room is Go's nil map. *)
Definition room_clients (h : Hub) (roomID : uuid) : gset ptr :=
  default ∅ (rooms h !! roomID).

(** [Broadcast] updates the clients it ranges over; it leaves the hub
    itself alone.  The enumeration order of a Go map is not fixed;
    [elements] is one such order. *)
Definition Broadcast_list (cs : list ptr) (payload : OutgoingMessage)
    (σ : gmap ptr Client) : gmap ptr Client :=
  foldr (λ c σ, alter (deliver payload) c σ) σ cs.

Definition Broadcast (h : Hub) (σ : gmap ptr Client) (roomID : uuid)
    (payload : OutgoingMessage) : gmap ptr Client :=
  Broadcast_list (elements (room_clients h roomID)) payload σ.

Definition Participants (h : Hub) (σ : gmap ptr Client) (roomID : uuid)
  : list Participant :=
  omap (λ c, (λ cl, {| Participant_ID := uuid_String (UserID cl);
                       Participant_Username := Username cl |}) <$> σ !! c)
       (elements (room_clients h roomID)).

Definition CallParticipants (h : Hub) (roomID : uuid) : list Participant :=
  match callUsers h !! roomID with
  | Some users => (map_to_list users).*2
  | None => []
  end.

(** ** The pumps *)

(** The hub, the client structs and the database. *)
Record World := {
  hub : Hub;
  heap : gmap ptr Client;
  store : db.Store
}.

Inductive LoopCtl := Continue | Break.

(** One turn of the [for] loop of [ReadPump] for the client at [c].
    [rd] is what [ReadJSON] returns: [None] for an error, which is
    also what a closed socket gives; [e] decides the database round
    trips of a chat frame. *)
Definition ReadPump_body (w : World) (c : ptr)
    (rd : option IncomingMessage) (e : db.SaveEnv) : World * LoopCtl :=
  match heap w !! c with
  | None => (w, Break)
  | Some cl =>
      match (match Conn cl with ConnClosed => None | ConnOpen => rd end) with
      | None => (w, Break)
      | Some incoming =>
          if decide (In_Type incoming ≠ "chat"%string
                     ∨ In_Content incoming = EmptyString) then
            if decide (In_Type incoming = "call_join"%string) then
              if InCall cl then (w, Continue)
              else
                let cl1 := set_InCall cl true in
                let σ1 := <[c := cl1]> (heap w) in
                let h1 := SetInCall (hub w) cl1 true in
                let σ2 := Broadcast h1 σ1 (RoomID cl1)
                            (call_participants_msg (CallParticipants h1 (RoomID cl1))) in
                ({| hub := h1; heap := σ2; store := store w |}, Continue)
            else if decide (In_Type incoming = "call_leave"%string) then
              if InCall cl then
                let cl1 := set_InCall cl false in
                let σ1 := <[c := cl1]> (heap w) in
                let h1 := SetInCall (hub w) cl1 false in
                let σ2 := Broadcast h1 σ1 (RoomID cl1)
                            (call_participants_msg (CallParticipants h1 (RoomID cl1))) in
                ({| hub := h1; heap := σ2; store := store w |}, Continue)
              else (w, Continue)
            else (w, Continue)
          else
            match db.SaveMessage (store w) e (RoomID cl) (UserID cl)
                                 (In_Content incoming) with
            | (s', Err _) =>
                ({| hub := hub w; heap := heap w; store := s' |}, Continue)
            | (s', Ok msg) =>
                let σ1 := Broadcast (hub w) (heap w) (RoomID cl)
                            (chat_msg (PayloadFromMessage msg)) in
                ({| hub := hub w; heap := σ1; store := s' |}, Continue)
            end
      end
  end.

(** The deferred function of [ReadPump]. *)
Definition ReadPump_cleanup (w : World) (c : ptr) (fail_members : bool)
  : World :=
  match heap w !! c with
  | None => w
  | Some cl =>
      let h1 := Remove (hub w) c cl in
      let σ1 :=
        match db.ListRoomMembers (store w) fail_members (RoomID cl) with
        | Ok members =>
            Broadcast h1 (heap w) (RoomID cl)
                      (participants_msg (participants_of_members members))
        | Err _ => heap w
        end in
      let σ2 := Broadcast h1 σ1 (RoomID cl)
                  (call_participants_msg (CallParticipants h1 (RoomID cl))) in
      {| hub := h1; heap := alter Close c σ2; store := store w |}
  end.

(** [ReadPump] on a finite prefix of what the socket delivers.  When
    the prefix ends without a read error the pump is waiting in
    [ReadJSON] and the deferred function has not run. *)
Fixpoint ReadPump (w : World) (c : ptr)
    (inputs : list (option IncomingMessage * db.SaveEnv))
    (fail_members : bool) : World :=
  match inputs with
  | [] => w
  | (rd, e) :: rest =>
      match ReadPump_body w c rd e with
      | (w', Continue) => ReadPump w' c rest fail_members
      | (w', Break) => ReadPump_cleanup w' c fail_members
      end
  end.

(** What wakes the [select] of [WritePump]: an element of [Send], or
    the ping ticker; the boolean tells whether the write to the socket
    fails. *)
Inductive WriteEvent :=
  | SendReady (write_fails : bool)
  | Tick (ping_fails : bool).

Definition WritePump_body (w : World) (c : ptr) (ev : WriteEvent)
  : World * LoopCtl :=
  match heap w !! c with
  | None => (w, Break)
  | Some cl =>
      let closed := match Conn cl with ConnClosed => true | ConnOpen => false end in
      match ev with
      | SendReady write_fails =>
          match buf (Send cl) with
          | [] => (w, Continue)
          | _ :: rest =>
              let cl1 := set_Send cl {| buf := rest; cap := cap (Send cl) |} in
              ({| hub := hub w; heap := <[c := cl1]> (heap w); store := store w |},
               if write_fails || closed then Break else Continue)
          end
      | Tick ping_fails =>
          (w, if ping_fails || closed then Break else Continue)
      end
  end.

(** The deferred function of [WritePump]. *)
Definition WritePump_exit (w : World) (c : ptr) : World :=
  {| hub := hub w; heap := alter Close c (heap w); store := store w |}.

End ws.

(* ================================================================== *)
(** * Packages auth and httpapi *)
(* ================================================================== *)

Module auth.

Record Claims := {
  Claims_UserID : string;
  Claims_Username : string
}.

Section ParseJWT.
(** [jwt.ParseWithClaims] of the JWT library, with the key function
    of [ParseJWT] that accepts HMAC methods only and hands out the
    secret: an error, or the decoded claims and the token's [Valid]
    flag. *)
Variable jwt_ParseWithClaims : string → string → option (Claims * bool).

Definition ParseJWT (secret tokenString : string) : option Claims :=
  match jwt_ParseWithClaims secret tokenString with
  | None => None
  | Some (claims, valid) => if valid then Some claims else None
  end.
End ParseJWT.

End auth.

Module httpapi.
Import ws.

(** What [roomWebSocket] reads of the request: the [token] query
    parameter and the [roomID] path parameter. *)
Record Request := {
  token : string;
  roomID_param : string
}.

(** What the environment decides during one run of the handler. *)
Record WSEnv := {
  fail_GetRoomByID : bool;
  fail_IsRoomMember : bool;
  upgrade_fails : bool;
  fail_ListRoomMembers : bool;
  fail_ListMessages : bool
}.

Inductive Response :=
  | jsonError (status : Z) (msg : string)   (* the request is rejected *)
  | UpgradeFailed                           (* [upgrader.Upgrade] answered itself *)
  | Switched (c : ptr)                      (* upgraded, both pumps started *)
  | Waiting (c : ptr).                      (* a send on [c.Send] has to wait *)

Definition StatusBadRequest : Z := 400.
Definition StatusUnauthorized : Z := 401.
Definition StatusForbidden : Z := 403.
Definition StatusNotFound : Z := 404.
Definition StatusInternalServerError : Z := 500.

(** [c.Send <- m] on the struct at [c]: [None] when the send has to wait. *)
Definition chan_send (σ : gmap ptr Client) (c : ptr) (m : OutgoingMessage)
  : option (gmap ptr Client) :=
  cl ← σ !! c;
  ch ← try_send (Send cl) m;
  Some (<[c := set_Send cl ch]> σ).

(** The struct built after the upgrade: [&ws.Client{Conn: conn, ...,
    Send: make(chan ws.OutgoingMessage, 64)}]. *)
Definition new_client (roomID userID : uuid) (username : string) : Client :=
  {| Conn := ConnOpen; RoomID := roomID; UserID := userID;
     Username := username; InCall := false;
     Send := {| buf := []; cap := 64 |} |}.

(** The part of [roomWebSocket] that follows a successful
    [upgrader.Upgrade]: the client is allocated and added to the hub,
    the room is told its members, the client is sent the history and
    the call participants, and the two pumps are started. *)
Definition roomWebSocket_upgraded (w : World) (e : WSEnv)
    (roomID userID : uuid) (username : string) : World * Response :=
  let c := fresh (dom (heap w)) in
  let cl := new_client roomID userID username in
  let σ0 := <[c := cl]> (heap w) in
  let h1 := Add (hub w) c cl in
  let σ1 :=
    match db.ListRoomMembers (store w) (fail_ListRoomMembers e) roomID with
    | Ok members =>
        Broadcast h1 σ0 roomID
                  (participants_msg (participants_of_members members))
    | Err _ => σ0
    end in
  let sent_history :=
    match db.ListMessages (store w) (fail_ListMessages e) roomID 50 with
    | Ok history => chan_send σ1 c (history_msg (PayloadFromMessage <$> history))
    | Err _ => Some σ1
    end in
  match sent_history with
  | None => ({| hub := h1; heap := σ1; store := store w |}, Waiting c)
  | Some σ2 =>
      match chan_send σ2 c (call_participants_msg (CallParticipants h1 roomID)) with
      | None => ({| hub := h1; heap := σ2; store := store w |}, Waiting c)
      | Some σ3 => ({| hub := h1; heap := σ3; store := store w |}, Switched c)
      end
  end.

(** ** The image upload

    What [uploadRoomImage] reads of a request: the identifier of the
    user that the authentication middleware put in the context (if
    any), the [roomID] path parameter, and the [caption] form value as
    [strings.TrimSpace] returns it. *)
Record UploadRequest := {
  upload_user : option uuid;
  upload_roomID_param : string;
  upload_caption : string
}.

(** What the environment decides during one run of [uploadRoomImage]:
    the database round trips, the outcome of [r.ParseMultipartForm],
    the name of the file part that [r.FormFile] finds (if any), whether
    [io.ReadFull] fails other than on a short file, what
    [http.DetectContentType] makes of the head of the file, the outcomes
    of [os.MkdirAll], [os.Create] and [io.Copy], and the string that
    [uuid.NewString] returns. *)
Record UploadEnv := {
  upload_fail_GetRoomByID : bool;
  upload_fail_IsRoomMember : bool;
  parse_form_fails : bool;
  form_file : option string;
  read_fails : bool;
  contentType : string;
  mkdir_fails : bool;
  create_fails : bool;
  copy_fails : bool;
  new_filename : string;
  upload_save : db.SaveEnv
}.

Inductive UploadResponse :=
  | upload_jsonError (status : Z) (msg : string)
  | upload_created (msg : db.Message).            (* 201 *)

(** [imageExt] returns [(ext, true)] or [("", false)]. *)
Definition imageExt (contentType : string) : option string :=
  if decide (contentType = "image/png") then Some ".png"
  else if decide (contentType = "image/jpeg") then Some ".jpg"
  else if decide (contentType = "image/webp") then Some ".webp"
  else if decide (contentType = "image/gif") then Some ".gif"
  else None.

Section Handler.
Variable jwt_ParseWithClaims : string → string → option (auth.Claims * bool).
(** [uuid.Parse] of the UUID library. *)
Variable uuid_Parse : string → option uuid.

(** [JWTSecret] is [s.Cfg.JWTSecret]; the hub and the store of the
    server are those of the world. *)
Definition roomWebSocket (JWTSecret : string) (w : World) (r : Request)
    (e : WSEnv) : World * Response :=
  let tokenString := token r in
  if decide (tokenString = EmptyString) then
    (w, jsonError StatusUnauthorized "missing token")
  else
  match auth.ParseJWT jwt_ParseWithClaims JWTSecret tokenString with
  | None => (w, jsonError StatusUnauthorized "invalid token")
  | Some claims =>
  match uuid_Parse (auth.Claims_UserID claims) with
  | None => (w, jsonError StatusUnauthorized "invalid token payload")
  | Some userID =>
  match uuid_Parse (roomID_param r) with
  | None => (w, jsonError StatusBadRequest "invalid room id")
  | Some roomID =>
  match db.GetRoomByID (store w) (fail_GetRoomByID e) roomID with
  | Err _ => (w, jsonError StatusNotFound "room not found")
  | Ok _ =>
  match db.IsRoomMember (store w) (fail_IsRoomMember e) roomID userID with
  | Err _ => (w, jsonError StatusInternalServerError "failed to check membership")
  | Ok false => (w, jsonError StatusForbidden "forbidden")
  | Ok true =>
  if upgrade_fails e then (w, UpgradeFailed)
  else roomWebSocket_upgraded w e roomID userID (auth.Claims_Username claims)
  end end end end end.

(** The request passed the three checks for the user [userID], the
    room [roomID] and the display name [username]. *)
Definition admitted (JWTSecret : string) (w : World) (r : Request) (e : WSEnv)
    (roomID userID : uuid) (username : string) : Prop :=
  ∃ claims room,
    token r ≠ EmptyString
    ∧ auth.ParseJWT jwt_ParseWithClaims JWTSecret (token r) = Some claims
    ∧ uuid_Parse (auth.Claims_UserID claims) = Some userID
    ∧ username = auth.Claims_Username claims
    ∧ uuid_Parse (roomID_param r) = Some roomID
    ∧ db.GetRoomByID (store w) (fail_GetRoomByID e) roomID = Ok room
    ∧ db.IsRoomMember (store w) (fail_IsRoomMember e) roomID userID = Ok true.

(** [uploadRoomImage]: the files that it writes are outside the
    world; what it does to the world is to store an image message and to
    broadcast it to the room. *)
Definition uploadRoomImage (w : World) (r : UploadRequest) (e : UploadEnv)
  : World * UploadResponse :=
  match upload_user r with
  | None => (w, upload_jsonError StatusUnauthorized "unauthorized")
  | Some userID =>
  match uuid_Parse (upload_roomID_param r) with
  | None => (w, upload_jsonError StatusBadRequest "invalid room id")
  | Some roomID =>
  match db.GetRoomByID (store w) (upload_fail_GetRoomByID e) roomID with
  | Err _ => (w, upload_jsonError StatusNotFound "room not found")
  | Ok _ =>
  match db.IsRoomMember (store w) (upload_fail_IsRoomMember e) roomID userID with
  | Err _ =>
      (w, upload_jsonError StatusInternalServerError "failed to check membership")
  | Ok false => (w, upload_jsonError StatusForbidden "forbidden")
  | Ok true =>
  if parse_form_fails e then
    (w, upload_jsonError StatusBadRequest "invalid upload payload or file too large")
  else
  match form_file e with
  | None => (w, upload_jsonError StatusBadRequest "missing image file")
  | Some header_Filename =>
  if read_fails e then
    (w, upload_jsonError StatusBadRequest "failed to read image")
  else
  match imageExt (contentType e) with
  | None =>
      (w, upload_jsonError StatusBadRequest
            "only png, jpeg, webp or gif images are allowed")
  | Some ext =>
  if mkdir_fails e then
    (w, upload_jsonError StatusInternalServerError
          "failed to prepare uploads directory")
  else
  let filename := new_filename e +:+ ext in
  if create_fails e then
    (w, upload_jsonError StatusInternalServerError "failed to store image")
  else if copy_fails e then
    (w, upload_jsonError StatusInternalServerError "failed to store image")
  else
  let caption := if decide (upload_caption r = EmptyString)
                 then header_Filename else upload_caption r in
  let relativeURL := "/uploads/" +:+ uuid_String roomID +:+ "/" +:+ filename in
  match db.SaveMessageWithType (store w) (upload_save e) roomID userID caption
                               "image" relativeURL with
  | (s', Err _) =>
      ({| hub := hub w; heap := heap w; store := s' |},
       upload_jsonError StatusInternalServerError "failed to create image message")
  | (s', Ok msg) =>
      ({| hub := hub w;
          heap := Broadcast (hub w) (heap w) roomID
                            (chat_msg (PayloadFromMessage msg));
          store := s' |},
       upload_created msg)
  end end end end end end end.

(** ** The running server

    One step of the system is one run of the upgrade handler, one
    turn or the exit of a pump of some client, one run of the image
    upload handler, or a change of the database made by the rest of the
    request/response part of the server (which does not use the hub). *)
Inductive step (JWTSecret : string) : World → World → Prop :=
  | step_connect w r e :
      step JWTSecret w (roomWebSocket JWTSecret w r e).1
  | step_read w c rd e :
      step JWTSecret w (ReadPump_body w c rd e).1
  | step_read_exit w c fail_members :
      step JWTSecret w (ReadPump_cleanup w c fail_members)
  | step_write w c ev :
      step JWTSecret w (WritePump_body w c ev).1
  | step_write_exit w c :
      step JWTSecret w (WritePump_exit w c)
  | step_store w s' :
      step JWTSecret w {| hub := hub w; heap := heap w; store := s' |}
  | step_upload w r e :
      step JWTSecret w (uploadRoomImage w r e).1.

Inductive reachable (JWTSecret : string) : World → Prop :=
  | reachable_init s :
      reachable JWTSecret {| hub := NewHub; heap := ∅; store := s |}
  | reachable_step w w' :
      reachable JWTSecret w → step JWTSecret w w' → reachable JWTSecret w'.
End Handler.

End httpapi.

(* ================================================================== *)
(** * Observations on the hub used by the properties *)
(* ================================================================== *)

Module obs.
Import ws.

(** [h.callCounts[roomID][userID]], zero for a missing entry as in Go. *)
Definition count (h : Hub) (roomID userID : uuid) : Z :=
  match callCounts h !! roomID with
  | Some counts => default 0 (counts !! userID)
  | None => 0
  end.

(** [h.callUsers[roomID][userID]], when present. *)
Definition record (h : Hub) (roomID userID : uuid) : option Participant :=
  callUsers h !! roomID ≫= (λ users, users !! userID).

(** The client at [c] belongs to [userID] and has its [InCall] flag set. *)
Definition flagged_in_call (σ : gmap ptr Client) (userID : uuid) (c : ptr)
  : Prop :=
  match σ !! c with
  | Some cl => UserID cl = userID ∧ InCall cl = true
  | None => False
  end.

Global Instance flagged_in_call_dec σ userID c :
  Decision (flagged_in_call σ userID c).
Proof. unfold flagged_in_call. destruct (σ !! c); apply _. Defined.

(** The connections of [userID] registered in [roomID] whose [InCall]
    flag is set. *)
Definition in_call_conns (w : World) (roomID userID : uuid) : gset ptr :=
  filter (flagged_in_call (heap w) userID) (room_clients (hub w) roomID).

(** The call presence invariant: a user has a display record for a
    room exactly when the reference count is positive. *)
Definition call_inv (h : Hub) : Prop :=
  ∀ roomID userID, is_Some (record h roomID userID) ↔ 0 < count h roomID userID.

(** Every reference count lies between 0 and [bound]. *)
Definition counts_within (bound : Z) (h : Hub) : Prop :=
  ∀ roomID userID, 0 ≤ count h roomID userID ≤ bound.

(** The count that [removeCallLocked] leaves for the user it is called
    for, given the count before. *)
Definition decremented (old : Z) : Z :=
  if decide (wrap_int (old - 1) ≤ 0) then 0 else wrap_int (old - 1).

Definition hub_ok (bound : Z) (h : Hub) : Prop :=
  call_inv h ∧ counts_within bound h.

(** The message that [roomWebSocket] broadcasts to the room after the
    new client is added, if the member listing succeeds. *)
Definition announced (w : World) (e : httpapi.WSEnv) (roomID : uuid)
  : option OutgoingMessage :=
  match db.ListRoomMembers (store w) (httpapi.fail_ListRoomMembers e) roomID with
  | Ok members => Some (participants_msg (participants_of_members members))
  | Err _ => None
  end.

(** The history message that [roomWebSocket] sends to the new client,
    if the listing succeeds. *)
Definition history_sent (w : World) (e : httpapi.WSEnv) (roomID : uuid)
  : option OutgoingMessage :=
  match db.ListMessages (store w) (httpapi.fail_ListMessages e) roomID 50 with
  | Ok history => Some (history_msg (PayloadFromMessage <$> history))
  | Err _ => None
  end.

(** What a client attached to the room before sees of a bootstrap. *)
Definition told (m : option OutgoingMessage) (cl : Client) : Client :=
  match m with
  | Some m => deliver m cl
  | None => cl
  end.

(** Between the heaps [σ] and [σ'] the client at [p] was sent a
    message of type [type]: its queue grew by some messages, one of
    which has that type.  A client that did not exist in [σ] starts
    from the empty queue. *)
Definition received (type : string) (σ σ' : gmap ptr Client) (p : ptr) : Prop :=
  ∃ cl' ms m,
    σ' !! p = Some cl'
    ∧ buf (Send cl') = default [] ((λ cl, buf (Send cl)) <$> σ !! p) ++ ms
    ∧ m ∈ ms ∧ Type_ m = type.

(** The bootstrap as section 4.4 of the specification words it: both
    snapshots reach every connection of the room, and the new
    connection [c] alone gets the history. *)
Definition bootstrap_as_specified (w w' : World) (c : ptr) (roomID : uuid)
  : Prop :=
  (∀ p, p ∈ room_clients (hub w') roomID →
        received "participants" (heap w) (heap w') p
        ∧ received "call_participants" (heap w) (heap w') p)
  ∧ received "history" (heap w) (heap w') c
  ∧ received "call_participants" (heap w) (heap w') c
  ∧ ∀ p, p ≠ c → ¬ received "history" (heap w) (heap w') p.

(** The registry invariant: every room of the registry map has a
    non-empty set of connections, listed without repetition, each of
    which is a client struct whose room is that room. *)
Definition registry_inv (h : Hub) (σ : gmap ptr Client) : Prop :=
  ∀ roomID clients,
    rooms h !! roomID = Some clients →
    clients ≠ ∅
    ∧ NoDup (elements clients)
    ∧ ∀ c, c ∈ clients → ∃ cl, σ !! c = Some cl ∧ RoomID cl = roomID.

(** Every client of [σ] is still there in [σ'], in the same room. *)
Definition same_rooms (σ σ' : gmap ptr Client) : Prop :=
  ∀ p cl, σ !! p = Some cl → ∃ cl', σ' !! p = Some cl' ∧ RoomID cl' = RoomID cl.

(** Ascending creation time. *)
Definition oldest_first (a b : db.Message) : Prop :=
  db.CreatedAt a ≤ db.CreatedAt b.

(** A row of the [messages] table that belongs to the history of the
    room [roomID]: it is filed under the room and its author has a row
    in the [users] table. *)
Definition stored_in (s : db.Store) (roomID : uuid) (row : db.MessageRow)
  : Prop :=
  db.row_room_id row = roomID ∧ is_Some (db.users s !! db.row_user_id row).

Global Instance stored_in_dec s roomID row : Decision (stored_in s roomID row).
Proof. unfold stored_in. apply _. Defined.

(** The listed message [m] shows the stored row [row]: it has the
    columns of the row, the empty string for a NULL media URL, and the
    name that the [users] table has for the author. *)
Definition shows (s : db.Store) (row : db.MessageRow) (m : db.Message) : Prop :=
  db.ID m = db.row_id row
  ∧ db.RoomID m = db.row_room_id row
  ∧ db.UserID m = db.row_user_id row
  ∧ db.Content m = db.row_content row
  ∧ db.MessageType m = db.row_message_type row
  ∧ db.MediaURL m = default EmptyString (db.row_media_url row)
  ∧ db.CreatedAt m = db.row_created_at row
  ∧ ∃ u, db.users s !! db.row_user_id row = Some u
         ∧ db.Username m = db.User_Username u.

(** The payload [p] of a wire message carries the message [m]. *)
Definition carries (m : db.Message) (p : MessagePayload) : Prop :=
  MP_ID p = db.ID m
  ∧ MP_RoomID p = uuid_String (db.RoomID m)
  ∧ MP_UserID p = uuid_String (db.UserID m)
  ∧ MP_Username p = db.Username m
  ∧ MP_Content p = db.Content m
  ∧ MP_MessageType p = db.MessageType m
  ∧ MP_MediaURL p = db.MediaURL m
  ∧ MP_CreatedAt p = db.CreatedAt m.

(** The operations of the hub that change it. *)
Inductive HubOp :=
  | OpAdd (c : ptr) (cl : Client)
  | OpRemove (c : ptr) (cl : Client)
  | OpSetInCall (cl : Client) (inCall : bool).

Definition apply_op (h : Hub) (op : HubOp) : Hub :=
  match op with
  | OpAdd c cl => Add h c cl
  | OpRemove c cl => Remove h c cl
  | OpSetInCall cl b => SetInCall h cl b
  end.

Definition run_ops (ops : list HubOp) (h : Hub) : Hub :=
  foldl apply_op h ops.

End obs.

(* ================================================================== *)
(** * A small deployment used to exercise the definitions *)
(* ================================================================== *)

Module ex.
Import ws.

Definition alice : uuid := 1%N.
Definition bob : uuid := 2%N.
Definition lobby : uuid := 7%N.
Definition attic : uuid := 8%N.

Definition user (id : uuid) (name : string) : db.User :=
  {| db.User_ID := id; db.User_Email := name +:+ "@example.org";
     db.User_Username := name; db.User_EmailVerified := true;
     db.User_PasswordHash := ""; db.User_CreatedAt := 0 |}.

Definition room (id : uuid) (name : string) : db.Room :=
  {| db.Room_ID := id; db.Room_Name := name; db.Room_CreatedBy := alice;
     db.Room_IsPrivate := true; db.Room_CreatedAt := 0 |}.

Definition row (id : Z) (roomID userID : uuid) (content : string) (at_ : time)
  : db.MessageRow :=
  {| db.row_id := id; db.row_room_id := roomID; db.row_user_id := userID;
     db.row_content := content; db.row_message_type := "text";
     db.row_media_url := None; db.row_created_at := at_ |}.

(** Alice and Bob are members of the lobby; the attic exists and has
    no members.  The rows are not stored in the order of their
    timestamps. *)
Definition store0 : db.Store :=
  {| db.users := <[alice := user alice "alice"]> (<[bob := user bob "bob"]> ∅);
     db.rooms := <[lobby := room lobby "lobby"]> (<[attic := room attic "attic"]> ∅);
     db.room_members := {[ (lobby, alice); (lobby, bob) ]};
     db.messages := [ row 1 lobby alice "one" 10; row 2 lobby bob "two" 30;
                      row 3 attic alice "elsewhere" 15; row 4 lobby alice "three" 20 ];
     db.messages_id_seq := 4 |}.

Definition client (roomID userID : uuid) (name : string) (inCall : bool)
    (pending : list OutgoingMessage) : Client :=
  {| Conn := ConnOpen; RoomID := roomID; UserID := userID; Username := name;
     InCall := inCall; Send := {| buf := pending; cap := 64 |} |}.

(** A room with a fast consumer (address 1, nothing pending), a slow
    consumer (address 2, 64 messages pending) and a bystander in
    another room (address 3). *)
Definition ping : OutgoingMessage := participants_msg [].
Definition fast : Client := client lobby alice "alice" false [].
Definition slow : Client := client lobby bob "bob" false (replicate 64 ping).
Definition bystander : Client := client attic alice "alice" false [].
Definition heap_fs : gmap ptr Client :=
  <[1%positive := fast]> (<[2%positive := slow]> (<[3%positive := bystander]> ∅)).
Definition hub_fs : Hub :=
  Add (Add (Add NewHub 1%positive fast) 2%positive slow) 3%positive bystander.

(** Alice with two connections in the lobby (addresses 1 and 2): both
    join the call, the first goes away, the second leaves the call. *)
Definition alice1 : Client := client lobby alice "alice" false [].
Definition two_conn_ops : list obs.HubOp :=
  [ obs.OpAdd 1%positive alice1; obs.OpAdd 2%positive alice1;
    obs.OpSetInCall alice1 true; obs.OpSetInCall alice1 true;
    obs.OpRemove 1%positive alice1; obs.OpSetInCall alice1 false ].

(** The hub after one markInCall for Alice in the lobby. *)
Definition hub_one : Hub := addCallLocked NewHub lobby alice "alice".

(** Stand-ins for the JWT and UUID libraries: two tokens verify, four
    strings parse. *)
Definition jwt (secret tokenString : string) : option (auth.Claims * bool) :=
  if decide (tokenString = "alice-token") then
    Some ({| auth.Claims_UserID := "u1"; auth.Claims_Username := "alice" |}, true)
  else if decide (tokenString = "bob-token") then
    Some ({| auth.Claims_UserID := "u2"; auth.Claims_Username := "bob" |}, true)
  else if decide (tokenString = "expired-token") then
    Some ({| auth.Claims_UserID := "u1"; auth.Claims_Username := "alice" |}, false)
  else None.

Definition parse (s : string) : option uuid :=
  if decide (s = "u1") then Some alice
  else if decide (s = "u2") then Some bob
  else if decide (s = "r7") then Some lobby
  else if decide (s = "r8") then Some attic
  else if decide (s = "r9") then Some 9%N
  else None.

Definition calm : httpapi.WSEnv :=
  {| httpapi.fail_GetRoomByID := false; httpapi.fail_IsRoomMember := false;
     httpapi.upgrade_fails := false; httpapi.fail_ListRoomMembers := false;
     httpapi.fail_ListMessages := false |}.

Definition connect (w : World) (tok room : string) : World * httpapi.Response :=
  httpapi.roomWebSocket jwt parse "secret" w
    {| httpapi.token := tok; httpapi.roomID_param := room |} calm.

Definition world0 : World :=
  {| hub := NewHub; heap := ∅; store := store0 |}.

(** Bob is connected to the lobby (address 1) and has read
    everything that was sent to him. *)
Definition bob1 : Client := client lobby bob "bob" false [].
Definition world_bob : World :=
  {| hub := Add NewHub 1%positive bob1;
     heap := {[ 1%positive := bob1 ]};
     store := store0 |}.

(** Alice opens two connections to the lobby (addresses 1 and 2). *)
Definition world_alice2 : World :=
  (connect (connect world0 "alice-token" "r7").1 "alice-token" "r7").1.

Definition no_fault : db.SaveEnv :=
  {| db.fail_insert := false; db.fail_find_user := false; db.now := 100 |}.

Definition frame (type content : string) : IncomingMessage :=
  {| In_Type := type; In_Content := content |}.

(** The first connection sends [call_join]. *)
Definition world_one_joined : World :=
  (ReadPump_body world_alice2 1%positive (Some (frame "call_join" "")) no_fault).1.

(** Then the second connection, which never joined the call, is lost:
    its [ReadJSON] fails and the deferred function runs. *)
Definition world_other_lost : World :=
  ReadPump world_one_joined 2%positive [(None, no_fault)] false.

(** Instead, the second connection sends [call_join] as well. *)
Definition world_both_joined : World :=
  (ReadPump_body world_one_joined 2%positive (Some (frame "call_join" ""))
                 no_fault).1.

End ex.

(* ================================================================== *)
(** * Observations on the snapshots *)
(* ================================================================== *)

Module view.
Import ws obs.

(** The users that have a call presence record in a room. *)
Definition in_call_users (h : Hub) (roomID : uuid) : gset uuid :=
  dom (default ∅ (callUsers h !! roomID)).

(** Every call presence record is filed under the user it names. *)
Definition records_named (h : Hub) : Prop :=
  ∀ roomID userID p,
    record h roomID userID = Some p → Participant_ID p = uuid_String userID.

(** The queue of a client was made with capacity 64 and holds no more
    than that. *)
Definition bounded (cl : Client) : Prop :=
  cap (Send cl) = 64%nat ∧ (length (buf (Send cl)) ≤ 64)%nat.

(** Every client struct satisfies [P]. *)
Definition heap_all (P : Client → Prop) (σ : gmap ptr Client) : Prop :=
  ∀ c cl, σ !! c = Some cl → P cl.

End view.

(* ================================================================== *)
(** * Package db, continued: rooms and membership *)
(* ================================================================== *)

Module dbrooms.
Import db.

Definition with_room_members (s : Store) (ms : gset (uuid * uuid)) : Store :=
  {| users := users s; rooms := rooms s; room_members := ms;
     messages := messages s; messages_id_seq := messages_id_seq s |}.

Definition with_rooms (s : Store) (rs : gmap uuid Room) : Store :=
  {| users := users s; rooms := rs; room_members := room_members s;
     messages := messages s; messages_id_seq := messages_id_seq s |}.

(** [INSERT INTO room_members (room_id, user_id) VALUES ($1, $2)
    ON CONFLICT DO NOTHING] *)
Definition JoinRoom (s : Store) (fail : bool) (roomID userID : uuid)
  : Store * Result unit :=
  if fail then (s, Err ErrDriver)
  else (with_room_members s ({[ (roomID, userID) ]} ∪ room_members s), Ok ()).

(** What the environment decides when a room is created: whether the
    two INSERTs fail, the identifier that the database generates for the
    room and the value of [NOW()]. *)
Record CreateEnv := {
  fail_insert_room : bool;
  fail_insert_member : bool;
  new_room_id : uuid;
  created : time
}.

(** The two statements are not in one transaction: the room row stays
    when the second fails.  [rooms.id] is a key: a generated identifier
    that is taken makes the first INSERT fail. *)
Definition CreateRoom (s : Store) (e : CreateEnv) (name : string)
    (createdBy : uuid) (isPrivate : bool) : Store * Result Room :=
  let isPrivate := true in
  if fail_insert_room e then (s, Err ErrDriver)
  else
    match rooms s !! new_room_id e with
    | Some _ => (s, Err ErrDriver)
    | None =>
        let r := {| Room_ID := new_room_id e; Room_Name := name;
                    Room_CreatedBy := createdBy; Room_IsPrivate := isPrivate;
                    Room_CreatedAt := created e |} in
        let s1 := with_rooms s (<[new_room_id e := r]> (rooms s)) in
        match JoinRoom s1 (fail_insert_member e) (Room_ID r) createdBy with
        | (s2, Err err) => (s2, Err err)
        | (s2, Ok _) => (s2, Ok r)
        end
    end.

End dbrooms.

(* ================================================================== *)
(** * Package httpapi, continued: the room handlers *)
(* ================================================================== *)

Module middleware.

(** What [middleware.Auth] leaves in the request context. *)
Record UserContext := {
  ID : uuid;
  Username : string
}.

End middleware.

Module handlers.
Import ws httpapi.

(** What the room handlers read of a request: the user that the
    authentication middleware put in the context (if any), the [roomID]
    path parameter and the [limit] query parameter. *)
Record Req := {
  user : option middleware.UserContext;
  roomID_param : string;
  limit_param : string
}.

(** What the environment decides during one run of a handler. *)
Record Env := {
  fail_GetRoomByID : bool;
  fail_IsRoomMember : bool;
  fail_JoinRoom : bool;
  fail_ListMessages : bool
}.

Inductive Reply :=
  | jsonError (status : Z) (msg : string)
  | joined                                       (* 200, {"joined": true} *)
  | messages (ms : list db.Message)              (* 200 *)
  | call_participants (ps : list Participant).   (* 200 *)

Definition with_store (w : World) (s : db.Store) : World :=
  {| hub := hub w; heap := heap w; store := s |}.

(** The handlers of [server.go], in which a room that is not private is
    open to every authenticated user. *)
Section Handlers.
(** [uuid.Parse] of the UUID library. *)
Variable uuid_Parse : string → option uuid.
(** [strconv.Atoi]: the value and whether an error is returned with it. *)
Variable strconv_Atoi : string → Z * bool.

Definition joinRoom (w : World) (r : Req) (e : Env) : World * Reply :=
  match user r with
  | None => (w, jsonError StatusUnauthorized "unauthorized")
  | Some user =>
  match uuid_Parse (roomID_param r) with
  | None => (w, jsonError StatusBadRequest "invalid room id")
  | Some roomID =>
  match db.GetRoomByID (store w) (fail_GetRoomByID e) roomID with
  | Err _ => (w, jsonError StatusNotFound "room not found")
  | Ok room =>
      let join :=
        match dbrooms.JoinRoom (store w) (fail_JoinRoom e) roomID
                               (middleware.ID user) with
        | (s, Err _) =>
            (with_store w s, jsonError StatusInternalServerError "failed to join room")
        | (s, Ok _) => (with_store w s, joined)
        end in
      if db.Room_IsPrivate room then
        match db.IsRoomMember (store w) (fail_IsRoomMember e) roomID
                              (middleware.ID user) with
        | Err _ =>
            (w, jsonError StatusInternalServerError "failed to check membership")
        | Ok false => (w, jsonError StatusForbidden "forbidden")
        | Ok true => join
        end
      else join
  end end end.

Definition listMessages (w : World) (r : Req) (e : Env) : World * Reply :=
  match user r with
  | None => (w, jsonError StatusUnauthorized "unauthorized")
  | Some user =>
  match uuid_Parse (roomID_param r) with
  | None => (w, jsonError StatusBadRequest "invalid room id")
  | Some roomID =>
  match db.GetRoomByID (store w) (fail_GetRoomByID e) roomID with
  | Err _ => (w, jsonError StatusNotFound "room not found")
  | Ok room =>
      let list (w1 : World) :=
        let limit := (strconv_Atoi (limit_param r)).1 in
        match db.ListMessages (store w1) (fail_ListMessages e) roomID limit with
        | Err _ =>
            (w1, jsonError StatusInternalServerError "failed to load messages")
        | Ok ms => (w1, messages ms)
        end in
      if db.Room_IsPrivate room then
        match db.IsRoomMember (store w) (fail_IsRoomMember e) roomID
                              (middleware.ID user) with
        | Err _ =>
            (w, jsonError StatusInternalServerError "failed to check membership")
        | Ok false => (w, jsonError StatusForbidden "forbidden")
        | Ok true => list w
        end
      else
        match dbrooms.JoinRoom (store w) (fail_JoinRoom e) roomID
                               (middleware.ID user) with
        | (s, Err _) =>
            (with_store w s, jsonError StatusInternalServerError "failed to join room")
        | (s, Ok _) => list (with_store w s)
        end
  end end end.

Definition listCallParticipants (w : World) (r : Req) (e : Env)
  : World * Reply :=
  match user r with
  | None => (w, jsonError StatusUnauthorized "unauthorized")
  | Some user =>
  match uuid_Parse (roomID_param r) with
  | None => (w, jsonError StatusBadRequest "invalid room id")
  | Some roomID =>
  match db.GetRoomByID (store w) (fail_GetRoomByID e) roomID with
  | Err _ => (w, jsonError StatusNotFound "room not found")
  | Ok room =>
      let answer := (w, call_participants (CallParticipants (hub w) roomID)) in
      if db.Room_IsPrivate room then
        match db.IsRoomMember (store w) (fail_IsRoomMember e) roomID
                              (middleware.ID user) with
        | Err _ =>
            (w, jsonError StatusInternalServerError "failed to check membership")
        | Ok false => (w, jsonError StatusForbidden "forbidden")
        | Ok true => answer
        end
      else answer
  end end end.

End Handlers.

End handlers.

(** The same three handlers as they are in the revision of the server
    that has the invitation links: membership is asked of every room,
    private or not, and nothing is written. *)
Module handlers_links.
Import ws httpapi handlers.

Section Handlers.
Variable uuid_Parse : string → option uuid.
Variable strconv_Atoi : string → Z * bool.

Definition joinRoom (w : World) (r : Req) (e : Env) : World * Reply :=
  match user r with
  | None => (w, jsonError StatusUnauthorized "unauthorized")
  | Some user =>
  match uuid_Parse (roomID_param r) with
  | None => (w, jsonError StatusBadRequest "invalid room id")
  | Some roomID =>
  match db.GetRoomByID (store w) (fail_GetRoomByID e) roomID with
  | Err _ => (w, jsonError StatusNotFound "room not found")
  | Ok _ =>
  match db.IsRoomMember (store w) (fail_IsRoomMember e) roomID
                        (middleware.ID user) with
  | Err _ => (w, jsonError StatusInternalServerError "failed to check membership")
  | Ok false => (w, jsonError StatusForbidden "forbidden")
  | Ok true => (w, joined)
  end end end end.

Definition listMessages (w : World) (r : Req) (e : Env) : World * Reply :=
  match user r with
  | None => (w, jsonError StatusUnauthorized "unauthorized")
  | Some user =>
  match uuid_Parse (roomID_param r) with
  | None => (w, jsonError StatusBadRequest "invalid room id")
  | Some roomID =>
  match db.GetRoomByID (store w) (fail_GetRoomByID e) roomID with
  | Err _ => (w, jsonError StatusNotFound "room not found")
  | Ok _ =>
  match db.IsRoomMember (store w) (fail_IsRoomMember e) roomID
                        (middleware.ID user) with
  | Err _ => (w, jsonError StatusInternalServerError "failed to check membership")
  | Ok false => (w, jsonError StatusForbidden "forbidden")
  | Ok true =>
      let limit := (strconv_Atoi (limit_param r)).1 in
      match db.ListMessages (store w) (fail_ListMessages e) roomID limit with
      | Err _ => (w, jsonError StatusInternalServerError "failed to load messages")
      | Ok ms => (w, messages ms)
      end
  end end end end.

Definition listCallParticipants (w : World) (r : Req) (e : Env)
  : World * Reply :=
  match user r with
  | None => (w, jsonError StatusUnauthorized "unauthorized")
  | Some user =>
  match uuid_Parse (roomID_param r) with
  | None => (w, jsonError StatusBadRequest "invalid room id")
  | Some roomID =>
  match db.GetRoomByID (store w) (fail_GetRoomByID e) roomID with
  | Err _ => (w, jsonError StatusNotFound "room not found")
  | Ok _ =>
  match db.IsRoomMember (store w) (fail_IsRoomMember e) roomID
                        (middleware.ID user) with
  | Err _ => (w, jsonError StatusInternalServerError "failed to check membership")
  | Ok false => (w, jsonError StatusForbidden "forbidden")
  | Ok true => (w, call_participants (CallParticipants (hub w) roomID))
  end end end end.

End Handlers.

(** Every room of the store is private. *)
Definition all_private (s : db.Store) : Prop :=
  ∀ roomID room, db.rooms s !! roomID = Some room → db.Room_IsPrivate room = true.

(** A handler's outcome [out] for the request [r] in the world [w]
    wrote nothing, and is either an error or an answer [good] given to a
    member of an existing room named in the path. *)
Definition answered (uuid_Parse : string → option uuid) (w : World) (r : Req)
    (out : World * Reply) (good : uuid → Reply → Prop) : Prop :=
  out.1 = w
  ∧ ((∃ status msg, out.2 = jsonError status msg)
     ∨ ∃ u roomID room,
         user r = Some u ∧ uuid_Parse (roomID_param r) = Some roomID
         ∧ db.rooms (store w) !! roomID = Some room
         ∧ (roomID, middleware.ID u) ∈ db.room_members (store w)
         ∧ good roomID out.2).

End handlers_links.

(* ================================================================== *)
(** * More of the small deployment *)
(* ================================================================== *)

Module ex2.
Import ws.

(** A third room, the hall, which is not private; nobody is a member. *)
Definition hall : uuid := 9%N.

Definition store_hall : db.Store :=
  dbrooms.with_rooms ex.store0
    (<[hall := {| db.Room_ID := hall; db.Room_Name := "hall";
                  db.Room_CreatedBy := ex.alice; db.Room_IsPrivate := false;
                  db.Room_CreatedAt := 0 |}]> (db.rooms ex.store0)).

Definition world_hall : World :=
  {| hub := ex.hub_one; heap := ∅; store := store_hall |}.

Definition atoi (s : string) : Z * bool :=
  if decide (s = "2") then (2, false)
  else if decide (s = "500") then (500, false)
  else (0, true).

Definition calm : handlers.Env :=
  {| handlers.fail_GetRoomByID := false; handlers.fail_IsRoomMember := false;
     handlers.fail_JoinRoom := false; handlers.fail_ListMessages := false |}.

Definition as_user (id : uuid) (name room limit : string) : handlers.Req :=
  {| handlers.user := Some {| middleware.ID := id; middleware.Username := name |};
     handlers.roomID_param := room; handlers.limit_param := limit |}.

(** Alice, who has two connections to the lobby, uploads a picture
    there; the form has no caption. *)
Definition picture : httpapi.UploadEnv :=
  {| httpapi.upload_fail_GetRoomByID := false;
     httpapi.upload_fail_IsRoomMember := false;
     httpapi.parse_form_fails := false;
     httpapi.form_file := Some "cat.png";
     httpapi.read_fails := false;
     httpapi.contentType := "image/png";
     httpapi.mkdir_fails := false;
     httpapi.create_fails := false;
     httpapi.copy_fails := false;
     httpapi.new_filename := "f1";
     httpapi.upload_save := ex.no_fault |}.

Definition world_uploaded : World :=
  (httpapi.uploadRoomImage ex.parse ex.world_alice2
     {| httpapi.upload_user := Some ex.alice;
        httpapi.upload_roomID_param := "r7";
        httpapi.upload_caption := "" |} picture).1.

Definition new_room : dbrooms.CreateEnv :=
  {| dbrooms.fail_insert_room := false; dbrooms.fail_insert_member := false;
     dbrooms.new_room_id := 12%N; dbrooms.created := 50 |}.

End ex2.

(* ================================================================== *)
(** * The message history *)
(* ================================================================== *)

Section History.
Import db.

Global Instance newer_first_total : Total newer_first.
Proof. intros a b. unfold newer_first. lia. Qed.

Global Instance newer_first_trans : Transitive newer_first.
Proof. intros a b c. unfold newer_first. lia. Qed.

(** One pass of the swap loop over the middle part [m] of a slice
    reverses that part and leaves both ends alone. *)
Lemma swap_loop_middle {A} (fuel : nat) :
  ∀ (m pre post : list A),
    (length m ≤ fuel)%nat →
    swap_loop fuel (length pre) (length pre + length m - 1) (pre ++ m ++ post)
    = pre ++ reverse m ++ post.
Proof.
  induction fuel as [|fuel IH]; intros m pre post Hlen.
  - destruct m; simpl in *; [done | lia].
  - destruct m as [|a m]; simpl.
    { rewrite decide_False by lia. done. }
    destruct (decide (m = [])) as [->|Hne].
    { simpl. rewrite decide_False by lia. done. }
    destruct (exists_last Hne) as [m' [b ->]].
    simpl in Hlen. rewrite length_app in Hlen. rewrite length_app. simpl in *.
    rewrite decide_True by lia.
    assert (Hi : (pre ++ a :: (m' ++ [b]) ++ post) !! length pre = Some a).
    { by rewrite lookup_app_r, Nat.sub_diag by lia. }
    assert (Hj : (pre ++ a :: (m' ++ [b]) ++ post)
                   !! (length pre + S (length m' + 1) - 1)%nat = Some b).
    { rewrite lookup_app_r by lia.
      replace (length pre + S (length m' + 1) - 1 - length pre)%nat
        with (S (length m')) by lia.
      simpl. rewrite <- app_assoc. rewrite lookup_app_r by lia.
      by rewrite Nat.sub_diag. }
    rewrite Hi, Hj.
    assert (Hsw : <[(length pre + S (length m' + 1) - 1)%nat := a]>
                    (<[length pre := b]> (pre ++ a :: (m' ++ [b]) ++ post))
                  = (pre ++ [b]) ++ m' ++ ([a] ++ post)).
    { rewrite insert_app_r_alt, Nat.sub_diag by lia. simpl.
      rewrite insert_app_r_alt by lia.
      replace (length pre + S (length m' + 1) - 1 - length pre)%nat
        with (S (length m')) by lia.
      simpl. rewrite <- !app_assoc. f_equal. f_equal.
      rewrite insert_app_r_alt, Nat.sub_diag by lia. done. }
    rewrite Hsw.
    replace (length pre + 1)%nat with (length (pre ++ [b]))
      by (rewrite length_app; simpl; lia).
    replace (length pre + S (length m' + 1) - 1 - 1)%nat
      with (length (pre ++ [b]) + length m' - 1)%nat
      by (rewrite length_app; simpl; lia).
    rewrite IH by lia.
    rewrite reverse_cons, reverse_app. simpl.
    by rewrite <- !app_assoc.
Qed.

Lemma reverse_in_place_reverse {A} (l : list A) :
  reverse_in_place l = reverse l.
Proof.
  unfold reverse_in_place.
  pose proof (swap_loop_middle (length l) l [] [] (le_n _)) as H.
  simpl in H. rewrite !app_nil_r in H. exact H.
Qed.

End History.

Section HistoryListing.
Import db.

(** The query result: newest first, as long as the limit allows, and
    nothing left out is newer than anything returned. *)
Lemma query_messages_spec (s : Store) (roomID : uuid) (limit : Z) :
  let q := query_messages s roomID limit in
  StronglySorted newer_first q
  ∧ length q = Nat.min (Z.to_nat limit) (length (room_rows s roomID))
  ∧ ∃ older, room_rows s roomID ≡ₚ older ++ q
             ∧ ∀ o m, o ∈ older → m ∈ q → CreatedAt o ≤ CreatedAt m.
Proof.
  unfold query_messages.
  set (rows := room_rows s roomID).
  set (sorted := merge_sort newer_first rows).
  assert (Hs : StronglySorted newer_first sorted)
    by (apply StronglySorted_merge_sort; apply _).
  assert (Hp : sorted ≡ₚ rows) by apply merge_sort_Permutation.
  rewrite <- (take_drop (Z.to_nat limit) sorted) in Hs.
  apply StronglySorted_app in Hs as (Hcross & Ht & Hd).
  split; [exact Ht|]. split.
  { rewrite length_take. rewrite (Permutation_length Hp). done. }
  exists (drop (Z.to_nat limit) sorted). split.
  { rewrite <- Hp. rewrite (Permutation_app_comm (drop _ _)).
    by rewrite take_drop. }
  intros o m Ho Hm. apply (Hcross m o Hm Ho).
Qed.

Global Instance oldest_first_trans : Transitive obs.oldest_first.
Proof. intros a b c. unfold obs.oldest_first. lia. Qed.

Lemma reverse_oldest_first (l : list Message) :
  StronglySorted newer_first l → StronglySorted obs.oldest_first (reverse l).
Proof.
  intros H. apply Sorted_StronglySorted; [apply _|].
  apply StronglySorted_Sorted in H. apply Sorted_reverse in H. exact H.
Qed.

(** The limit the query runs with. *)
Lemma ListMessages_unfold (s : Store) (fail : bool) (roomID : uuid) (limit : Z) :
  ListMessages s fail roomID limit
  = if fail then Err ErrDriver
    else Ok (reverse (query_messages s roomID
                        (if decide (limit ≤ 0 ∨ limit > 200) then 50 else limit))).
Proof. unfold ListMessages. by rewrite reverse_in_place_reverse. Qed.

Lemma ListMessages_spec (s : Store) (roomID : uuid) (limit : Z) :
  0 < limit ≤ 200 →
  ∃ l, ListMessages s false roomID limit = Ok l
       ∧ Z.of_nat (length l) ≤ limit
       ∧ length l = Nat.min (Z.to_nat limit) (length (room_rows s roomID))
       ∧ StronglySorted obs.oldest_first l
       ∧ ∃ older, room_rows s roomID ≡ₚ older ++ l
                  ∧ ∀ o m, o ∈ older → m ∈ l → CreatedAt o ≤ CreatedAt m.
Proof.
  intros Hl. rewrite ListMessages_unfold.
  rewrite decide_False by lia.
  destruct (query_messages_spec s roomID limit) as (Hs & Hlen & older & Hp & Hrec).
  eexists. split; [reflexivity|].
  rewrite length_reverse. repeat split.
  - rewrite Hlen. lia.
  - exact Hlen.
  - by apply reverse_oldest_first.
  - exists older. split.
    + by rewrite reverse_Permutation.
    + intros o m Ho Hm. apply (Hrec o m Ho). by apply elem_of_reverse.
Qed.

(** The rows that the query joins and filters are the rows of the
    table that are filed under the room and have an author. *)
Lemma room_rows_stored (s : Store) (roomID : uuid) :
  ∃ g : MessageRow → Message,
    room_rows s roomID = g <$> filter (obs.stored_in s roomID) (messages s)
    ∧ (∀ row, CreatedAt (g row) = row_created_at row)
    ∧ ∀ row, obs.stored_in s roomID row → obs.shows s row (g row).
Proof.
  exists (λ r, {| ID := row_id r; RoomID := row_room_id r;
                  UserID := row_user_id r;
                  Username := from_option User_Username EmptyString
                                (users s !! row_user_id r);
                  Content := row_content r;
                  MessageType := row_message_type r;
                  MediaURL := default EmptyString (row_media_url r);
                  CreatedAt := row_created_at r |}).
  split_and!.
  - unfold room_rows. induction (messages s) as [|row rows IH]; [done|].
    rewrite filter_cons. cbn [omap list_omap].
    change (list_omap _ _ ?f rows) with (omap f rows). rewrite IH.
    unfold obs.stored_in at 2.
    destruct (decide (row_room_id row = roomID)) as [Hr|Hr].
    + destruct (users s !! row_user_id row) as [u|] eqn:Hu.
      * rewrite decide_True by (split; [done|by eexists]).
        cbn. by rewrite Hu.
      * rewrite decide_False; [done|]. intros [_ H]. rewrite Hu in H.
        by apply is_Some_None in H.
    + rewrite decide_False; [done|]. by intros [? _].
  - done.
  - intros row [Hr [u Hu]]. unfold obs.shows. cbn. rewrite Hu.
    split_and!; try done. by exists u.
Qed.

Lemma ListMessages_stored (s : Store) (roomID : uuid) (limit : Z) :
  0 < limit ≤ 200 →
  ∃ l rows older,
    ListMessages s false roomID limit = Ok l
    ∧ Z.of_nat (length l) ≤ limit
    ∧ length l = Nat.min (Z.to_nat limit)
                   (length (filter (obs.stored_in s roomID) (messages s)))
    ∧ StronglySorted obs.oldest_first l
    ∧ filter (obs.stored_in s roomID) (messages s) ≡ₚ older ++ rows
    ∧ Forall2 (obs.shows s) rows l
    ∧ ∀ o r, o ∈ older → r ∈ rows → row_created_at o ≤ row_created_at r.
Proof.
  intros Hl.
  destruct (ListMessages_spec s roomID limit Hl)
    as (l & Hok & Hle & Hlen & Hsorted & older & Hperm & Hrecent).
  destruct (room_rows_stored s roomID) as (g & Hg & Hat & Hshows).
  rewrite Hg in Hperm, Hlen. rewrite length_fmap in Hlen.
  symmetry in Hperm.
  apply Permutation_map_inv in Hperm as (picked & Hpicked & Hperm).
  change (map g picked) with (g <$> picked) in Hpicked.
  symmetry in Hpicked.
  apply fmap_app_inv in Hpicked as (older' & rows & -> & -> & ->).
  exists (g <$> rows), rows, older'. split_and!; try done.
  - apply Forall2_fmap_r, Forall_Forall2_diag, Forall_forall.
    intros row Hrow. apply Hshows.
    assert (row ∈ filter (obs.stored_in s roomID) (messages s)) as Hin.
    { rewrite Hperm. apply elem_of_app. by right. }
    by apply list_elem_of_filter in Hin as [? _].
  - intros o r Ho Hr. rewrite <- (Hat o), <- (Hat r).
    apply Hrecent; by apply list_elem_of_fmap_2.
Qed.

(** C10 (db.go, [Store.ListMessages]): a limit that is zero, negative
    or above 200 is replaced by 50, so that the listing is the one for
    50; in every case the list returned is no longer than
    [max limit 50] and no longer than 200. *)
Theorem ListMessages_limit_default
    (s : Store) (fail : bool) (roomID : uuid) (limit : Z) :
  (limit ≤ 0 ∨ limit > 200 →
     ListMessages s fail roomID limit = ListMessages s fail roomID 50)
  ∧ (∀ l, ListMessages s fail roomID limit = Ok l →
          Z.of_nat (length l) ≤ Z.max limit 50 ∧ Z.of_nat (length l) ≤ 200).
Proof.
  split.
  - intros Hout. rewrite !ListMessages_unfold.
    rewrite decide_True by exact Hout.
    rewrite (decide_False (P := 50 ≤ 0 ∨ 50 > 200)) by lia. done.
  - intros l. rewrite ListMessages_unfold.
    destruct fail; [discriminate|]. intros [= <-].
    rewrite length_reverse.
    destruct (query_messages_spec s roomID
                (if decide (limit ≤ 0 ∨ limit > 200) then 50 else limit))
      as (_ & Hlen & _).
    rewrite Hlen. case_decide; lia.
Qed.

Lemma ListMessages_limit_default_witness :
  ListMessages ex.store0 false ex.lobby 0 = ListMessages ex.store0 false ex.lobby 50
  ∧ ListMessages ex.store0 false ex.lobby 1000
    = ListMessages ex.store0 false ex.lobby 50
  ∧ (Z.of_nat 2 ≤ Z.max 2 50 ∧ Z.of_nat 2 ≤ 200).
Proof.
  split; [|split].
  - apply (ListMessages_limit_default ex.store0 false ex.lobby 0). lia.
  - apply (ListMessages_limit_default ex.store0 false ex.lobby 1000). lia.
  - pose proof (proj2 (ListMessages_limit_default ex.store0 false ex.lobby 2)) as H.
    eapply (H [_; _]). vm_compute. reflexivity.
Defined.

End HistoryListing.

(* ================================================================== *)
(** * Broadcast *)
(* ================================================================== *)

Section BroadcastFacts.
Import ws.

Lemma Broadcast_list_lookup (cs : list ptr) (payload : OutgoingMessage)
    (σ : gmap ptr Client) (c : ptr) :
  NoDup cs →
  Broadcast_list cs payload σ !! c
  = if decide (c ∈ cs) then deliver payload <$> σ !! c else σ !! c.
Proof.
  unfold Broadcast_list.
  induction 1 as [|x cs Hx Hnd IH]; cbn [foldr].
  - rewrite decide_False by apply not_elem_of_nil. done.
  - destruct (decide (x = c)) as [->|Hne].
    + rewrite lookup_alter_eq, IH.
      rewrite decide_False by done.
      rewrite decide_True by (apply elem_of_cons; by left). done.
    + rewrite lookup_alter_ne by done. rewrite IH.
      destruct (decide (c ∈ cs)) as [Hin|Hout].
      * rewrite decide_True by (apply elem_of_cons; by right). done.
      * rewrite decide_False; [done|].
        intros [?|?]%elem_of_cons; congruence.
Qed.

(** The order in which the clients of a room are visited is
    immaterial: each of them gets [deliver] once, nobody else is
    touched. *)
Lemma Broadcast_lookup (h : Hub) (σ : gmap ptr Client) (roomID : uuid)
    (payload : OutgoingMessage) (c : ptr) :
  Broadcast h σ roomID payload !! c
  = if decide (c ∈ room_clients h roomID)
    then deliver payload <$> σ !! c else σ !! c.
Proof.
  unfold Broadcast. rewrite Broadcast_list_lookup by apply NoDup_elements.
  destruct (decide (c ∈ room_clients h roomID)) as [Hin|Hout].
  - rewrite decide_True by (by apply elem_of_elements). done.
  - rewrite decide_False; [done|]. by rewrite elem_of_elements.
Qed.

Lemma Broadcast_list_perm (cs cs' : list ptr) (payload : OutgoingMessage)
    (σ : gmap ptr Client) :
  NoDup cs → cs ≡ₚ cs' →
  Broadcast_list cs payload σ = Broadcast_list cs' payload σ.
Proof.
  intros Hnd Hp. apply map_eq. intros c.
  rewrite !Broadcast_list_lookup; [|by rewrite <- Hp|done].
  destruct (decide (c ∈ cs)) as [Hin|Hout].
  - rewrite decide_True; [done|]. by rewrite <- Hp.
  - rewrite decide_False; [done|]. by rewrite <- Hp.
Qed.

Lemma deliver_room (payload : OutgoingMessage) (cl : Client) :
  RoomID (deliver payload cl) = RoomID cl
  ∧ UserID (deliver payload cl) = UserID cl
  ∧ Username (deliver payload cl) = Username cl
  ∧ InCall (deliver payload cl) = InCall cl.
Proof. unfold deliver. by destruct (try_send _ _). Qed.

(** C4 ([Hub.Broadcast], with the queue made by [roomWebSocket]): a
    broadcast to a room queues the message on every attached client
    whose queue has room, closes the socket of an attached client whose
    queue is full without queueing the message there, and does either
    for each attached client whatever the state of the others; clients
    that are not attached to the room are left as they are.  The
    broadcast is a total function: it never waits. *)
Theorem Broadcast_backpressure (h : Hub) (σ : gmap ptr Client)
    (roomID : uuid) (m : OutgoingMessage) (c : ptr) (cl : Client) :
  σ !! c = Some cl →
  (c ∈ room_clients h roomID →
     (length (buf (Send cl)) < cap (Send cl))%nat →
     Broadcast h σ roomID m !! c
     = Some (set_Send cl {| buf := buf (Send cl) ++ [m];
                            cap := cap (Send cl) |}))
  ∧ (c ∈ room_clients h roomID →
     (cap (Send cl) ≤ length (buf (Send cl)))%nat →
     Broadcast h σ roomID m !! c = Some (Close cl)
     ∧ Conn (Close cl) = ConnClosed
     ∧ buf (Send (Close cl)) = buf (Send cl))
  ∧ (c ∉ room_clients h roomID →
     Broadcast h σ roomID m !! c = Some cl).
Proof.
  intros Hc. rewrite Broadcast_lookup, Hc. split; [|split].
  - intros Hin Hroom. rewrite decide_True by done. simpl.
    unfold deliver, try_send. by rewrite decide_True.
  - intros Hin Hfull. rewrite decide_True by done. simpl.
    unfold deliver, try_send. rewrite decide_False by lia. done.
  - intros Hout. by rewrite decide_False.
Qed.

Lemma Broadcast_backpressure_witness :
  let σ' := Broadcast ex.hub_fs ex.heap_fs ex.lobby ex.ping in
  σ' !! 1%positive = Some (ex.client ex.lobby ex.alice "alice" false [ex.ping])
  ∧ σ' !! 2%positive = Some (Close ex.slow)
  ∧ σ' !! 3%positive = Some ex.bystander.
Proof.
  split; [|split].
  - apply (Broadcast_backpressure ex.hub_fs ex.heap_fs ex.lobby ex.ping
             1%positive ex.fast); [reflexivity | apply (bool_decide_unpack _); vm_compute; exact I | simpl; lia].
  - apply (Broadcast_backpressure ex.hub_fs ex.heap_fs ex.lobby ex.ping
             2%positive ex.slow); [reflexivity | apply (bool_decide_unpack _); vm_compute; exact I | simpl; lia].
  - apply (Broadcast_backpressure ex.hub_fs ex.heap_fs ex.lobby ex.ping
             3%positive ex.bystander); [reflexivity | apply (bool_decide_unpack _); vm_compute; exact I].
Defined.

End BroadcastFacts.

(* ================================================================== *)
(** * Call presence *)
(* ================================================================== *)

Section CallPresence.
Import ws obs.

Lemma wrap_int_id (z : Z) : int_min ≤ z ≤ int_max → wrap_int z = z.
Proof.
  unfold int_min, int_max, wrap_int. intros H.
  rewrite Z.mod_small; lia.
Qed.

Lemma count_addCallLocked (h : Hub) (roomID userID : uuid) (name : string)
    (r u : uuid) :
  count (addCallLocked h roomID userID name) r u
  = if decide (r = roomID ∧ u = userID)
    then wrap_int (count h roomID userID + 1) else count h r u.
Proof.
  unfold count, addCallLocked; simpl.
  destruct (decide (r = roomID)) as [->|Hr].
  - destruct (callCounts h !! roomID) as [counts|] eqn:E.
    + rewrite lookup_alter_eq, E. simpl.
      destruct (decide (u = userID)) as [->|Hu].
      * rewrite decide_True by done. by rewrite lookup_insert_eq.
      * rewrite decide_False by (intros [??]; congruence). by rewrite lookup_insert_ne.
    + rewrite lookup_alter_eq, lookup_insert_eq. simpl.
      destruct (decide (u = userID)) as [->|Hu].
      * rewrite decide_True by done. by rewrite lookup_insert_eq.
      * rewrite decide_False by (intros [??]; congruence).
        by rewrite lookup_insert_ne, lookup_empty.
  - rewrite decide_False by (intros [??]; congruence).
    destruct (callCounts h !! roomID) as [counts|] eqn:E.
    + by rewrite lookup_alter_ne.
    + by rewrite lookup_alter_ne, lookup_insert_ne.
Qed.

Lemma record_addCallLocked (h : Hub) (roomID userID : uuid) (name : string)
    (r u : uuid) :
  record (addCallLocked h roomID userID name) r u
  = if decide (r = roomID ∧ u = userID)
    then Some {| Participant_ID := uuid_String userID;
                 Participant_Username := name |}
    else record h r u.
Proof.
  unfold record, addCallLocked; simpl.
  destruct (decide (r = roomID)) as [->|Hr].
  - destruct (callUsers h !! roomID) as [users|] eqn:E.
    + rewrite lookup_alter_eq, E. simpl.
      destruct (decide (u = userID)) as [->|Hu].
      * rewrite decide_True by done. by rewrite lookup_insert_eq.
      * rewrite decide_False by (intros [??]; congruence). by rewrite lookup_insert_ne.
    + rewrite lookup_alter_eq, lookup_insert_eq. simpl.
      destruct (decide (u = userID)) as [->|Hu].
      * rewrite decide_True by done. by rewrite lookup_insert_eq.
      * rewrite decide_False by (intros [??]; congruence).
        by rewrite lookup_insert_ne, lookup_empty.
  - rewrite decide_False by (intros [??]; congruence).
    destruct (callUsers h !! roomID) as [users|] eqn:E.
    + by rewrite lookup_alter_ne.
    + by rewrite lookup_alter_ne, lookup_insert_ne.
Qed.

Lemma count_removeCallLocked (h : Hub) (roomID userID r u : uuid) :
  count (removeCallLocked h roomID userID) r u
  = if decide (r = roomID ∧ u = userID)
    then decremented (count h roomID userID) else count h r u.
Proof.
  unfold decremented, count, removeCallLocked.
  destruct (callCounts h !! roomID) as [counts|] eqn:E.
  2:{ case_decide as Hd; [|done]. destruct Hd as [-> ->].
      rewrite E. by vm_compute. }
  set (n := wrap_int (default 0 (counts !! userID) - 1)).
  destruct (decide (n ≤ 0)) as [Hn|Hn].
  - destruct (decide (size (delete userID counts) = 0%nat)) as [Hz|Hz]; simpl.
    + apply map_size_empty_inv in Hz.
      destruct (decide (r = roomID)) as [->|Hr].
      * rewrite lookup_delete_eq.
        case_decide as Hd; [done|]. rewrite E.
        assert (u ≠ userID) as Hu by naive_solver.
        rewrite <- (lookup_delete_ne counts userID u) by done.
        by rewrite Hz, lookup_empty.
      * rewrite lookup_delete_ne by done.
        by rewrite decide_False by (intros [??]; congruence).
    + destruct (decide (r = roomID)) as [->|Hr].
      * rewrite lookup_insert_eq.
        destruct (decide (u = userID)) as [->|Hu].
        -- rewrite decide_True by done. by rewrite lookup_delete_eq.
        -- rewrite decide_False by (intros [??]; congruence).
           rewrite lookup_delete_ne by done. by rewrite E.
      * rewrite lookup_insert_ne by done.
        by rewrite decide_False by (intros [??]; congruence).
  - assert (size (<[userID := n]> counts) ≠ 0%nat) as Hz.
    { intros Hz%map_size_empty_inv.
      apply (f_equal (λ m, m !! userID)) in Hz.
      by rewrite lookup_insert_eq, lookup_empty in Hz. }
    rewrite (decide_False (P := size _ = 0%nat)) by done. simpl.
    destruct (decide (r = roomID)) as [->|Hr].
    + rewrite lookup_insert_eq.
      destruct (decide (u = userID)) as [->|Hu].
      * rewrite decide_True by done. by rewrite lookup_insert_eq.
      * rewrite decide_False by (intros [??]; congruence).
        rewrite lookup_insert_ne by done. by rewrite E.
    + rewrite lookup_insert_ne by done.
      by rewrite decide_False by (intros [??]; congruence).
Qed.

Lemma record_removeCallLocked_same (h : Hub) (roomID userID : uuid) :
  record (removeCallLocked h roomID userID) roomID userID
  = if decide (callCounts h !! roomID = None
               ∨ 0 < wrap_int (count h roomID userID - 1))
    then record h roomID userID else None.
Proof.
  unfold record, count, removeCallLocked.
  destruct (callCounts h !! roomID) as [counts|] eqn:E.
  2:{ rewrite decide_True by (by left). done. }
  set (n := wrap_int (default 0 (counts !! userID) - 1)).
  destruct (decide (n ≤ 0)) as [Hn|Hn].
  - rewrite (decide_False (P := _ ∨ _)) by (intros [?|?]; [done|lia]).
    destruct (decide (size (delete userID counts) = 0%nat)); simpl.
    + by rewrite lookup_delete_eq.
    + rewrite lookup_alter_eq.
      destruct (callUsers h !! roomID); simpl; [|done].
      by rewrite lookup_delete_eq.
  - rewrite (decide_True (P := _ ∨ _)) by (right; lia).
    assert (size (<[userID := n]> counts) ≠ 0%nat) as Hz.
    { intros Hz%map_size_empty_inv.
      apply (f_equal (λ m, m !! userID)) in Hz.
      by rewrite lookup_insert_eq, lookup_empty in Hz. }
    by rewrite (decide_False (P := size _ = 0%nat)) by done.
Qed.

Lemma record_removeCallLocked_other (h : Hub) (roomID userID r u : uuid) :
  call_inv h → ¬ (r = roomID ∧ u = userID) →
  record (removeCallLocked h roomID userID) r u = record h r u.
Proof.
  intros Hinv Hne.
  pose proof (Hinv r u) as Hru. revert Hru.
  unfold record, count, removeCallLocked.
  destruct (callCounts h !! roomID) as [counts|] eqn:E; [|done].
  set (n := wrap_int (default 0 (counts !! userID) - 1)).
  destruct (decide (n ≤ 0)) as [Hn|Hn].
  - destruct (decide (size (delete userID counts) = 0%nat)) as [Hz|Hz]; simpl.
    + apply map_size_empty_inv in Hz.
      destruct (decide (r = roomID)) as [->|Hr].
      * rewrite lookup_delete_eq, E. simpl.
        assert (u ≠ userID) as Hu by naive_solver.
        rewrite <- (lookup_delete_ne counts userID u) by done.
        rewrite Hz, lookup_empty. simpl. intros [H1 _].
        destruct (callUsers h !! roomID ≫= λ users, users !! u) eqn:E'; [|done].
        specialize (H1 (mk_is_Some _ _ eq_refl)). lia.
      * intros _. by rewrite lookup_delete_ne, lookup_alter_ne by done.
    + intros _. destruct (decide (r = roomID)) as [->|Hr].
      * rewrite lookup_alter_eq.
        destruct (callUsers h !! roomID); simpl; [|done].
        rewrite lookup_delete_ne; [done|]. naive_solver.
      * by rewrite lookup_alter_ne by done.
  - intros _.
    assert (size (<[userID := n]> counts) ≠ 0%nat) as Hz.
    { intros Hz%map_size_empty_inv.
      apply (f_equal (λ m, m !! userID)) in Hz.
      by rewrite lookup_insert_eq, lookup_empty in Hz. }
    by rewrite (decide_False (P := size _ = 0%nat)) by done.
Qed.

(** [markInCall] keeps the invariant as long as the counter does not
    overflow. *)
Lemma hub_ok_addCallLocked (b : Z) (h : Hub) (roomID userID : uuid)
    (name : string) :
  hub_ok b h → b < int_max →
  hub_ok (b + 1) (addCallLocked h roomID userID name).
Proof.
  intros [Hinv Hw] Hb. split.
  - intros r u. rewrite record_addCallLocked, count_addCallLocked.
    case_decide as Hd; [|apply Hinv].
    specialize (Hw roomID userID).
    rewrite wrap_int_id by (unfold int_min, int_max in *; lia).
    split; [lia | by eauto].
  - intros r u. rewrite count_addCallLocked.
    case_decide as Hd.
    + specialize (Hw roomID userID).
      rewrite wrap_int_id by (unfold int_min, int_max in *; lia). lia.
    + specialize (Hw r u). lia.
Qed.

Lemma decremented_spec (b c : Z) :
  0 ≤ c ≤ b → b ≤ int_max →
  decremented c = Z.max 0 (c - 1).
Proof.
  intros Hc Hb. unfold decremented.
  rewrite wrap_int_id by (unfold int_min, int_max in *; lia).
  case_decide; lia.
Qed.

(** [markOutOfCall] keeps the invariant. *)
Lemma hub_ok_removeCallLocked (b : Z) (h : Hub) (roomID userID : uuid) :
  hub_ok b h → b ≤ int_max →
  hub_ok b (removeCallLocked h roomID userID).
Proof.
  intros [Hinv Hw] Hb. split.
  - intros r u.
    destruct (decide (r = roomID ∧ u = userID)) as [[-> ->]|Hne].
    + rewrite record_removeCallLocked_same, count_removeCallLocked.
      rewrite (decide_True (P := _ ∧ _)) by done.
      pose proof (Hw roomID userID) as Hc.
      rewrite (decremented_spec b) by done.
      rewrite wrap_int_id by (unfold int_min, int_max in *; lia).
      specialize (Hinv roomID userID).
      case_decide as Hd.
      * destruct Hd as [Hd|Hd].
        -- assert (count h roomID userID = 0) as Hz
             by (unfold count; by rewrite Hd).
           rewrite Hz in *. rewrite Hinv. lia.
        -- rewrite Hinv. lia.
      * split; [by intros [??]|]. intros ?. exfalso. apply Hd. right. lia.
    + rewrite record_removeCallLocked_other by done.
      rewrite count_removeCallLocked, decide_False by done. apply Hinv.
  - intros r u. rewrite count_removeCallLocked.
    case_decide as Hd.
    + specialize (Hw roomID userID).
      rewrite (decremented_spec b) by done. lia.
    + apply Hw.
Qed.

Lemma hub_ok_mono (b b' : Z) (h : Hub) : hub_ok b h → b ≤ b' → hub_ok b' h.
Proof.
  intros [Hinv Hw] Hb. split; [done|].
  intros r u. specialize (Hw r u). lia.
Qed.

Lemma hub_ok_NewHub : hub_ok 0 NewHub.
Proof.
  split.
  - intros r u. unfold record, count. simpl. rewrite !lookup_empty. simpl.
    split; [by intros [??] | lia].
  - intros r u. unfold count. simpl. rewrite lookup_empty. lia.
Qed.

(** [Add] does not touch the call presence maps. *)
Lemma hub_ok_Add (b : Z) (h : Hub) (c : ptr) (cl : Client) :
  hub_ok b h → hub_ok b (Add h c cl).
Proof. intros H. exact H. Qed.

(** [Remove] changes the call presence maps as [removeCallLocked]
    does, or not at all when the room of the client is not registered. *)
Lemma Remove_call_maps (h : Hub) (c : ptr) (cl : Client) :
  let h' := match rooms h !! RoomID cl with
            | Some _ => removeCallLocked h (RoomID cl) (UserID cl)
            | None => h
            end in
  callCounts (Remove h c cl) = callCounts h'
  ∧ callUsers (Remove h c cl) = callUsers h'.
Proof.
  unfold Remove. destruct (rooms h !! RoomID cl) as [clients|]; [|done].
  simpl. unfold removeCallLocked. simpl.
  destruct (callCounts h !! RoomID cl); repeat case_decide; done.
Qed.

Lemma hub_ok_Remove (b : Z) (h : Hub) (c : ptr) (cl : Client) :
  hub_ok b h → b ≤ int_max → hub_ok b (Remove h c cl).
Proof.
  intros Hok Hb.
  destruct (Remove_call_maps h c cl) as [Hc Hu].
  assert (hub_ok b (match rooms h !! RoomID cl with
                    | Some _ => removeCallLocked h (RoomID cl) (UserID cl)
                    | None => h
                    end)) as [Hinv Hw].
  { destruct (rooms h !! RoomID cl); [by apply hub_ok_removeCallLocked|done]. }
  split.
  - intros r u. unfold record, count. rewrite Hc, Hu. apply Hinv.
  - intros r u. unfold count. rewrite Hc. apply Hw.
Qed.

Lemma hub_ok_apply_op (b : Z) (h : Hub) (op : HubOp) :
  hub_ok b h → b < int_max → hub_ok (b + 1) (apply_op h op).
Proof.
  intros Hok Hb. destruct op as [c cl|c cl|cl [|]]; simpl.
  - apply (hub_ok_mono b); [by apply hub_ok_Add | lia].
  - apply (hub_ok_mono b); [apply hub_ok_Remove; [done|lia] | lia].
  - by apply hub_ok_addCallLocked.
  - apply (hub_ok_mono b); [apply hub_ok_removeCallLocked; [done|lia] | lia].
Qed.

Lemma hub_ok_run_ops (ops : list HubOp) :
  ∀ (b : Z) (h : Hub),
    hub_ok b h → b + Z.of_nat (length ops) ≤ int_max →
    hub_ok (b + Z.of_nat (length ops)) (run_ops ops h).
Proof.
  unfold run_ops.
  induction ops as [|op ops IH]; intros b h Hok Hb; cbn [foldl length] in *.
  - by rewrite Z.add_0_r.
  - replace (b + Z.of_nat (S (length ops)))
      with ((b + 1) + Z.of_nat (length ops)) by lia.
    apply IH; [|lia]. apply hub_ok_apply_op; [done|lia].
Qed.

Lemma removeCallLocked_last (h : Hub) (roomID userID : uuid) :
  count h roomID userID = 1 →
  count (removeCallLocked h roomID userID) roomID userID = 0
  ∧ record (removeCallLocked h roomID userID) roomID userID = None.
Proof.
  intros H1. rewrite count_removeCallLocked, record_removeCallLocked_same.
  rewrite (decide_True (P := _ ∧ _)) by done.
  rewrite H1. split; [by vm_compute|].
  rewrite decide_False; [done|].
  intros [Hn|Hp]; [|by vm_compute in Hp].
  unfold count in H1. by rewrite Hn in H1.
Qed.

Lemma removeCallLocked_prunes (h : Hub) (roomID userID : uuid)
    (counts : gmap uuid Z) :
  callCounts h !! roomID = Some counts →
  dom counts ⊆ {[userID]} →
  count h roomID userID = 1 →
  callCounts (removeCallLocked h roomID userID) !! roomID = None
  ∧ callUsers (removeCallLocked h roomID userID) !! roomID = None.
Proof.
  intros E Hdom H1. unfold count in H1. rewrite E in H1.
  unfold removeCallLocked. rewrite E, H1.
  rewrite (decide_True (P := wrap_int (1 - 1) ≤ 0)) by (by vm_compute).
  assert (delete userID counts = ∅) as ->.
  { apply map_eq. intros u. rewrite lookup_empty.
    destruct (decide (u = userID)) as [->|Hu]; [by rewrite lookup_delete_eq|].
    rewrite lookup_delete_ne by done.
    apply not_elem_of_dom. set_solver. }
  rewrite decide_True by apply map_size_empty.
  simpl. by rewrite !lookup_delete_eq.
Qed.

(** C6 ([Hub.addCallLocked], [Hub.removeCallLocked] and their callers):
    in every hub state reached from the new hub by attach, detach,
    markInCall and markOutOfCall, a user has a call presence record for
    a room exactly when the reference count of the user in that room
    is positive; each of the four operations keeps that equivalence
    (the reference count is a machine integer: markInCall keeps it below
    the point where it would wrap around); a count that goes from one to
    zero removes the record, and the room's entries in both maps go
    when no other user is left. *)
Theorem call_record_iff_positive_count :
  (∀ ops, Z.of_nat (length ops) ≤ int_max → call_inv (run_ops ops NewHub))
  ∧ (∀ b h roomID userID name, hub_ok b h → b < int_max →
       hub_ok (b + 1) (addCallLocked h roomID userID name))
  ∧ (∀ b h roomID userID, hub_ok b h → b ≤ int_max →
       hub_ok b (removeCallLocked h roomID userID))
  ∧ (∀ b h c cl, hub_ok b h → hub_ok b (Add h c cl))
  ∧ (∀ b h c cl, hub_ok b h → b ≤ int_max → hub_ok b (Remove h c cl))
  ∧ (∀ h roomID userID, count h roomID userID = 1 →
       count (removeCallLocked h roomID userID) roomID userID = 0
       ∧ record (removeCallLocked h roomID userID) roomID userID = None)
  ∧ (∀ h roomID userID counts,
       callCounts h !! roomID = Some counts → dom counts ⊆ {[userID]} →
       count h roomID userID = 1 →
       callCounts (removeCallLocked h roomID userID) !! roomID = None
       ∧ callUsers (removeCallLocked h roomID userID) !! roomID = None).
Proof.
  split; [|split; [|split; [|split; [|split; [|split]]]]].
  - intros ops Hlen.
    destruct (hub_ok_run_ops ops 0 NewHub hub_ok_NewHub) as [Hinv _]; [lia|].
    exact Hinv.
  - intros. by apply hub_ok_addCallLocked.
  - intros. by apply hub_ok_removeCallLocked.
  - intros. by apply hub_ok_Add.
  - intros. by apply hub_ok_Remove.
  - intros. by apply removeCallLocked_last.
  - intros. by eapply removeCallLocked_prunes.
Qed.

Lemma call_record_iff_positive_count_witness :
  call_inv (run_ops ex.two_conn_ops NewHub)
  ∧ hub_ok 1 ex.hub_one
  ∧ hub_ok 1 (removeCallLocked ex.hub_one ex.lobby ex.alice)
  ∧ hub_ok 1 (Remove ex.hub_one 1%positive ex.alice1)
  ∧ count (removeCallLocked ex.hub_one ex.lobby ex.alice) ex.lobby ex.alice = 0
  ∧ callCounts (removeCallLocked ex.hub_one ex.lobby ex.alice) !! ex.lobby = None.
Proof.
  destruct call_record_iff_positive_count
    as (Hreach & Hadd & Hrem & _ & Hdetach & Hlast & Hprune).
  assert (hub_ok (0 + 1) ex.hub_one) as Hone.
  { apply Hadd; [apply hub_ok_NewHub | by vm_compute]. }
  split; [|split; [|split; [|split; [|split]]]].
  - apply Hreach. by vm_compute.
  - exact Hone.
  - apply Hrem; [exact Hone | by vm_compute].
  - apply Hdetach; [exact Hone | by vm_compute].
  - apply Hlast. by vm_compute.
  - eapply Hprune; [by vm_compute | | by vm_compute].
    vm_compute. set_solver.
Defined.

End CallPresence.

(* ================================================================== *)
(** * Session bootstrap *)
(* ================================================================== *)

Section Registry.
Import ws.

Lemma room_clients_Add (h : Hub) (c : ptr) (cl : Client) (r : uuid) :
  room_clients (Add h c cl) r
  = if decide (r = RoomID cl) then {[c]} ∪ room_clients h r
    else room_clients h r.
Proof.
  unfold room_clients, Add; simpl.
  destruct (decide (r = RoomID cl)) as [->|Hr].
  - destruct (rooms h !! RoomID cl) as [clients|] eqn:E.
    + by rewrite lookup_alter_eq, E.
    + by rewrite lookup_alter_eq, lookup_insert_eq.
  - destruct (rooms h !! RoomID cl) as [clients|] eqn:E.
    + by rewrite lookup_alter_ne.
    + by rewrite lookup_alter_ne, lookup_insert_ne.
Qed.

End Registry.

Section Bootstrap.
Import ws httpapi obs.

Lemma chan_send_Some (σ : gmap ptr Client) (c : ptr) (x : Client)
    (m : OutgoingMessage) :
  σ !! c = Some x →
  (length (buf (Send x)) < cap (Send x))%nat →
  chan_send σ c m
  = Some (<[c := set_Send x {| buf := buf (Send x) ++ [m];
                               cap := cap (Send x) |}]> σ).
Proof.
  intros Hc Hlt. unfold chan_send. rewrite Hc. simpl.
  unfold try_send. by rewrite decide_True.
Qed.

(** The run of the handler after the upgrade: it always ends with
    both pumps started; the new client has been sent the room
    announcement (if any), the history (if any) and the call
    participants, in this order; the clients that were attached to the
    room have been told the announcement and nothing else; nobody else
    is touched. *)
Lemma roomWebSocket_upgraded_spec (w : World) (e : WSEnv)
    (roomID userID : uuid) (username : string) :
  let c := fresh (dom (heap w)) in
  let cl := new_client roomID userID username in
  ∃ σ',
    roomWebSocket_upgraded w e roomID userID username
    = ({| hub := Add (hub w) c cl; heap := σ'; store := store w |}, Switched c)
    ∧ σ' !! c
      = Some (set_Send cl
                {| buf := option_list (announced w e roomID)
                          ++ option_list (history_sent w e roomID)
                          ++ [call_participants_msg
                                (CallParticipants (hub w) roomID)];
                   cap := 64 |})
    ∧ ∀ p, p ≠ c →
           σ' !! p
           = if decide (p ∈ room_clients (hub w) roomID)
             then told (announced w e roomID) <$> heap w !! p
             else heap w !! p.
Proof.
  intros c cl. unfold roomWebSocket_upgraded.
  fold c. fold cl.
  set (h1 := Add (hub w) c cl).
  set (σ0 := <[c := cl]> (heap w)).
  set (σ1 := match db.ListRoomMembers _ _ _ with
             | Ok members => Broadcast h1 σ0 roomID _
             | Err _ => σ0
             end).
  assert (Hin : c ∈ room_clients h1 roomID).
  { unfold h1. rewrite room_clients_Add.
    rewrite decide_True by done. set_solver. }
  assert (Hc1 : σ1 !! c
                = Some (set_Send cl {| buf := option_list (announced w e roomID);
                                       cap := 64 |})).
  { unfold σ1, announced.
    destruct (db.ListRoomMembers _ _ _) as [members|]; simpl.
    - rewrite Broadcast_lookup, decide_True by done.
      unfold σ0. rewrite lookup_insert_eq. simpl.
      unfold deliver, try_send. cbn [Send buf cap new_client cl length].
      rewrite decide_True by lia. done.
    - unfold σ0. by rewrite lookup_insert_eq. }
  assert (Hp1 : ∀ p, p ≠ c →
            σ1 !! p = if decide (p ∈ room_clients (hub w) roomID)
                      then told (announced w e roomID) <$> heap w !! p
                      else heap w !! p).
  { intros p Hp. unfold σ1, announced.
    destruct (db.ListRoomMembers _ _ _) as [members|]; simpl.
    - rewrite Broadcast_lookup. unfold h1. rewrite room_clients_Add.
      rewrite (decide_True (P := roomID = _)) by done.
      unfold σ0. rewrite lookup_insert_ne by done.
      destruct (decide (p ∈ room_clients (hub w) roomID)).
      + rewrite decide_True by (apply elem_of_union; by right). done.
      + rewrite decide_False; [done|].
        intros [?%elem_of_singleton|?]%elem_of_union; done.
    - unfold σ0. rewrite lookup_insert_ne by done.
      case_decide; [|done]. by destruct (heap w !! p). }
  assert (Hlen1 : (length (option_list (announced w e roomID)) ≤ 1)%nat)
    by (destruct (announced w e roomID); simpl; lia).
  unfold history_sent.
  destruct (db.ListMessages _ _ _ _) as [history|]; simpl.
  - rewrite (chan_send_Some σ1 c _ _ Hc1) by (simpl; lia).
    erewrite chan_send_Some;
      [|apply lookup_insert_eq | simpl; rewrite length_app; simpl; lia].
    eexists. split; [reflexivity|]. split.
    + rewrite lookup_insert_eq. simpl. by rewrite <- app_assoc.
    + intros p Hp. rewrite !lookup_insert_ne by done. by apply Hp1.
  - rewrite (chan_send_Some σ1 c _ _ Hc1) by (simpl; lia).
    eexists. split; [reflexivity|]. split.
    + by rewrite lookup_insert_eq.
    + intros p Hp. rewrite lookup_insert_ne by done. by apply Hp1.
Qed.

End Bootstrap.

Section UpgradeHandler.
Import ws httpapi obs.
Variable jwt_ParseWithClaims : string → string → option (auth.Claims * bool).
Variable uuid_Parse : string → option uuid.

Local Abbreviation roomWS := (roomWebSocket jwt_ParseWithClaims uuid_Parse).
Local Abbreviation ParseJWT := (auth.ParseJWT jwt_ParseWithClaims).
Local Abbreviation admitted := (httpapi.admitted jwt_ParseWithClaims uuid_Parse).

Lemma roomWebSocket_cases (JWTSecret : string) (w : World) (r : Request)
    (e : WSEnv) :
  (∃ status msg, roomWS JWTSecret w r e = (w, jsonError status msg))
  ∨ roomWS JWTSecret w r e = (w, UpgradeFailed)
  ∨ ∃ roomID userID username,
      admitted JWTSecret w r e roomID userID username
      ∧ upgrade_fails e = false
      ∧ roomWS JWTSecret w r e
        = roomWebSocket_upgraded w e roomID userID username.
Proof.
  unfold roomWebSocket.
  destruct (decide (token r = EmptyString)) as [Ht|Ht]; [by eauto|].
  destruct (ParseJWT JWTSecret (token r))
    as [claims|] eqn:Hjwt; [|by eauto].
  destruct (uuid_Parse (auth.Claims_UserID claims))
    as [userID|] eqn:Hu; [|by eauto].
  destruct (uuid_Parse (roomID_param r)) as [roomID|] eqn:Hr; [|by eauto].
  destruct (db.GetRoomByID _ _ roomID) as [room|] eqn:Hroom; [|by eauto].
  destruct (db.IsRoomMember _ _ roomID userID) as [[|]|] eqn:Hm; [|by eauto..].
  destruct (upgrade_fails e) eqn:Hup; [by eauto|].
  right. right. exists roomID, userID, (auth.Claims_Username claims).
  split; [|done]. exists claims, room. done.
Qed.

Lemma roomWebSocket_Switched (JWTSecret : string) (w w' : World) (r : Request)
    (e : WSEnv) (c : ptr) :
  roomWS JWTSecret w r e = (w', Switched c) →
  ∃ roomID userID username,
    admitted JWTSecret w r e roomID userID username
    ∧ roomWebSocket_upgraded w e roomID userID username = (w', Switched c).
Proof.
  intros H.
  destruct (roomWebSocket_cases JWTSecret w r e)
    as [(st & msg & Hr)|[Hr|(roomID & userID & name & Hadm & _ & Hr)]];
    rewrite Hr in H; [discriminate..|].
  by exists roomID, userID, name.
Qed.

(** A request that does not end with the pumps running leaves the
    world as it was. *)
Lemma roomWebSocket_rejected (JWTSecret : string) (w w' : World) (r : Request)
    (e : WSEnv) (resp : Response) :
  roomWS JWTSecret w r e = (w', resp) →
  (∀ c, resp ≠ Switched c) → w' = w.
Proof.
  intros H Hns.
  destruct (roomWebSocket_cases JWTSecret w r e)
    as [(st & msg & Hr)|[Hr|(roomID & userID & name & _ & _ & Hr)]];
    rewrite Hr in H.
  - by injection H as <- _.
  - by injection H as <- _.
  - destruct (roomWebSocket_upgraded_spec w e roomID userID name)
      as (σ' & Hup & _).
    rewrite Hup in H. injection H as _ <-. by destruct (Hns _ eq_refl).
Qed.

(** C5 ([Server.roomWebSocket]): an upgrade request with an invalid
    identity token is rejected as unauthorized; with a valid token, a
    request for a room that does not exist is rejected as not found;
    with a valid token and an existing room, a request of a caller who
    is not a member is rejected as forbidden; a connection is built and
    attached only when the three checks succeed; a rejected request
    leaves the hub (and the rest of the world) unchanged. *)
Theorem roomWebSocket_rejections (JWTSecret : string) (w : World)
    (r : Request) (e : WSEnv) :
  (* the token is missing, does not verify, or names no user *)
  (token r = EmptyString
   ∨ ParseJWT JWTSecret (token r) = None
   ∨ (∃ claims, ParseJWT JWTSecret (token r) = Some claims
                ∧ uuid_Parse (auth.Claims_UserID claims) = None) →
   ∃ msg, roomWS JWTSecret w r e = (w, jsonError StatusUnauthorized msg))
  ∧ (∀ claims userID roomID,
       token r ≠ EmptyString →
       ParseJWT JWTSecret (token r) = Some claims →
       uuid_Parse (auth.Claims_UserID claims) = Some userID →
       uuid_Parse (roomID_param r) = Some roomID →
       (* the room does not exist *)
       (db.rooms (store w) !! roomID = None →
        roomWS JWTSecret w r e = (w, jsonError StatusNotFound "room not found"))
       (* the room exists and the caller is not a member *)
       ∧ (∀ room,
            db.GetRoomByID (store w) (fail_GetRoomByID e) roomID = Ok room →
            db.IsRoomMember (store w) (fail_IsRoomMember e) roomID userID
            = Ok false →
            roomWS JWTSecret w r e = (w, jsonError StatusForbidden "forbidden")))
  ∧ (∀ w' c,
       roomWS JWTSecret w r e = (w', Switched c) →
       ∃ roomID userID username,
         admitted JWTSecret w r e roomID userID username
         ∧ hub w' = Add (hub w) c (new_client roomID userID username)
         ∧ heap w !! c = None
         ∧ c ∈ room_clients (hub w') roomID)
  ∧ (∀ w' resp,
       roomWS JWTSecret w r e = (w', resp) →
       (∀ c, resp ≠ Switched c) →
       w' = w ∧ ∀ c, resp ≠ Waiting c).
Proof.
  split; [|split; [|split]].
  - unfold roomWebSocket.
    intros [Ht|[Hj|(claims & Hj & Hu)]].
    + rewrite decide_True by done. eauto.
    + destruct (decide (token r = EmptyString)); [by eauto|].
      rewrite Hj. eauto.
    + destruct (decide (token r = EmptyString)); [by eauto|].
      rewrite Hj, Hu. eauto.
  - intros claims userID roomID Ht Hj Hu Hr. unfold roomWebSocket.
    rewrite decide_False by done. rewrite Hj, Hu, Hr. split.
    + intros Hnone. unfold db.GetRoomByID. rewrite Hnone.
      by destruct (fail_GetRoomByID e).
    + intros room Hroom Hm. by rewrite Hroom, Hm.
  - intros w' c H.
    destruct (roomWebSocket_Switched _ _ _ _ _ _ H)
      as (roomID & userID & name & Hadm & Hup).
    exists roomID, userID, name. split; [done|].
    destruct (roomWebSocket_upgraded_spec w e roomID userID name)
      as (σ' & Hspec & _).
    rewrite Hspec in Hup. injection Hup as <- <-. simpl.
    split; [done|]. split.
    + apply not_elem_of_dom. apply is_fresh.
    + rewrite room_clients_Add. rewrite decide_True by done.
      apply elem_of_union. left. by apply elem_of_singleton.
  - intros w' resp H Hns. split.
    + by eapply roomWebSocket_rejected.
    + intros c ->.
      destruct (roomWebSocket_cases JWTSecret w r e)
        as [(st & msg & Hr)|[Hr|(roomID & userID & name & _ & _ & Hr)]];
        rewrite Hr in H; [discriminate..|].
      destruct (roomWebSocket_upgraded_spec w e roomID userID name)
        as (σ' & Hup & _).
      rewrite Hup in H. discriminate.
Qed.

End UpgradeHandler.

Section BootstrapDelivery.
Import ws httpapi obs.
Variable jwt_ParseWithClaims : string → string → option (auth.Claims * bool).
Variable uuid_Parse : string → option uuid.

Local Abbreviation roomWS := (roomWebSocket jwt_ParseWithClaims uuid_Parse).
Local Abbreviation admitted := (httpapi.admitted jwt_ParseWithClaims uuid_Parse).

Lemma announced_type (w : World) (e : WSEnv) (roomID : uuid)
    (m : OutgoingMessage) :
  announced w e roomID = Some m → Type_ m = "participants"%string.
Proof.
  unfold announced. destruct (db.ListRoomMembers _ _ _); [|done].
  by intros [= <-].
Qed.

(** What a successful run of the handler did to the hub and to the
    queues of the clients. *)
Lemma roomWebSocket_Switched_spec (JWTSecret : string) (w w' : World)
    (r : Request) (e : WSEnv) (c : ptr) :
  roomWS JWTSecret w r e = (w', Switched c) →
  ∃ roomID userID username,
    admitted JWTSecret w r e roomID userID username
    ∧ hub w' = Add (hub w) c (new_client roomID userID username)
    ∧ store w' = store w
    ∧ heap w' !! c
      = Some (set_Send (new_client roomID userID username)
                {| buf := option_list (announced w e roomID)
                          ++ option_list (history_sent w e roomID)
                          ++ [call_participants_msg
                                (CallParticipants (hub w) roomID)];
                   cap := 64 |})
    ∧ (∀ p, p ≠ c →
            heap w' !! p
            = if decide (p ∈ room_clients (hub w) roomID)
              then told (announced w e roomID) <$> heap w !! p
              else heap w !! p).
Proof.
  intros H.
  destruct (roomWebSocket_Switched _ _ _ _ _ _ _ _ H)
    as (roomID & userID & name & Hadm & Hup).
  exists roomID, userID, name. split; [done|].
  destruct (roomWebSocket_upgraded_spec w e roomID userID name)
    as (σ' & Hspec & Hnew & Hrest).
  rewrite Hspec in Hup. injection Hup as <- <-. simpl.
  by repeat (split; [done|]).
Qed.

(** C3, as the code has it ([Server.roomWebSocket]): after a
    successful bootstrap the new connection is attached; the
    chat-participant snapshot (when the member listing succeeds) is
    broadcast to the room, the new connection included; the history
    snapshot (when the history listing succeeds) and the
    call-participant snapshot are sent to the new connection only, after
    the broadcast.  The connections that were in the room are sent the
    chat-participant snapshot and nothing else; all other connections
    are sent nothing. *)
Theorem bootstrap_delivery (JWTSecret : string) (w w' : World)
    (r : Request) (e : WSEnv) (c : ptr) :
  roomWS JWTSecret w r e = (w', Switched c) →
  ∃ roomID userID username,
    admitted JWTSecret w r e roomID userID username
    ∧ hub w' = Add (hub w) c (new_client roomID userID username)
    ∧ c ∈ room_clients (hub w') roomID
    (* the new connection *)
    ∧ heap w' !! c
      = Some (set_Send (new_client roomID userID username)
                {| buf := option_list (announced w e roomID)
                          ++ option_list (history_sent w e roomID)
                          ++ [call_participants_msg
                                (CallParticipants (hub w) roomID)];
                   cap := 64 |})
    (* the connections that were in the room *)
    ∧ (∀ p cl,
         p ≠ c → p ∈ room_clients (hub w) roomID → heap w !! p = Some cl →
         match announced w e roomID with
         | Some m =>
             Type_ m = "participants"%string
             ∧ heap w' !! p
               = Some (if decide (length (buf (Send cl)) < cap (Send cl))%nat
                       then set_Send cl {| buf := buf (Send cl) ++ [m];
                                           cap := cap (Send cl) |}
                       else Close cl)
         | None => heap w' !! p = Some cl
         end)
    (* everybody else *)
    ∧ (∀ p, p ≠ c → p ∉ room_clients (hub w) roomID →
            heap w' !! p = heap w !! p).
Proof.
  intros H.
  destruct (roomWebSocket_Switched_spec _ _ _ _ _ _ H)
    as (roomID & userID & name & Hadm & Hhub & _ & Hnew & Hrest).
  exists roomID, userID, name.
  split; [done|]. split; [done|]. split; [|split; [done|split]].
  - rewrite Hhub, room_clients_Add. rewrite decide_True by done.
    apply elem_of_union. left. by apply elem_of_singleton.
  - intros p cl Hp Hin Hcl.
    rewrite Hrest by done. rewrite decide_True by done. rewrite Hcl.
    destruct (announced w e roomID) as [m|] eqn:Hm; simpl; [|done].
    split; [by eapply announced_type|].
    unfold deliver, try_send. by case_decide.
  - intros p Hp Hout. rewrite Hrest by done. by rewrite decide_False.
Qed.

(** C9 ([Store.ListMessages] and its use in [Server.roomWebSocket]):
    for a limit between 1 and 200 the listing succeeds when the
    database does and returns at most [limit] messages, as many as the
    [messages] table has rows of the room (with an author) up to the
    limit; each listed message shows one such row, column by column, no
    row twice; no row of the room that is left out was created after a
    listed one; the list is in ascending order of creation time.  The
    history snapshot of a bootstrap is a message of type "history" whose
    payloads carry, one by one and in the same order, the listing of the
    room for the limit 50; it is queued on the new connection, once, and
    no other connection is sent a history message. *)
Theorem history_snapshot :
  (∀ (s : db.Store) (roomID : uuid) (limit : Z),
     0 < limit ≤ 200 →
     ∃ l rows older,
       db.ListMessages s false roomID limit = Ok l
       ∧ Z.of_nat (length l) ≤ limit
       ∧ length l = Nat.min (Z.to_nat limit)
                      (length (filter (stored_in s roomID) (db.messages s)))
       ∧ StronglySorted oldest_first l
       ∧ filter (stored_in s roomID) (db.messages s) ≡ₚ older ++ rows
       ∧ Forall2 (shows s) rows l
       ∧ ∀ o r, o ∈ older → r ∈ rows →
                db.row_created_at o ≤ db.row_created_at r)
  ∧ (∀ (JWTSecret : string) (w w' : World) (r : Request) (e : WSEnv) (c : ptr),
       roomWS JWTSecret w r e = (w', Switched c) →
       fail_ListMessages e = false →
       ∃ roomID userID username history cl' snapshot,
         admitted JWTSecret w r e roomID userID username
         ∧ db.ListMessages (store w) false roomID 50 = Ok history
         ∧ heap w' !! c = Some cl'
         ∧ snapshot ∈ buf (Send cl')
         ∧ Type_ snapshot = "history"%string
         ∧ Forall2 carries history (Messages snapshot)
         ∧ Message snapshot = None
         ∧ Participants_ snapshot = [] ∧ CallUsers snapshot = []
         ∧ (∀ m, m ∈ buf (Send cl') → Type_ m = "history"%string →
                 m = snapshot)
         ∧ ∀ p cl cl' m,
             p ≠ c → heap w !! p = Some cl → heap w' !! p = Some cl' →
             m ∈ buf (Send cl') → Type_ m = "history"%string →
             m ∈ buf (Send cl)).
Proof.
  split; [exact ListMessages_stored|].
  intros JWTSecret w w' r e c H Hok.
  destruct (roomWebSocket_Switched_spec _ _ _ _ _ _ H)
    as (roomID & userID & name & Hadm & _ & _ & Hnew & Hrest).
  destruct (ListMessages_spec (store w) roomID 50) as (history & Hh & _); [lia|].
  exists roomID, userID, name, history. eexists.
  exists (history_msg (PayloadFromMessage <$> history)).
  assert (Hsent : history_sent w e roomID
                  = Some (history_msg (PayloadFromMessage <$> history))).
  { unfold history_sent. by rewrite Hok, Hh. }
  split; [done|]. split; [done|]. split; [exact Hnew|].
  cbn [Send set_Send buf]. rewrite Hsent.
  split_and!; try done.
  - apply elem_of_app. right. apply elem_of_cons. by left.
  - cbn [history_msg Messages].
    apply Forall2_fmap_r, Forall_Forall2_diag, Forall_forall.
    by intros m _.
  - intros m Hin Hty.
    apply elem_of_app in Hin as [Hin|Hin].
    { destruct (announced w e roomID) as [pm|] eqn:Ha;
        [|by apply not_elem_of_nil in Hin].
      apply announced_type in Ha.
      apply list_elem_of_singleton in Hin as ->. rewrite Ha in Hty.
      discriminate. }
    cbn [option_list app] in Hin.
    apply elem_of_cons in Hin as [->|Hin]; [done|].
    apply list_elem_of_singleton in Hin as ->. discriminate.
  - intros p cl cl'' m Hp Hcl Hcl' Hin Hty.
    rewrite Hrest, Hcl in Hcl' by done.
    case_decide; simpl in Hcl'; injection Hcl' as <-; [|done].
    unfold told in Hin.
    destruct (announced w e roomID) as [pm|] eqn:Ha; [|done].
    apply announced_type in Ha.
    unfold deliver, try_send in Hin. case_decide; simpl in Hin; [|done].
    apply elem_of_app in Hin as [Hin|Hin%list_elem_of_singleton]; [done|].
    subst m. rewrite Ha in Hty. discriminate.
Qed.

End BootstrapDelivery.

Section BootstrapExamples.
Import ws httpapi obs.

Lemma roomWebSocket_rejections_witness :
  (∃ msg, ex.connect ex.world0 "" "r7"
          = (ex.world0, jsonError StatusUnauthorized msg))
  ∧ (∃ msg, ex.connect ex.world0 "expired-token" "r7"
            = (ex.world0, jsonError StatusUnauthorized msg))
  ∧ ex.connect ex.world0 "bob-token" "r9"
    = (ex.world0, jsonError StatusNotFound "room not found")
  ∧ ex.connect ex.world0 "bob-token" "r8"
    = (ex.world0, jsonError StatusForbidden "forbidden")
  ∧ (∃ roomID userID username,
       admitted ex.jwt ex.parse "secret" ex.world0
         {| token := "alice-token"; roomID_param := "r7" |} ex.calm
         roomID userID username
       ∧ hub (ex.connect ex.world0 "alice-token" "r7").1
         = Add (hub ex.world0) 1%positive (new_client roomID userID username)
       ∧ heap ex.world0 !! 1%positive = None
       ∧ 1%positive ∈ room_clients (hub (ex.connect ex.world0 "alice-token" "r7").1)
                                   roomID)
  ∧ (ex.connect ex.world0 "nobody" "r7").1 = ex.world0.
Proof.
  pose (req := λ tok room, {| token := tok; roomID_param := room |}).
  split; [|split; [|split; [|split; [|split]]]].
  - apply (roomWebSocket_rejections ex.jwt ex.parse "secret" ex.world0
             (req ""%string "r7"%string) ex.calm).
    left. reflexivity.
  - apply (roomWebSocket_rejections ex.jwt ex.parse "secret" ex.world0
             (req "expired-token"%string "r7"%string) ex.calm).
    right. left. reflexivity.
  - eapply (roomWebSocket_rejections ex.jwt ex.parse "secret" ex.world0
              (req "bob-token"%string "r9"%string) ex.calm);
      [discriminate | reflexivity..].
  - eapply (roomWebSocket_rejections ex.jwt ex.parse "secret" ex.world0
              (req "bob-token"%string "r8"%string) ex.calm);
      [discriminate | reflexivity..].
  - eapply (roomWebSocket_rejections ex.jwt ex.parse "secret" ex.world0
              (req "alice-token"%string "r7"%string) ex.calm).
    vm_compute. reflexivity.
  - destruct (roomWebSocket_rejections ex.jwt ex.parse "secret" ex.world0
                (req "nobody"%string "r7"%string) ex.calm)
      as (_ & _ & _ & Hrej).
    refine (proj1 (Hrej (ex.connect ex.world0 "nobody" "r7").1
                        (jsonError StatusUnauthorized "invalid token") _ _));
      [reflexivity | discriminate].
Defined.

(** C3, as the specification words it, fails: Alice connects to the
    lobby while Bob is attached with an empty queue; Bob is sent the
    chat-participant snapshot and no call-participant snapshot. *)
Lemma bootstrap_as_specified_fails :
  (ex.connect ex.world_bob "alice-token" "r7").2 = Switched 2%positive
  ∧ ¬ bootstrap_as_specified ex.world_bob
        (ex.connect ex.world_bob "alice-token" "r7").1 2%positive ex.lobby.
Proof.
  split; [reflexivity|].
  intros (Hall & _).
  destruct (Hall 1%positive) as [_ (cl' & ms & m & Hcl' & Hbuf & Hm & Hty)].
  { apply (bool_decide_unpack _). vm_compute. exact I. }
  vm_compute in Hcl'. injection Hcl' as <-.
  vm_compute in Hbuf. subst ms.
  apply list_elem_of_singleton in Hm. subst m. discriminate.
Qed.

Lemma bootstrap_delivery_witness :
  ∃ roomID userID username,
    admitted ex.jwt ex.parse "secret" ex.world_bob
      {| token := "alice-token"; roomID_param := "r7" |} ex.calm
      roomID userID username
    ∧ hub (ex.connect ex.world_bob "alice-token" "r7").1
      = Add (hub ex.world_bob) 2%positive (new_client roomID userID username)
    ∧ 2%positive ∈ room_clients (hub (ex.connect ex.world_bob "alice-token" "r7").1)
                                roomID
    ∧ heap (ex.connect ex.world_bob "alice-token" "r7").1 !! 2%positive
      = Some (set_Send (new_client roomID userID username)
                {| buf := option_list (announced ex.world_bob ex.calm roomID)
                          ++ option_list (history_sent ex.world_bob ex.calm roomID)
                          ++ [call_participants_msg
                                (CallParticipants (hub ex.world_bob) roomID)];
                   cap := 64 |})
    ∧ (∀ p cl,
         p ≠ 2%positive → p ∈ room_clients (hub ex.world_bob) roomID →
         heap ex.world_bob !! p = Some cl →
         match announced ex.world_bob ex.calm roomID with
         | Some m =>
             Type_ m = "participants"%string
             ∧ heap (ex.connect ex.world_bob "alice-token" "r7").1 !! p
               = Some (if decide (length (buf (Send cl)) < cap (Send cl))%nat
                       then set_Send cl {| buf := buf (Send cl) ++ [m];
                                           cap := cap (Send cl) |}
                       else Close cl)
         | None => heap (ex.connect ex.world_bob "alice-token" "r7").1 !! p
                   = Some cl
         end)
    ∧ (∀ p, p ≠ 2%positive → p ∉ room_clients (hub ex.world_bob) roomID →
            heap (ex.connect ex.world_bob "alice-token" "r7").1 !! p
            = heap ex.world_bob !! p).
Proof.
  apply (bootstrap_delivery ex.jwt ex.parse "secret" ex.world_bob
           (ex.connect ex.world_bob "alice-token" "r7").1
           {| token := "alice-token"; roomID_param := "r7" |} ex.calm 2%positive).
  reflexivity.
Defined.

Lemma history_snapshot_witness :
  (∃ l rows older,
     db.ListMessages ex.store0 false ex.lobby 2 = Ok l
     ∧ Z.of_nat (length l) ≤ 2
     ∧ length l = Nat.min (Z.to_nat 2)
                    (length (filter (stored_in ex.store0 ex.lobby)
                               (db.messages ex.store0)))
     ∧ StronglySorted oldest_first l
     ∧ filter (stored_in ex.store0 ex.lobby) (db.messages ex.store0)
       ≡ₚ older ++ rows
     ∧ Forall2 (shows ex.store0) rows l
     ∧ ∀ o r, o ∈ older → r ∈ rows →
              db.row_created_at o ≤ db.row_created_at r)
  ∧ ∃ roomID userID username history cl' snapshot,
      admitted ex.jwt ex.parse "secret" ex.world_bob
        {| token := "alice-token"; roomID_param := "r7" |} ex.calm
        roomID userID username
      ∧ db.ListMessages (store ex.world_bob) false roomID 50 = Ok history
      ∧ heap (ex.connect ex.world_bob "alice-token" "r7").1 !! 2%positive
        = Some cl'
      ∧ snapshot ∈ buf (Send cl')
      ∧ Type_ snapshot = "history"%string
      ∧ Forall2 carries history (Messages snapshot)
      ∧ Message snapshot = None
      ∧ Participants_ snapshot = [] ∧ CallUsers snapshot = []
      ∧ (∀ m, m ∈ buf (Send cl') → Type_ m = "history"%string →
              m = snapshot)
      ∧ ∀ p cl cl' m,
          p ≠ 2%positive → heap ex.world_bob !! p = Some cl →
          heap (ex.connect ex.world_bob "alice-token" "r7").1 !! p = Some cl' →
          m ∈ buf (Send cl') → Type_ m = "history"%string →
          m ∈ buf (Send cl).
Proof.
  destruct (history_snapshot ex.jwt ex.parse) as [Hlist Hboot].
  split.
  - apply Hlist. lia.
  - apply (Hboot "secret"%string ex.world_bob
             (ex.connect ex.world_bob "alice-token" "r7").1
             {| token := "alice-token"; roomID_param := "r7" |} ex.calm 2%positive);
      reflexivity.
Defined.

End BootstrapExamples.

(* ================================================================== *)
(** * The read pump *)
(* ================================================================== *)

Section ReadPumpFacts.
Import ws obs.

(** C8 ([Client.ReadPump]): an open connection that reads a chat
    frame with an empty content, or a frame whose type is none of
    "chat", "call_join" and "call_leave", saves no message, broadcasts
    nothing, leaves the hub and every client as they are, stays open and
    goes on to the next frame. *)
Theorem ReadPump_ignores_frame (w : World) (c : ptr) (cl : Client)
    (m : IncomingMessage) (e : db.SaveEnv) :
  heap w !! c = Some cl → Conn cl = ConnOpen →
  (In_Type m = "chat"%string ∧ In_Content m = EmptyString)
  ∨ (In_Type m ≠ "chat"%string ∧ In_Type m ≠ "call_join"%string
     ∧ In_Type m ≠ "call_leave"%string) →
  ReadPump_body w c (Some m) e = (w, Continue)
  ∧ ∀ rest fail_members,
      ReadPump w c ((Some m, e) :: rest) fail_members
      = ReadPump w c rest fail_members.
Proof.
  intros Hc Hopen Hm.
  assert (ReadPump_body w c (Some m) e = (w, Continue)) as Hbody.
  { unfold ReadPump_body. rewrite Hc, Hopen.
    destruct Hm as [[Ht Hcont]|(Hchat & Hjoin & Hleave)].
    - rewrite decide_True by (by right).
      rewrite Ht. by repeat case_decide.
    - rewrite decide_True by (by left).
      by rewrite !decide_False by done. }
  split; [exact Hbody|].
  intros rest fm. cbn [ReadPump]. by rewrite Hbody.
Qed.

Lemma ReadPump_ignores_frame_witness :
  ReadPump_body ex.world_alice2 1%positive (Some (ex.frame "chat" "")) ex.no_fault
  = (ex.world_alice2, Continue)
  ∧ ReadPump_body ex.world_alice2 1%positive (Some (ex.frame "typing" "x"))
                  ex.no_fault
    = (ex.world_alice2, Continue).
Proof.
  split.
  - eapply ReadPump_ignores_frame; [reflexivity | reflexivity |].
    left. split; reflexivity.
  - eapply ReadPump_ignores_frame; [reflexivity | reflexivity |].
    right. repeat split; discriminate.
Defined.

(** C1 ([Hub.Remove], [Hub.SetInCall], [Client.ReadPump]): the
    reference count is meant to equal the number of registered
    connections of the user with the in-call flag set.  [Hub.Remove]
    decrements without looking at the flag of the connection it removes:
    Alice has two connections in the lobby, the first joins the call
    (count 1), the second, which never joined, is lost; the count drops
    to 0 and Alice's record goes while her first connection is still
    registered with its flag set. *)
Theorem detach_of_idle_connection_decrements :
  count (hub ex.world_one_joined) ex.lobby ex.alice = 1
  ∧ in_call_conns ex.world_one_joined ex.lobby ex.alice = {[ 1%positive ]}
  ∧ (InCall <$> heap ex.world_one_joined !! 2%positive) = Some false
  ∧ count (hub ex.world_other_lost) ex.lobby ex.alice = 0
  ∧ record (hub ex.world_other_lost) ex.lobby ex.alice = None
  ∧ in_call_conns ex.world_other_lost ex.lobby ex.alice = {[ 1%positive ]}
  ∧ count (hub ex.world_other_lost) ex.lobby ex.alice
    ≠ Z.of_nat (size (in_call_conns ex.world_other_lost ex.lobby ex.alice)).
Proof. by vm_compute. Qed.

(** C2 ([Hub.Remove], [Hub.removeCallLocked]): a second [Remove] of
    the same connection is meant to change nothing.  It decrements the
    count again whenever the room is still registered: with both of
    Alice's connections in the call (count 2), removing the first once
    leaves count 1, removing it again leaves count 0 and deletes Alice's
    record, although the second connection is registered and in the
    call. *)
Theorem Remove_twice_decrements_twice :
  ∃ cl, heap ex.world_both_joined !! 1%positive = Some cl
        ∧ InCall cl = true
        ∧ let h := hub ex.world_both_joined in
          let once := Remove h 1%positive cl in
          let twice := Remove once 1%positive cl in
          count h ex.lobby ex.alice = 2
          ∧ in_call_conns ex.world_both_joined ex.lobby ex.alice
            = {[ 1%positive; 2%positive ]}
          ∧ count once ex.lobby ex.alice = 1
          ∧ room_clients once ex.lobby = {[ 2%positive ]}
          ∧ count twice ex.lobby ex.alice = 0
          ∧ record twice ex.lobby ex.alice = None
          ∧ room_clients twice ex.lobby = {[ 2%positive ]}
          ∧ twice ≠ once.
Proof.
  eexists. split; [by vm_compute|]. split; [reflexivity|].
  repeat (split; [by vm_compute|]).
  intros Heq.
  apply (f_equal (λ h, count h ex.lobby ex.alice)) in Heq.
  by vm_compute in Heq.
Qed.

End ReadPumpFacts.

(* ================================================================== *)
(** * The room registry *)
(* ================================================================== *)

Section RegistryInvariant.
Import ws httpapi obs.

Lemma rooms_Add (h : Hub) (c : ptr) (cl : Client) (r : uuid) :
  rooms (Add h c cl) !! r
  = if decide (r = RoomID cl) then Some ({[c]} ∪ room_clients h r)
    else rooms h !! r.
Proof.
  unfold room_clients, Add; simpl.
  destruct (decide (r = RoomID cl)) as [->|Hr].
  - destruct (rooms h !! RoomID cl) as [clients|] eqn:E.
    + by rewrite lookup_alter_eq, E.
    + by rewrite lookup_alter_eq, lookup_insert_eq.
  - destruct (rooms h !! RoomID cl) as [clients|] eqn:E.
    + by rewrite lookup_alter_ne.
    + by rewrite lookup_alter_ne, lookup_insert_ne.
Qed.

Lemma rooms_removeCallLocked (h : Hub) (roomID userID : uuid) :
  rooms (removeCallLocked h roomID userID) = rooms h.
Proof.
  unfold removeCallLocked.
  destruct (callCounts h !! roomID); [|done]. by repeat case_decide.
Qed.

Lemma rooms_addCallLocked (h : Hub) (roomID userID : uuid) (name : string) :
  rooms (addCallLocked h roomID userID name) = rooms h.
Proof. done. Qed.

Lemma rooms_SetInCall (h : Hub) (cl : Client) (b : bool) :
  rooms (SetInCall h cl b) = rooms h.
Proof. destruct b; [done|apply rooms_removeCallLocked]. Qed.

(** [Remove] takes the connection out of the set of its room and
    drops the room when the set becomes empty. *)
Lemma rooms_Remove (h : Hub) (c : ptr) (cl : Client) (r : uuid) :
  rooms (Remove h c cl) !! r
  = if decide (r = RoomID cl) then
      match rooms h !! r with
      | Some clients =>
          if decide (size (clients ∖ {[c]}) = 0%nat) then None
          else Some (clients ∖ {[c]})
      | None => None
      end
    else rooms h !! r.
Proof.
  unfold Remove.
  destruct (decide (r = RoomID cl)) as [->|Hr].
  - destruct (rooms h !! RoomID cl) as [clients|] eqn:E; [|done].
    case_decide; simpl; rewrite rooms_removeCallLocked; simpl.
    + by rewrite lookup_delete_eq.
    + by rewrite lookup_insert_eq.
  - destruct (rooms h !! RoomID cl) as [clients|] eqn:E; [|done].
    case_decide; simpl; rewrite rooms_removeCallLocked; simpl.
    + by rewrite lookup_delete_ne, lookup_insert_ne.
    + by rewrite lookup_insert_ne.
Qed.

Lemma same_rooms_refl (σ : gmap ptr Client) : same_rooms σ σ.
Proof. intros p cl H. eauto. Qed.

Lemma same_rooms_trans (σ1 σ2 σ3 : gmap ptr Client) :
  same_rooms σ1 σ2 → same_rooms σ2 σ3 → same_rooms σ1 σ3.
Proof.
  intros H12 H23 p cl H.
  destruct (H12 _ _ H) as (cl2 & H2 & E2).
  destruct (H23 _ _ H2) as (cl3 & H3 & E3).
  exists cl3. split; [done|congruence].
Qed.

Lemma same_rooms_alter (f : Client → Client) (c : ptr) (σ : gmap ptr Client) :
  (∀ cl, RoomID (f cl) = RoomID cl) → same_rooms σ (alter f c σ).
Proof.
  intros Hf p cl H. destruct (decide (p = c)) as [->|Hp].
  - rewrite lookup_alter_eq, H. simpl. eauto.
  - rewrite lookup_alter_ne by done. eauto.
Qed.

Lemma same_rooms_insert (c : ptr) (cl' : Client) (σ : gmap ptr Client) :
  (∀ cl, σ !! c = Some cl → RoomID cl' = RoomID cl) →
  same_rooms σ (<[c := cl']> σ).
Proof.
  intros Hc p cl H. destruct (decide (p = c)) as [->|Hp].
  - rewrite lookup_insert_eq. eauto.
  - rewrite lookup_insert_ne by done. eauto.
Qed.

Lemma same_rooms_Broadcast (h : Hub) (σ : gmap ptr Client) (r : uuid)
    (m : OutgoingMessage) :
  same_rooms σ (Broadcast h σ r m).
Proof.
  intros p cl H. rewrite Broadcast_lookup, H.
  case_decide; simpl; [|by eauto].
  eexists. split; [done|]. apply deliver_room.
Qed.

Lemma registry_inv_heap (h : Hub) (σ σ' : gmap ptr Client) :
  registry_inv h σ → same_rooms σ σ' → registry_inv h σ'.
Proof.
  intros Hinv Hsame r clients Hr.
  destruct (Hinv r clients Hr) as (Hne & Hnd & Hall).
  repeat split; [done..|].
  intros c Hc. destruct (Hall c Hc) as (cl & Hcl & Hroom).
  destruct (Hsame _ _ Hcl) as (cl' & Hcl' & Hroom').
  exists cl'. split; [done|congruence].
Qed.

Lemma registry_inv_rooms (h h' : Hub) (σ : gmap ptr Client) :
  rooms h' = rooms h → registry_inv h σ → registry_inv h' σ.
Proof. intros E Hinv r clients. rewrite E. apply Hinv. Qed.

(** attach *)
Lemma registry_inv_Add (h : Hub) (σ : gmap ptr Client) (c : ptr) (cl : Client) :
  registry_inv h σ → σ !! c = Some cl → registry_inv (Add h c cl) σ.
Proof.
  intros Hinv Hc r clients. rewrite rooms_Add.
  case_decide as Hr; [|apply Hinv].
  intros [= <-]. split; [set_solver|]. split; [apply NoDup_elements|].
  intros p [->%elem_of_singleton|Hp]%elem_of_union; [by eauto|].
  unfold room_clients in Hp.
  destruct (rooms h !! r) as [old|] eqn:E; simpl in Hp;
    [|by apply not_elem_of_empty in Hp].
  by apply (Hinv r old E).
Qed.

(** detach *)
Lemma registry_inv_Remove (h : Hub) (σ : gmap ptr Client) (c : ptr) (cl : Client) :
  registry_inv h σ → registry_inv (Remove h c cl) σ.
Proof.
  intros Hinv r clients. rewrite rooms_Remove.
  case_decide as Hr; [|apply Hinv].
  destruct (rooms h !! r) as [old|] eqn:E; [|done].
  case_decide as Hz; [done|]. intros [= <-].
  destruct (Hinv r old E) as (_ & _ & Hall).
  split; [|split; [apply NoDup_elements|]].
  - intros Hem. apply Hz. rewrite Hem. apply size_empty.
  - intros p [Hp _]%elem_of_difference. by apply Hall.
Qed.

Lemma registry_inv_ReadPump_body (w : World) (c : ptr)
    (rd : option IncomingMessage) (e : db.SaveEnv) :
  registry_inv (hub w) (heap w) →
  registry_inv (hub (ReadPump_body w c rd e).1) (heap (ReadPump_body w c rd e).1).
Proof.
  intros Hinv. unfold ReadPump_body.
  destruct (heap w !! c) as [cl|] eqn:Hc; [|done].
  destruct (Conn cl); [|done]. destruct rd as [incoming|]; [|done].
  assert (Hflag : ∀ b m,
            registry_inv (SetInCall (hub w) (set_InCall cl b) b)
              (Broadcast (SetInCall (hub w) (set_InCall cl b) b)
                         (<[c := set_InCall cl b]> (heap w))
                         (RoomID (set_InCall cl b)) m)).
  { intros b m. apply (registry_inv_rooms (hub w)); [apply rooms_SetInCall|].
    apply (registry_inv_heap _ (heap w)); [done|].
    eapply same_rooms_trans; [|apply same_rooms_Broadcast].
    apply same_rooms_insert. intros cl0 H0. by simplify_eq. }
  repeat case_decide; try done.
  - destruct (InCall cl); [done|]. apply Hflag.
  - destruct (InCall cl); [|done]. apply Hflag.
  - destruct (db.SaveMessage _ _ _ _ _) as [s' [msg|err]]; simpl; [|done].
    apply (registry_inv_heap _ (heap w)); [done|]. apply same_rooms_Broadcast.
Qed.

Lemma registry_inv_ReadPump_cleanup (w : World) (c : ptr) (fail_members : bool) :
  registry_inv (hub w) (heap w) →
  registry_inv (hub (ReadPump_cleanup w c fail_members))
               (heap (ReadPump_cleanup w c fail_members)).
Proof.
  intros Hinv. unfold ReadPump_cleanup.
  destruct (heap w !! c) as [cl|] eqn:Hc; [|done]. simpl.
  apply (registry_inv_heap _ (heap w)); [by apply registry_inv_Remove|].
  eapply same_rooms_trans; [|by apply same_rooms_alter].
  eapply same_rooms_trans; [|apply same_rooms_Broadcast].
  destruct (db.ListRoomMembers _ _ _);
    [apply same_rooms_Broadcast | apply same_rooms_refl].
Qed.

Lemma registry_inv_WritePump_body (w : World) (c : ptr) (ev : WriteEvent) :
  registry_inv (hub w) (heap w) →
  registry_inv (hub (WritePump_body w c ev).1) (heap (WritePump_body w c ev).1).
Proof.
  intros Hinv. unfold WritePump_body.
  destruct (heap w !! c) as [cl|] eqn:Hc; [|done].
  destruct ev as [wf|pf]; [|done].
  destruct (buf (Send cl)); [done|]. simpl.
  apply (registry_inv_heap _ (heap w)); [done|].
  apply same_rooms_insert. intros cl0 H0. by simplify_eq.
Qed.

Lemma registry_inv_WritePump_exit (w : World) (c : ptr) :
  registry_inv (hub w) (heap w) →
  registry_inv (hub (WritePump_exit w c)) (heap (WritePump_exit w c)).
Proof.
  intros Hinv. simpl.
  apply (registry_inv_heap _ (heap w)); [done|]. by apply same_rooms_alter.
Qed.

Lemma registry_inv_upgraded (w : World) (e : WSEnv) (roomID userID : uuid)
    (username : string) :
  registry_inv (hub w) (heap w) →
  registry_inv (hub (roomWebSocket_upgraded w e roomID userID username).1)
               (heap (roomWebSocket_upgraded w e roomID userID username).1).
Proof.
  intros Hinv.
  destruct (roomWebSocket_upgraded_spec w e roomID userID username)
    as (σ' & Hspec & Hnew & Hrest).
  rewrite Hspec. simpl.
  set (c := fresh (dom (heap w))) in *.
  assert (Hfresh : heap w !! c = None)
    by (apply not_elem_of_dom, is_fresh).
  assert (Hsame : same_rooms (heap w) σ').
  { intros p cl Hp.
    assert (p ≠ c) as Hpc by congruence.
    rewrite Hrest, Hp by done. case_decide; simpl; [|by eauto].
    eexists. split; [done|].
    destruct (announced w e roomID); simpl; [apply deliver_room|done]. }
  eapply (registry_inv_Add _ _ c) in Hnew;
    [exact Hnew | by apply (registry_inv_heap _ (heap w))].
Qed.

Section Reachable.
Variable jwt_ParseWithClaims : string → string → option (auth.Claims * bool).
Variable uuid_Parse : string → option uuid.

Lemma registry_inv_roomWebSocket (JWTSecret : string) (w : World)
    (r : Request) (e : WSEnv) :
  registry_inv (hub w) (heap w) →
  registry_inv
    (hub (roomWebSocket jwt_ParseWithClaims uuid_Parse JWTSecret w r e).1)
    (heap (roomWebSocket jwt_ParseWithClaims uuid_Parse JWTSecret w r e).1).
Proof.
  intros Hinv.
  destruct (roomWebSocket_cases jwt_ParseWithClaims uuid_Parse JWTSecret w r e)
    as [(st & msg & Hr)|[Hr|(roomID & userID & name & _ & _ & Hr)]];
    rewrite Hr; [done..|].
  by apply registry_inv_upgraded.
Qed.

Lemma uploadRoomImage_world (w : World) (r : UploadRequest) (e : UploadEnv) :
  ∃ s', (uploadRoomImage uuid_Parse w r e).1
        = {| hub := hub w; heap := heap w; store := s' |}
        ∨ ∃ roomID m,
            (uploadRoomImage uuid_Parse w r e).1
            = {| hub := hub w; heap := Broadcast (hub w) (heap w) roomID m;
                 store := s' |}.
Proof.
  assert (Hsame : ∀ x : UploadResponse,
            ∃ s', (w, x).1 = {| hub := hub w; heap := heap w; store := s' |}
                  ∨ ∃ roomID m,
                      (w, x).1
                      = {| hub := hub w;
                           heap := Broadcast (hub w) (heap w) roomID m;
                           store := s' |}).
  { intros x. exists (store w). left. by destruct w. }
  unfold uploadRoomImage.
  destruct (upload_user r) as [userID|]; [|apply Hsame].
  destruct (uuid_Parse (upload_roomID_param r)) as [roomID|]; [|apply Hsame].
  destruct (db.GetRoomByID _ _ _); [|apply Hsame].
  destruct (db.IsRoomMember _ _ _ _) as [[|]|]; [|apply Hsame..].
  destruct (parse_form_fails e); [apply Hsame|].
  destruct (form_file e) as [name|]; [|apply Hsame].
  destruct (read_fails e); [apply Hsame|].
  destruct (imageExt (contentType e)) as [ext|]; [|apply Hsame].
  destruct (mkdir_fails e); [apply Hsame|].
  destruct (create_fails e); [apply Hsame|].
  destruct (copy_fails e); [apply Hsame|].
  destruct (db.SaveMessageWithType _ _ _ _ _ _ _) as [s' [msg|err]];
    exists s'; [right; by eexists _, _ | by left].
Qed.

Lemma registry_inv_uploadRoomImage (w : World) (r : UploadRequest)
    (e : UploadEnv) :
  registry_inv (hub w) (heap w) →
  registry_inv (hub (uploadRoomImage uuid_Parse w r e).1)
               (heap (uploadRoomImage uuid_Parse w r e).1).
Proof.
  intros Hinv.
  destruct (uploadRoomImage_world w r e) as (s' & [->|(roomID & m & ->)]);
    [done|]. cbn [hub heap].
  apply (registry_inv_heap _ (heap w)); [done|]. apply same_rooms_Broadcast.
Qed.

Lemma registry_inv_step (JWTSecret : string) (w w' : World) :
  step jwt_ParseWithClaims uuid_Parse JWTSecret w w' →
  registry_inv (hub w) (heap w) → registry_inv (hub w') (heap w').
Proof.
  destruct 1; intros Hinv.
  - by apply registry_inv_roomWebSocket.
  - by apply registry_inv_ReadPump_body.
  - by apply registry_inv_ReadPump_cleanup.
  - by apply registry_inv_WritePump_body.
  - by apply registry_inv_WritePump_exit.
  - done.
  - by apply registry_inv_uploadRoomImage.
Qed.

Lemma registry_inv_reachable (JWTSecret : string) (w : World) :
  reachable jwt_ParseWithClaims uuid_Parse JWTSecret w →
  registry_inv (hub w) (heap w).
Proof.
  induction 1 as [s|w w' _ IH Hstep].
  - intros r clients. simpl. by rewrite lookup_empty.
  - by eapply registry_inv_step.
Qed.

(** C7 ([Hub.Add], [Hub.Remove]): in every state the server can
    reach, each room of the registry map has a non-empty set of
    connections without repeated identities, all of them connections
    of that room, so that a connection is in the set of at most one
    room; attach and detach keep this. *)
Theorem registry_rooms_nonempty_and_consistent :
  (∀ JWTSecret w,
     reachable jwt_ParseWithClaims uuid_Parse JWTSecret w →
     registry_inv (hub w) (heap w)
     ∧ ∀ c r1 r2, c ∈ room_clients (hub w) r1 →
                  c ∈ room_clients (hub w) r2 → r1 = r2)
  ∧ (∀ h σ c cl, registry_inv h σ → σ !! c = Some cl →
                 registry_inv (Add h c cl) σ)
  ∧ (∀ h σ c cl, registry_inv h σ → registry_inv (Remove h c cl) σ).
Proof.
  split; [|split].
  - intros JWTSecret w Hreach.
    pose proof (registry_inv_reachable _ _ Hreach) as Hinv.
    split; [done|].
    intros c r1 r2. unfold room_clients.
    destruct (rooms (hub w) !! r1) as [s1|] eqn:E1; simpl; [|set_solver].
    destruct (rooms (hub w) !! r2) as [s2|] eqn:E2; simpl; [|set_solver].
    intros H1 H2.
    destruct (Hinv r1 s1 E1) as (_ & _ & Hall1).
    destruct (Hinv r2 s2 E2) as (_ & _ & Hall2).
    destruct (Hall1 c H1) as (cl1 & Hc1 & <-).
    destruct (Hall2 c H2) as (cl2 & Hc2 & <-).
    congruence.
  - intros. by apply registry_inv_Add.
  - intros. by apply registry_inv_Remove.
Qed.

End Reachable.

(** The hub of the running server only ever changes by [Add], [Remove]
    and [SetInCall]: its reachable states are among those that
    [run_ops] builds from the new hub. *)
Lemma run_ops_snoc (ops : list HubOp) (op : HubOp) (h : Hub) :
  run_ops (ops ++ [op]) h = apply_op (run_ops ops h) op.
Proof. unfold run_ops. by rewrite foldl_app. Qed.

Lemma hub_ReadPump_body (w : World) (c : ptr) (rd : option IncomingMessage)
    (e : db.SaveEnv) :
  hub (ReadPump_body w c rd e).1 = hub w
  ∨ ∃ op, hub (ReadPump_body w c rd e).1 = apply_op (hub w) op.
Proof.
  unfold ReadPump_body.
  destruct (heap w !! c) as [cl|]; [|by left].
  destruct (Conn cl); [|by left]. destruct rd as [incoming|]; [|by left].
  repeat case_decide; try (by left).
  - destruct (InCall cl); [by left|].
    right. by exists (OpSetInCall (set_InCall cl true) true).
  - destruct (InCall cl); [|by left].
    right. by exists (OpSetInCall (set_InCall cl false) false).
  - destruct (db.SaveMessage _ _ _ _ _) as [s' [msg|err]]; by left.
Qed.

Lemma hub_ReadPump_cleanup (w : World) (c : ptr) (fail_members : bool) :
  hub (ReadPump_cleanup w c fail_members) = hub w
  ∨ ∃ op, hub (ReadPump_cleanup w c fail_members) = apply_op (hub w) op.
Proof.
  unfold ReadPump_cleanup.
  destruct (heap w !! c) as [cl|]; [|by left].
  right. by exists (OpRemove c cl).
Qed.

Lemma hub_WritePump_body (w : World) (c : ptr) (ev : WriteEvent) :
  hub (WritePump_body w c ev).1 = hub w.
Proof.
  unfold WritePump_body.
  destruct (heap w !! c) as [cl|]; [|done].
  destruct ev; [|done]. by destruct (buf (Send cl)).
Qed.

Lemma hub_roomWebSocket jwt_ParseWithClaims uuid_Parse (JWTSecret : string)
    (w : World) (r : Request) (e : WSEnv) :
  hub (roomWebSocket jwt_ParseWithClaims uuid_Parse JWTSecret w r e).1 = hub w
  ∨ ∃ op, hub (roomWebSocket jwt_ParseWithClaims uuid_Parse JWTSecret w r e).1
          = apply_op (hub w) op.
Proof.
  destruct (roomWebSocket_cases jwt_ParseWithClaims uuid_Parse JWTSecret w r e)
    as [(st & msg & Hr)|[Hr|(roomID & userID & name & _ & _ & Hr)]];
    rewrite Hr; [by left..|].
  destruct (roomWebSocket_upgraded_spec w e roomID userID name)
    as (σ' & Hspec & _).
  rewrite Hspec. right.
  by exists (OpAdd (fresh (dom (heap w))) (new_client roomID userID name)).
Qed.

Lemma reachable_hub_ops jwt_ParseWithClaims uuid_Parse (JWTSecret : string)
    (w : World) :
  reachable jwt_ParseWithClaims uuid_Parse JWTSecret w →
  ∃ ops, hub w = run_ops ops NewHub.
Proof.
  induction 1 as [s|w w' _ [ops IH] Hstep].
  - by exists [].
  - assert (hub w' = hub w ∨ ∃ op, hub w' = apply_op (hub w) op) as [Hh|[op Hh]].
    { destruct Hstep.
      - apply hub_roomWebSocket.
      - apply hub_ReadPump_body.
      - apply hub_ReadPump_cleanup.
      - left. apply hub_WritePump_body.
      - by left.
      - by left.
      - left.
        by destruct (uploadRoomImage_world uuid_Parse w r e)
          as (s' & [->|(roomID & m & ->)]). }
    + exists ops. congruence.
    + exists (ops ++ [op]). rewrite run_ops_snoc. congruence.
Qed.

Lemma reachable_world_other_lost :
  reachable ex.jwt ex.parse "secret" ex.world_other_lost.
Proof.
  change ex.world_other_lost
    with (ReadPump_cleanup ex.world_one_joined 2%positive false).
  apply reachable_step with ex.world_one_joined; [|apply step_read_exit].
  apply reachable_step with ex.world_alice2; [|apply step_read].
  eapply reachable_step; [|apply step_connect].
  eapply reachable_step; [|apply step_connect].
  apply reachable_init.
Defined.

Lemma registry_rooms_nonempty_and_consistent_witness :
  registry_inv (hub ex.world_other_lost) (heap ex.world_other_lost)
  ∧ registry_inv (Add NewHub 1%positive ex.bob1) {[ 1%positive := ex.bob1 ]}
  ∧ registry_inv (Remove (Add NewHub 1%positive ex.bob1) 1%positive ex.bob1)
                 {[ 1%positive := ex.bob1 ]}.
Proof.
  destruct (registry_rooms_nonempty_and_consistent ex.jwt ex.parse)
    as (Hreach & Hadd & Hrem).
  assert (registry_inv NewHub {[ 1%positive := ex.bob1 ]}) as H0.
  { intros r clients. simpl. by rewrite lookup_empty. }
  assert (registry_inv (Add NewHub 1%positive ex.bob1) {[ 1%positive := ex.bob1 ]})
    as H1 by (apply Hadd; [exact H0 | reflexivity]).
  split; [|split].
  - apply (Hreach "secret"%string). exact reachable_world_other_lost.
  - exact H1.
  - apply Hrem. exact H1.
Defined.

End RegistryInvariant.

(* ================================================================== *)
(** * More about the registry: attach and detach *)
(* ================================================================== *)

Section AttachDetach.
Import ws obs.

Lemma hub_eq (h1 h2 : Hub) :
  rooms h1 = rooms h2 → callCounts h1 = callCounts h2 →
  callUsers h1 = callUsers h2 → h1 = h2.
Proof. destruct h1, h2; simpl; by intros -> -> ->. Qed.

(** [Hub.Add]: adding a connection that is already in the set of its
    room changes nothing; in particular adding twice is adding once. *)
Theorem Add_idempotent (h : Hub) (c : ptr) (cl : Client) :
  Add (Add h c cl) c cl = Add h c cl
  ∧ (c ∈ room_clients h (RoomID cl) → Add h c cl = h).
Proof.
  assert (Hin : ∀ h', c ∈ room_clients h' (RoomID cl) → Add h' c cl = h').
  { intros h' Hc. apply hub_eq; [|done..].
    apply map_eq. intros r. rewrite rooms_Add.
    case_decide as Hr; [|done]. subst r.
    unfold room_clients in *.
    destruct (rooms h' !! RoomID cl) as [S|] eqn:E; simpl in *.
    - f_equal. set_solver.
    - by apply not_elem_of_empty in Hc. }
  split; [|apply Hin].
  apply Hin. rewrite room_clients_Add, decide_True by done.
  apply elem_of_union. left. by apply elem_of_singleton.
Qed.

Lemma Add_idempotent_witness :
  Add ex.hub_fs 1%positive ex.fast = ex.hub_fs.
Proof.
  apply (Add_idempotent ex.hub_fs 1%positive ex.fast).
  apply (bool_decide_unpack _). vm_compute. exact I.
Defined.

(** [Hub.Add] then [Hub.Remove]: detaching a connection right after
    attaching it gives back the registry map, provided the connection
    was not attached before; the whole hub is given back when the room
    has no call presence. *)
Theorem Remove_Add (h : Hub) (c : ptr) (cl : Client) :
  c ∉ room_clients h (RoomID cl) →
  rooms h !! RoomID cl ≠ Some ∅ →
  rooms (Remove (Add h c cl) c cl) = rooms h
  ∧ (callCounts h !! RoomID cl = None → Remove (Add h c cl) c cl = h).
Proof.
  intros Hc Hne.
  assert (Hrooms : rooms (Remove (Add h c cl) c cl) = rooms h).
  { apply map_eq. intros r. rewrite rooms_Remove.
    case_decide as Hr; [|by rewrite rooms_Add, decide_False]. subst r.
    rewrite rooms_Add, decide_True by done.
    assert (({[c]} ∪ room_clients h (RoomID cl)) ∖ {[c]}
            = room_clients h (RoomID cl)) as -> by set_solver.
    destruct (rooms h !! RoomID cl) as [S|] eqn:E.
    - assert (room_clients h (RoomID cl) = S) as ->
        by (unfold room_clients; by rewrite E).
      rewrite decide_False; [done|].
      intros Hz. apply size_empty_inv in Hz. apply Hne. f_equal.
      by apply leibniz_equiv.
    - assert (room_clients h (RoomID cl) = ∅) as ->
        by (unfold room_clients; by rewrite E).
      by rewrite size_empty, decide_True. }
  split; [done|]. intros Hcc.
  destruct (Remove_call_maps (Add h c cl) c cl) as [H1 H2].
  apply hub_eq; [done|rewrite H1|rewrite H2];
    destruct (rooms (Add h c cl) !! RoomID cl); try done;
    unfold removeCallLocked; simpl; by rewrite Hcc.
Qed.

Lemma Remove_Add_witness :
  rooms (Remove (Add ex.hub_fs 4%positive ex.fast) 4%positive ex.fast)
  = rooms ex.hub_fs
  ∧ Remove (Add ex.hub_fs 4%positive ex.fast) 4%positive ex.fast = ex.hub_fs.
Proof.
  destruct (Remove_Add ex.hub_fs 4%positive ex.fast) as [H1 H2].
  - apply (bool_decide_unpack _). vm_compute. exact I.
  - apply (bool_decide_unpack _). vm_compute. exact I.
  - split; [exact H1|]. apply H2. reflexivity.
Defined.

(** [Hub.Remove]: a second [Remove] of the same connection is a no-op
    when the first one left the room unregistered (the connection was the
    last one of its room) or left the room without call presence. *)
Theorem Remove_twice_when_settled (h : Hub) (c : ptr) (cl : Client) :
  rooms (Remove h c cl) !! RoomID cl = None
  ∨ callCounts (Remove h c cl) !! RoomID cl = None →
  Remove (Remove h c cl) c cl = Remove h c cl.
Proof.
  intros Hsettled.
  assert (Hset : ∀ S, rooms (Remove h c cl) !! RoomID cl = Some S →
                      S ∖ {[c]} = S ∧ size S ≠ 0%nat).
  { intros S. rewrite rooms_Remove, decide_True by done.
    destruct (rooms h !! RoomID cl) as [S0|]; [|done].
    case_decide as Hz; [done|]. intros [= <-].
    split; [apply difference_twice_L | done]. }
  revert Hsettled Hset. generalize (Remove h c cl). intros h1 Hsettled Hset.
  unfold Remove at 1.
  destruct (rooms h1 !! RoomID cl) as [S|] eqn:E; [|done].
  destruct Hsettled as [?|Hcc]; [done|].
  destruct (Hset S eq_refl) as [-> Hz].
  rewrite decide_False by done.
  unfold removeCallLocked. simpl. rewrite Hcc.
  apply hub_eq; simpl; [by apply insert_id|done..].
Qed.

Lemma Remove_twice_when_settled_witness :
  Remove (Remove ex.hub_fs 3%positive ex.bystander) 3%positive ex.bystander
  = Remove ex.hub_fs 3%positive ex.bystander.
Proof.
  apply Remove_twice_when_settled. left. reflexivity.
Defined.

End AttachDetach.

(* ================================================================== *)
(** * More about call presence *)
(* ================================================================== *)

Section JoinLeave.
Import ws obs view.

Lemma callCounts_addCallLocked_Some (h : Hub) (roomID userID : uuid)
    (name : string) :
  callCounts (addCallLocked h roomID userID name) !! roomID ≠ None.
Proof.
  unfold addCallLocked; simpl.
  destruct (callCounts h !! roomID) eqn:E.
  - by rewrite lookup_alter_eq, E.
  - by rewrite lookup_alter_eq, lookup_insert_eq.
Qed.

(** [Hub.SetInCall] with [true] and then with [false] for the same
    user and room: every reference count is what it was; the records of
    all other users are what they were; the record of the user is gone
    if no other connection of the user was in the call, and is the one
    just written otherwise. *)
Theorem leave_after_join (b : Z) (h : Hub) (roomID userID : uuid)
    (name : string) :
  hub_ok b h → b < int_max →
  let h' := removeCallLocked (addCallLocked h roomID userID name) roomID userID in
  (∀ r u, count h' r u = count h r u)
  ∧ (∀ r u, ¬ (r = roomID ∧ u = userID) → record h' r u = record h r u)
  ∧ record h' roomID userID
    = if decide (count h roomID userID = 0) then None
      else Some {| Participant_ID := uuid_String userID;
                   Participant_Username := name |}.
Proof.
  intros Hok Hb h'. unfold h'.
  pose proof (hub_ok_addCallLocked b h roomID userID name Hok Hb) as [Hinv' _].
  destruct Hok as [Hinv Hw].
  pose proof (Hw roomID userID) as Hc.
  assert (Hwrap : wrap_int (count h roomID userID + 1) = count h roomID userID + 1)
    by (apply wrap_int_id; unfold int_min, int_max in *; lia).
  split; [|split].
  - intros r u. rewrite count_removeCallLocked, !count_addCallLocked.
    rewrite (decide_True (P := roomID = roomID ∧ userID = userID)) by done.
    case_decide as Hd; [|done]. destruct Hd as [-> ->].
    rewrite Hwrap, (decremented_spec (b + 1)) by lia. lia.
  - intros r u Hne.
    rewrite record_removeCallLocked_other by done.
    by rewrite record_addCallLocked, decide_False.
  - rewrite record_removeCallLocked_same.
    rewrite count_addCallLocked, (decide_True (P := _ ∧ _)) by done.
    rewrite Hwrap.
    replace (count h roomID userID + 1 - 1) with (count h roomID userID) by lia.
    rewrite wrap_int_id by (unfold int_min, int_max in *; lia).
    rewrite record_addCallLocked, (decide_True (P := _ ∧ _)) by done.
    pose proof (callCounts_addCallLocked_Some h roomID userID name) as Hsome.
    repeat case_decide; try done; try lia.
    match goal with H : _ ∨ _ |- _ => destruct H as [?|?]; [done|lia] end.
Qed.

Lemma leave_after_join_witness :
  let h' := removeCallLocked (addCallLocked ex.hub_one ex.lobby ex.alice "al")
                             ex.lobby ex.alice in
  (∀ r u, count h' r u = count ex.hub_one r u)
  ∧ (∀ r u, ¬ (r = ex.lobby ∧ u = ex.alice) →
            record h' r u = record ex.hub_one r u)
  ∧ record h' ex.lobby ex.alice
    = if decide (count ex.hub_one ex.lobby ex.alice = 0) then None
      else Some {| Participant_ID := uuid_String ex.alice;
                   Participant_Username := "al" |}.
Proof.
  apply (leave_after_join 1 ex.hub_one ex.lobby ex.alice "al").
  - apply (hub_ok_addCallLocked 0 NewHub); [apply hub_ok_NewHub | by vm_compute].
  - by vm_compute.
Defined.

End JoinLeave.

Section Snapshots.
Import ws obs view.

Lemma elem_of_CallParticipants (h : Hub) (roomID : uuid) (p : Participant) :
  p ∈ CallParticipants h roomID ↔ ∃ userID, record h roomID userID = Some p.
Proof.
  unfold CallParticipants, record.
  destruct (callUsers h !! roomID) as [users|]; simpl.
  - rewrite list_elem_of_fmap. split.
    + intros ([u q] & -> & Hin). exists u. by apply elem_of_map_to_list.
    + intros (u & Hu). exists (u, p). split; [done|].
      by apply elem_of_map_to_list.
  - split; [by intros ?%not_elem_of_nil | by intros [? ?]].
Qed.

Lemma length_CallParticipants (h : Hub) (roomID : uuid) :
  length (CallParticipants h roomID) = size (in_call_users h roomID).
Proof.
  unfold CallParticipants, in_call_users.
  destruct (callUsers h !! roomID) as [users|]; simpl.
  - by rewrite length_fmap, length_map_to_list, size_dom.
  - by rewrite dom_empty_L, size_empty.
Qed.

Lemma elem_of_in_call_users (h : Hub) (roomID userID : uuid) :
  userID ∈ in_call_users h roomID ↔ is_Some (record h roomID userID).
Proof.
  unfold in_call_users, record.
  destruct (callUsers h !! roomID) as [users|]; simpl.
  - apply elem_of_dom.
  - rewrite dom_empty_L. split; [by intros ?%not_elem_of_empty | by intros [? ?]].
Qed.

(** [removeCallLocked] writes no record: every record it leaves was
    there before. *)
Lemma record_removeCallLocked_sub (h : Hub) (roomID userID r u : uuid)
    (p : Participant) :
  call_inv h →
  record (removeCallLocked h roomID userID) r u = Some p →
  record h r u = Some p.
Proof.
  intros Hinv.
  destruct (decide (r = roomID ∧ u = userID)) as [[-> ->]|Hne].
  - rewrite record_removeCallLocked_same. by case_decide.
  - by rewrite record_removeCallLocked_other.
Qed.

Lemma records_named_apply_op (b : Z) (h : Hub) (op : HubOp) :
  hub_ok b h → records_named h → records_named (apply_op h op).
Proof.
  intros [Hinv _] Hnamed. destruct op as [c cl|c cl|cl [|]]; simpl.
  - done.
  - intros r u p. unfold record.
    destruct (Remove_call_maps h c cl) as [_ ->].
    destruct (rooms h !! RoomID cl); [|apply Hnamed].
    intros Hp. eapply Hnamed, record_removeCallLocked_sub; done.
  - intros r u p. rewrite record_addCallLocked.
    case_decide as Hd; [|apply Hnamed].
    destruct Hd as [-> ->]. by intros [= <-].
  - intros r u p Hp. eapply Hnamed, record_removeCallLocked_sub; done.
Qed.

Lemma records_named_run_ops (ops : list HubOp) :
  ∀ (b : Z) (h : Hub),
    hub_ok b h → records_named h → b + Z.of_nat (length ops) ≤ int_max →
    records_named (run_ops ops h).
Proof.
  unfold run_ops.
  induction ops as [|op ops IH]; intros b h Hok Hn Hb; cbn [foldl length] in *.
  - done.
  - apply (IH (b + 1)); [apply hub_ok_apply_op; [done|lia] | | lia].
    by eapply records_named_apply_op.
Qed.

(** [Hub.CallParticipants]: in a hub reached from the new hub, the
    snapshot of a room lists exactly the records of the users whose
    reference count in the room is positive, each filed under the
    printed identifier of its user, one entry per user however many
    connections the user has in the call. *)
Theorem CallParticipants_snapshot (ops : list HubOp) (roomID : uuid) :
  Z.of_nat (length ops) ≤ int_max →
  let h := run_ops ops NewHub in
  (∀ p, p ∈ CallParticipants h roomID
        ↔ ∃ userID, 0 < count h roomID userID
                    ∧ record h roomID userID = Some p
                    ∧ Participant_ID p = uuid_String userID)
  ∧ length (CallParticipants h roomID) = size (in_call_users h roomID)
  ∧ (∀ userID, userID ∈ in_call_users h roomID ↔ 0 < count h roomID userID).
Proof.
  intros Hlen h.
  destruct (hub_ok_run_ops ops 0 NewHub hub_ok_NewHub) as [Hinv _]; [lia|].
  assert (Hnamed : records_named h).
  { apply (records_named_run_ops ops 0); [apply hub_ok_NewHub | | lia].
    intros r u p. unfold record. simpl. by rewrite lookup_empty. }
  fold h in Hinv.
  split; [|split].
  - intros p. rewrite elem_of_CallParticipants. split.
    + intros (u & Hu). exists u. split; [|split; [done|by eapply Hnamed]].
      apply Hinv. by rewrite Hu.
    + intros (u & _ & Hu & _). by exists u.
  - apply length_CallParticipants.
  - intros u. rewrite elem_of_in_call_users. apply Hinv.
Qed.

Lemma CallParticipants_snapshot_witness :
  let h := run_ops ex.two_conn_ops NewHub in
  (∀ p, p ∈ CallParticipants h ex.lobby
        ↔ ∃ userID, 0 < count h ex.lobby userID
                    ∧ record h ex.lobby userID = Some p
                    ∧ Participant_ID p = uuid_String userID)
  ∧ length (CallParticipants h ex.lobby) = size (in_call_users h ex.lobby)
  ∧ (∀ userID, userID ∈ in_call_users h ex.lobby ↔ 0 < count h ex.lobby userID).
Proof.
  apply (CallParticipants_snapshot ex.two_conn_ops ex.lobby). by vm_compute.
Defined.

Lemma length_omap_all {A B} (f : A → option B) (l : list A) :
  (∀ x, x ∈ l → is_Some (f x)) → length (omap f l) = length l.
Proof.
  induction l as [|x l IH]; intros Hall; simpl; [done|].
  destruct (Hall x) as [y Hy]; [apply elem_of_cons; by left|].
  rewrite Hy. simpl. f_equal. apply IH.
  intros z Hz. apply Hall. apply elem_of_cons. by right.
Qed.

(** [Hub.Participants]: when the registry is consistent with the
    client structs, the snapshot of a room has one entry per attached
    connection (a user with two connections is listed twice), made of the
    printed user identifier and the name of that connection; a room that
    is not registered has the empty snapshot. *)
Theorem Participants_snapshot (h : Hub) (σ : gmap ptr Client) (roomID : uuid) :
  registry_inv h σ →
  length (Participants h σ roomID) = size (room_clients h roomID)
  ∧ (∀ p, p ∈ Participants h σ roomID
          ↔ ∃ c cl, c ∈ room_clients h roomID ∧ σ !! c = Some cl
                    ∧ p = {| Participant_ID := uuid_String (UserID cl);
                             Participant_Username := Username cl |})
  ∧ (rooms h !! roomID = None → Participants h σ roomID = []).
Proof.
  intros Hinv. unfold Participants. split; [|split].
  - rewrite length_omap_all; [done|].
    intros c Hc%elem_of_elements. unfold room_clients in Hc.
    destruct (rooms h !! roomID) as [S|] eqn:E; simpl in Hc;
      [|by apply not_elem_of_empty in Hc].
    destruct (Hinv roomID S E) as (_ & _ & Hall).
    destruct (Hall c Hc) as (cl & -> & _). by eexists.
  - intros p. rewrite list_elem_of_omap. split.
    + intros (c & Hc%elem_of_elements & Hp).
      destruct (σ !! c) as [cl|] eqn:E; [|done].
      simpl in Hp. injection Hp as <-. by exists c, cl.
    + intros (c & cl & Hc & Hcl & ->). exists c.
      split; [by apply elem_of_elements|]. by rewrite Hcl.
  - intros Hnone. unfold room_clients. rewrite Hnone. simpl.
    by rewrite elements_empty.
Qed.

Lemma Participants_snapshot_witness :
  length (Participants (hub ex.world_alice2) (heap ex.world_alice2) ex.lobby) = 2%nat.
Proof.
  destruct (Participants_snapshot (hub ex.world_alice2) (heap ex.world_alice2)
              ex.lobby) as [Hlen _].
  - apply (registry_inv_reachable ex.jwt ex.parse "secret").
    eapply httpapi.reachable_step; [|apply httpapi.step_connect].
    eapply httpapi.reachable_step; [|apply httpapi.step_connect].
    apply httpapi.reachable_init.
  - rewrite Hlen. by vm_compute.
Defined.

End Snapshots.

(* ================================================================== *)
(** * More about broadcast and the queues *)
(* ================================================================== *)

Section Queues.
Import ws httpapi obs view.

Lemma deliver_frame (m : OutgoingMessage) (cl : Client) :
  cap (Send (deliver m cl)) = cap (Send cl)
  ∧ buf (Send cl) `prefix_of` buf (Send (deliver m cl))
  ∧ (length (buf (Send (deliver m cl))) ≤ S (length (buf (Send cl))))%nat
  ∧ (Conn cl = ConnClosed → Conn (deliver m cl) = ConnClosed)
  ∧ ((length (buf (Send cl)) ≤ cap (Send cl))%nat →
     (length (buf (Send (deliver m cl))) ≤ cap (Send cl))%nat).
Proof.
  unfold deliver, try_send. case_decide; simpl.
  - split_and!; [done | by apply prefix_app_r | rewrite length_app; simpl; lia
                 | done | rewrite length_app; simpl; lia].
  - split_and!; [done | done | lia | done | done].
Qed.

Lemma deliver_queues (m : OutgoingMessage) (cl : Client) :
  (length (buf (Send cl)) < cap (Send cl))%nat →
  deliver m cl = set_Send cl {| buf := buf (Send cl) ++ [m];
                                cap := cap (Send cl) |}.
Proof. intros H. unfold deliver, try_send. by rewrite decide_True. Qed.

Lemma deliver_closes (m : OutgoingMessage) (cl : Client) :
  (cap (Send cl) ≤ length (buf (Send cl)))%nat → deliver m cl = Close cl.
Proof. intros H. unfold deliver, try_send. by rewrite decide_False by lia. Qed.

(** [Hub.Broadcast] never creates or drops a client struct, never
    changes the room, user, name or call flag of a client, never takes a
    message out of a queue nor reorders one, adds at most the payload,
    never reopens a closed socket and never fills a queue beyond its
    capacity. *)
Theorem Broadcast_frame (h : Hub) (σ : gmap ptr Client) (roomID : uuid)
    (m : OutgoingMessage) :
  dom (Broadcast h σ roomID m) = dom σ
  ∧ ∀ c cl, σ !! c = Some cl →
      ∃ cl', Broadcast h σ roomID m !! c = Some cl'
             ∧ RoomID cl' = RoomID cl ∧ UserID cl' = UserID cl
             ∧ Username cl' = Username cl ∧ InCall cl' = InCall cl
             ∧ cap (Send cl') = cap (Send cl)
             ∧ buf (Send cl) `prefix_of` buf (Send cl')
             ∧ (length (buf (Send cl')) ≤ S (length (buf (Send cl))))%nat
             ∧ (Conn cl = ConnClosed → Conn cl' = ConnClosed)
             ∧ ((length (buf (Send cl)) ≤ cap (Send cl))%nat →
                (length (buf (Send cl')) ≤ cap (Send cl'))%nat).
Proof.
  split.
  - apply set_eq. intros c. rewrite !elem_of_dom, Broadcast_lookup.
    case_decide; [|done]. by rewrite fmap_is_Some.
  - intros c cl Hc. rewrite Broadcast_lookup, Hc.
    case_decide; simpl.
    + eexists. split; [done|].
      destruct (deliver_room m cl) as (-> & -> & -> & ->).
      destruct (deliver_frame m cl) as (Hcap & ? & ? & ? & ?).
      rewrite Hcap. by split_and!.
    + exists cl. split_and!; try done. lia.
Qed.

Lemma Broadcast_frame_witness :
  ∃ cl', Broadcast ex.hub_fs ex.heap_fs ex.lobby ex.ping !! 2%positive = Some cl'
         ∧ RoomID cl' = RoomID ex.slow ∧ UserID cl' = UserID ex.slow
         ∧ Username cl' = Username ex.slow ∧ InCall cl' = InCall ex.slow
         ∧ cap (Send cl') = cap (Send ex.slow)
         ∧ buf (Send ex.slow) `prefix_of` buf (Send cl')
         ∧ (length (buf (Send cl')) ≤ S (length (buf (Send ex.slow))))%nat
         ∧ (Conn ex.slow = ConnClosed → Conn cl' = ConnClosed)
         ∧ ((length (buf (Send ex.slow)) ≤ cap (Send ex.slow))%nat →
            (length (buf (Send cl')) ≤ cap (Send cl'))%nat).
Proof.
  apply (Broadcast_frame ex.hub_fs ex.heap_fs ex.lobby ex.ping).
  reflexivity.
Defined.

(** Two broadcasts to a room, first [a] then [b]: a client of the room
    with room for both has them queued behind what was pending, [a]
    before [b]; a client with room for one has [a] queued and is closed;
    a client with a full queue is closed with its queue as it was. *)
Theorem Broadcast_twice (h : Hub) (σ : gmap ptr Client) (roomID : uuid)
    (a b : OutgoingMessage) (c : ptr) (cl : Client) :
  σ !! c = Some cl → c ∈ room_clients h roomID →
  let σ2 := Broadcast h (Broadcast h σ roomID a) roomID b in
  ((length (buf (Send cl)) + 2 ≤ cap (Send cl))%nat →
     σ2 !! c = Some (set_Send cl {| buf := buf (Send cl) ++ [a; b];
                                    cap := cap (Send cl) |}))
  ∧ ((length (buf (Send cl)) + 1 = cap (Send cl))%nat →
     σ2 !! c = Some (Close (set_Send cl {| buf := buf (Send cl) ++ [a];
                                           cap := cap (Send cl) |})))
  ∧ ((cap (Send cl) ≤ length (buf (Send cl)))%nat →
     σ2 !! c = Some (Close cl)).
Proof.
  intros Hc Hin σ2. unfold σ2.
  rewrite !Broadcast_lookup, !decide_True, Hc by done. simpl.
  split; [|split]; intros Hlen.
  - rewrite (deliver_queues a) by lia.
    rewrite (deliver_queues b) by (simpl; rewrite length_app; simpl; lia).
    unfold set_Send. simpl. by rewrite <- app_assoc.
  - rewrite (deliver_queues a) by lia.
    rewrite (deliver_closes b) by (simpl; rewrite length_app; simpl; lia).
    done.
  - rewrite (deliver_closes a) by lia.
    rewrite (deliver_closes b) by (simpl; lia). done.
Qed.

Lemma Broadcast_twice_witness :
  let σ2 := Broadcast ex.hub_fs (Broadcast ex.hub_fs ex.heap_fs ex.lobby ex.ping)
                      ex.lobby (chat_msg (PayloadFromMessage
                                            {| db.ID := 1; db.RoomID := ex.lobby;
                                               db.UserID := ex.bob;
                                               db.Username := "bob";
                                               db.Content := "hi";
                                               db.MessageType := "text";
                                               db.MediaURL := "";
                                               db.CreatedAt := 5 |})) in
  (length <$> (buf <$> (Send <$> σ2 !! 1%positive))) = Some 2%nat
  ∧ σ2 !! 2%positive = Some (Close ex.slow).
Proof.
  set (b := chat_msg _).
  destruct (Broadcast_twice ex.hub_fs ex.heap_fs ex.lobby ex.ping b
              1%positive ex.fast) as (H1 & _ & _);
    [reflexivity | apply (bool_decide_unpack _); vm_compute; exact I |].
  destruct (Broadcast_twice ex.hub_fs ex.heap_fs ex.lobby ex.ping b
              2%positive ex.slow) as (_ & _ & H3);
    [reflexivity | apply (bool_decide_unpack _); vm_compute; exact I |].
  split.
  - cbv zeta. rewrite H1 by (simpl; lia). reflexivity.
  - apply H3. simpl. lia.
Defined.

Lemma heap_all_Broadcast (P : Client → Prop) (h : Hub) (σ : gmap ptr Client)
    (roomID : uuid) (m : OutgoingMessage) :
  (∀ cl, P cl → P (deliver m cl)) →
  heap_all P σ → heap_all P (Broadcast h σ roomID m).
Proof.
  intros HP Hall c cl'. rewrite Broadcast_lookup.
  destruct (σ !! c) as [cl|] eqn:E; [|by case_decide].
  case_decide; simpl; intros [= <-]; [apply HP|]; by eapply Hall.
Qed.

Lemma heap_all_alter (P : Client → Prop) (f : Client → Client) (c : ptr)
    (σ : gmap ptr Client) :
  (∀ cl, P cl → P (f cl)) → heap_all P σ → heap_all P (alter f c σ).
Proof.
  intros HP Hall p cl'. destruct (decide (p = c)) as [->|Hp].
  - rewrite lookup_alter_eq. destruct (σ !! c) as [cl|] eqn:E; [|done].
    simpl. intros [= <-]. apply HP. by eapply Hall.
  - rewrite lookup_alter_ne by done. apply Hall.
Qed.

Lemma heap_all_insert (P : Client → Prop) (c : ptr) (cl : Client)
    (σ : gmap ptr Client) :
  P cl → heap_all P σ → heap_all P (<[c := cl]> σ).
Proof.
  intros HP Hall p cl'. destruct (decide (p = c)) as [->|Hp].
  - rewrite lookup_insert_eq. by intros [= <-].
  - rewrite lookup_insert_ne by done. apply Hall.
Qed.

Lemma bounded_deliver (m : OutgoingMessage) (cl : Client) :
  bounded cl → bounded (deliver m cl).
Proof.
  intros [Hcap Hlen].
  destruct (deliver_frame m cl) as (Hcap' & _ & _ & _ & Hle).
  split; [congruence|]. rewrite <- Hcap. apply Hle. lia.
Qed.

Lemma bounded_ReadPump_body (w : World) (c : ptr)
    (rd : option IncomingMessage) (e : db.SaveEnv) :
  heap_all bounded (heap w) → heap_all bounded (heap (ReadPump_body w c rd e).1).
Proof.
  intros Hall. unfold ReadPump_body.
  destruct (heap w !! c) as [cl|] eqn:Hc; [|done].
  destruct (Conn cl); [|done]. destruct rd as [incoming|]; [|done].
  assert (Hflag : ∀ b h m r,
            heap_all bounded
              (Broadcast h (<[c := set_InCall cl b]> (heap w)) r m)).
  { intros b h m r. apply heap_all_Broadcast; [apply bounded_deliver|].
    apply heap_all_insert; [|done]. apply (Hall c cl Hc). }
  repeat case_decide; try done.
  - destruct (InCall cl); [done|]. apply Hflag.
  - destruct (InCall cl); [|done]. apply Hflag.
  - destruct (db.SaveMessage _ _ _ _ _) as [s' [msg|err]]; simpl; [|done].
    by apply heap_all_Broadcast; [apply bounded_deliver|].
Qed.

Lemma bounded_ReadPump_cleanup (w : World) (c : ptr) (fail_members : bool) :
  heap_all bounded (heap w) →
  heap_all bounded (heap (ReadPump_cleanup w c fail_members)).
Proof.
  intros Hall. unfold ReadPump_cleanup.
  destruct (heap w !! c) as [cl|] eqn:Hc; [|done]. simpl.
  apply heap_all_alter; [done|].
  apply heap_all_Broadcast; [apply bounded_deliver|].
  destruct (db.ListRoomMembers _ _ _); [|done].
  by apply heap_all_Broadcast; [apply bounded_deliver|].
Qed.

Lemma bounded_WritePump_body (w : World) (c : ptr) (ev : WriteEvent) :
  heap_all bounded (heap w) → heap_all bounded (heap (WritePump_body w c ev).1).
Proof.
  intros Hall. unfold WritePump_body.
  destruct (heap w !! c) as [cl|] eqn:Hc; [|done].
  destruct ev as [wf|pf]; [|done].
  destruct (buf (Send cl)) as [|m rest] eqn:Hbuf; [done|]. simpl.
  apply heap_all_insert; [|done].
  destruct (Hall c cl Hc) as [Hcap Hlen]. rewrite Hbuf in Hlen. simpl in Hlen.
  split; simpl; [done|lia].
Qed.

Lemma bounded_upgraded (w : World) (e : WSEnv) (roomID userID : uuid)
    (username : string) :
  heap_all bounded (heap w) →
  heap_all bounded (heap (roomWebSocket_upgraded w e roomID userID username).1).
Proof.
  intros Hall.
  destruct (roomWebSocket_upgraded_spec w e roomID userID username)
    as (σ' & Hspec & Hnew & Hrest).
  rewrite Hspec. simpl. intros p cl' Hp.
  destruct (decide (p = fresh (dom (heap w)))) as [->|Hne].
  - rewrite Hnew in Hp. injection Hp as <-. split; [done|]. simpl.
    rewrite !length_app.
    destruct (announced w e roomID), (history_sent w e roomID); simpl; lia.
  - rewrite Hrest in Hp by done.
    destruct (heap w !! p) as [cl|] eqn:E; [|by case_decide].
    case_decide; simpl in Hp; injection Hp as <-; [|by eapply Hall].
    destruct (announced w e roomID); simpl; [apply bounded_deliver|];
      by eapply Hall.
Qed.

(** The outbound queues are bounded: in every state the server can
    reach (by the upgrade handler, the pumps, the image upload and
    changes of the database), every client's queue has capacity 64 and
    holds at most 64 messages. *)
Theorem queues_within_capacity jwt_ParseWithClaims uuid_Parse
    (JWTSecret : string) (w : World) :
  reachable jwt_ParseWithClaims uuid_Parse JWTSecret w →
  heap_all bounded (heap w).
Proof.
  induction 1 as [s|w w' _ IH Hstep].
  - intros c cl. simpl. by rewrite lookup_empty.
  - destruct Hstep.
    + destruct (roomWebSocket_cases jwt_ParseWithClaims uuid_Parse JWTSecret w r e)
        as [(st & msg & Hr)|[Hr|(roomID & userID & name & _ & _ & Hr)]];
        rewrite Hr; [done..|].
      by apply bounded_upgraded.
    + by apply bounded_ReadPump_body.
    + by apply bounded_ReadPump_cleanup.
    + by apply bounded_WritePump_body.
    + simpl. by apply heap_all_alter.
    + done.
    + destruct (uploadRoomImage_world uuid_Parse w r e)
        as (s' & [->|(roomID & m & ->)]); [done|]. cbn [heap].
      apply heap_all_Broadcast; [|done]. intros cl. apply bounded_deliver.
Qed.

End Queues.

Lemma queues_within_capacity_witness :
  view.heap_all view.bounded (ws.heap ex2.world_uploaded).
Proof.
  apply (queues_within_capacity ex.jwt ex.parse "secret").
  eapply httpapi.reachable_step; [|apply httpapi.step_upload].
  eapply httpapi.reachable_step; [|apply httpapi.step_connect].
  eapply httpapi.reachable_step; [|apply httpapi.step_connect].
  apply httpapi.reachable_init.
Defined.

(* ================================================================== *)
(** * More about the read pump *)
(* ================================================================== *)

Section ReadPumpMore.
Import ws obs view.

(** A frame that asks for the state the connection is already in. *)
Lemma ReadPump_body_settled (w : World) (c : ptr) (cl : Client)
    (m : IncomingMessage) (e : db.SaveEnv) :
  heap w !! c = Some cl →
  (In_Type m = "call_join"%string ∧ InCall cl = true)
  ∨ (In_Type m = "call_leave"%string ∧ InCall cl = false) →
  (ReadPump_body w c (Some m) e).1 = w.
Proof.
  intros Hc Hm. unfold ReadPump_body. rewrite Hc.
  destruct (Conn cl); [|done].
  destruct Hm as [[Ht Hf]|[Ht Hf]]; rewrite Ht, Hf;
    rewrite decide_True by (by left); by repeat case_decide.
Qed.

(** [Client.ReadPump], call frames: a second [call_join] (or a second
    [call_leave]) of a connection changes nothing, whatever happened to
    the connection's queue and socket in the broadcast of the first. *)
Theorem call_frame_twice (w : World) (c : ptr) (m : IncomingMessage)
    (e1 e2 : db.SaveEnv) :
  In_Type m = "call_join"%string ∨ In_Type m = "call_leave"%string →
  (ReadPump_body (ReadPump_body w c (Some m) e1).1 c (Some m) e2).1
  = (ReadPump_body w c (Some m) e1).1.
Proof.
  intros Hm.
  destruct (heap w !! c) as [cl|] eqn:Hc.
  2:{ unfold ReadPump_body. rewrite Hc. simpl. by rewrite Hc. }
  assert (Hflag : ∀ b h r msg,
            ∃ cl2, Broadcast h (<[c := set_InCall cl b]> (heap w)) r msg !! c
                   = Some cl2 ∧ InCall cl2 = b).
  { intros b h r msg. rewrite Broadcast_lookup, lookup_insert_eq.
    case_decide; simpl; eexists; (split; [done|]); [|done].
    by destruct (deliver_room msg (set_InCall cl b)) as (_ & _ & _ & ->). }
  destruct (Conn cl) eqn:Hconn.
  2:{ assert ((ReadPump_body w c (Some m) e1).1 = w) as ->
        by (unfold ReadPump_body; by rewrite Hc, Hconn).
      unfold ReadPump_body; by rewrite Hc, Hconn. }
  destruct Hm as [Ht|Ht].
  - destruct (InCall cl) eqn:Hin.
    + rewrite !(ReadPump_body_settled w c cl) by (done || by left). done.
    + set (cl1 := set_InCall cl true).
      set (h1 := SetInCall (hub w) cl1 true).
      set (msg := call_participants_msg (CallParticipants h1 (RoomID cl1))).
      assert ((ReadPump_body w c (Some m) e1).1
              = {| hub := h1;
                   heap := Broadcast h1 (<[c := cl1]> (heap w)) (RoomID cl1) msg;
                   store := store w |}) as ->.
      { unfold ReadPump_body. rewrite Hc, Hconn, Ht, Hin.
        rewrite decide_True by (by left). by rewrite decide_True. }
      destruct (Hflag true h1 (RoomID cl1) msg) as (cl2 & Hc2 & Hin2).
      eapply ReadPump_body_settled; [exact Hc2|by left].
  - destruct (InCall cl) eqn:Hin.
    + set (cl1 := set_InCall cl false).
      set (h1 := SetInCall (hub w) cl1 false).
      set (msg := call_participants_msg (CallParticipants h1 (RoomID cl1))).
      assert ((ReadPump_body w c (Some m) e1).1
              = {| hub := h1;
                   heap := Broadcast h1 (<[c := cl1]> (heap w)) (RoomID cl1) msg;
                   store := store w |}) as ->.
      { unfold ReadPump_body. rewrite Hc, Hconn, Ht, Hin.
        rewrite decide_True by (by left). rewrite decide_False by done.
        by rewrite decide_True. }
      destruct (Hflag false h1 (RoomID cl1) msg) as (cl2 & Hc2 & Hin2).
      eapply ReadPump_body_settled; [exact Hc2|by right].
    + rewrite !(ReadPump_body_settled w c cl) by (done || by right). done.
Qed.

Lemma call_frame_twice_witness :
  (ReadPump_body ex.world_one_joined 1%positive
                 (Some (ex.frame "call_join" "")) ex.no_fault).1
  = ex.world_one_joined.
Proof.
  apply (call_frame_twice ex.world_alice2 1%positive
           (ex.frame "call_join" "") ex.no_fault ex.no_fault).
  by left.
Defined.

(** [Client.ReadPump], chat frames: the hub is never changed; when the
    INSERT fails nothing changes at all; when it succeeds exactly one
    row is appended for the room and user of the connection, with the
    content of the frame; the message is then broadcast to the room of
    the connection if the author can be read back, and to nobody if that
    lookup fails (the row stays). *)
Theorem chat_frame (w : World) (c : ptr) (cl : Client) (m : IncomingMessage)
    (e : db.SaveEnv) :
  heap w !! c = Some cl → Conn cl = ConnOpen →
  In_Type m = "chat"%string → In_Content m ≠ EmptyString →
  let w' := (ReadPump_body w c (Some m) e).1 in
  hub w' = hub w
  ∧ (db.fail_insert e = true → w' = w)
  ∧ (db.fail_insert e = false →
     (∃ row, db.messages (store w') = db.messages (store w) ++ [row]
             ∧ db.row_room_id row = RoomID cl
             ∧ db.row_user_id row = UserID cl
             ∧ db.row_content row = In_Content m
             ∧ db.row_message_type row = "text"%string
             ∧ db.row_created_at row = db.now e)
     ∧ match db.FindUserByID (store w) (db.fail_find_user e) (UserID cl) with
       | Ok u =>
           ∃ payload,
             heap w' = Broadcast (hub w) (heap w) (RoomID cl) (chat_msg payload)
             ∧ MP_Content payload = In_Content m
             ∧ MP_RoomID payload = uuid_String (RoomID cl)
             ∧ MP_UserID payload = uuid_String (UserID cl)
             ∧ MP_Username payload = db.User_Username u
             ∧ MP_MessageType payload = "text"%string
             ∧ MP_CreatedAt payload = db.now e
       | Err _ => heap w' = heap w
       end).
Proof.
  intros Hc Hopen Ht Hcont w'. unfold w', ReadPump_body.
  rewrite Hc, Hopen, Ht.
  rewrite decide_False by (intros [?|?]; done).
  unfold db.SaveMessage, db.SaveMessageWithType.
  rewrite (decide_False (P := "text"%string = EmptyString)) by done.
  destruct (db.fail_insert e) eqn:Hfail; simpl.
  { split; [done|]. split; [by destruct w|done]. }
  unfold db.FindUserByID; simpl.
  destruct (db.fail_find_user e); simpl.
  { split; [done|]. split; [done|]. intros _. split; [|done].
    eexists. by split_and!. }
  destruct (db.users (store w) !! UserID cl) as [u|]; simpl.
  - split; [done|]. split; [done|]. intros _. split.
    + eexists. by split_and!.
    + eexists. by split_and!.
  - split; [done|]. split; [done|]. intros _. split; [|done].
    eexists. by split_and!.
Qed.

Lemma chat_frame_witness :
  let w' := (ReadPump_body ex.world_alice2 1%positive
                           (Some (ex.frame "chat" "hello")) ex.no_fault).1 in
  hub w' = hub ex.world_alice2
  ∧ length (db.messages (store w')) = 5%nat
  ∧ (length <$> (buf <$> (Send <$> heap w' !! 2%positive))) = Some 4%nat.
Proof.
  destruct (chat_frame ex.world_alice2 1%positive
              (ex.client ex.lobby ex.alice "alice" false
                 (default [] (buf <$> (Send <$> heap ex.world_alice2 !! 1%positive))))
              (ex.frame "chat" "hello") ex.no_fault)
    as (Hhub & _ & Hok); [by vm_compute | done | done | done |].
  destruct (Hok eq_refl) as [(row & Hrow & _) Hsent].
  split; [exact Hhub|]. split.
  - rewrite Hrow, length_app. reflexivity.
  - by vm_compute.
Defined.

Lemma room_clients_Remove (h : Hub) (c : ptr) (cl : Client) (r : uuid) :
  room_clients (Remove h c cl) r
  = if decide (r = RoomID cl) then room_clients h r ∖ {[c]}
    else room_clients h r.
Proof.
  unfold room_clients. rewrite rooms_Remove.
  case_decide as Hr; [|done].
  destruct (rooms h !! r) as [S|]; simpl.
  - case_decide as Hz; simpl; [|done].
    apply size_empty_inv in Hz. symmetry. by apply leibniz_equiv.
  - symmetry. apply leibniz_equiv. set_solver.
Qed.

(** [Client.ReadPump], the deferred function: the connection is taken
    out of the set of its room and its socket is closed; it is sent
    nothing; the connections that stay in the room are sent the member
    list (when the listing succeeds) and then the call participants as
    they are after the removal; everybody else is left alone; the
    database is not written.  The deferred function is what a read error
    leads to, and a closed socket reads as an error whatever arrives. *)
Theorem read_failure_detaches (w : World) (c : ptr) (cl : Client)
    (fail_members : bool) :
  heap w !! c = Some cl →
  let w' := ReadPump_cleanup w c fail_members in
  let ann := match db.ListRoomMembers (store w) fail_members (RoomID cl) with
             | Ok members => Some (participants_msg (participants_of_members members))
             | Err _ => None
             end in
  let gone := call_participants_msg
                (CallParticipants (Remove (hub w) c cl) (RoomID cl)) in
  hub w' = Remove (hub w) c cl
  ∧ store w' = store w
  ∧ (c ∉ room_clients (hub w') (RoomID cl))
  ∧ heap w' !! c = Some (Close cl)
  ∧ (∀ p x, p ≠ c → heap w !! p = Some x →
            heap w' !! p
            = Some (if decide (p ∈ room_clients (hub w) (RoomID cl))
                    then deliver gone (told ann x) else x))
  ∧ (∀ e rest, ReadPump w c ((None, e) :: rest) fail_members = w')
  ∧ (Conn cl = ConnClosed →
     ∀ rd e rest, ReadPump w c ((rd, e) :: rest) fail_members = w').
Proof.
  intros Hc w' ann gone.
  assert (Hw' : w' = {| hub := Remove (hub w) c cl;
                        heap := alter Close c
                                  (Broadcast (Remove (hub w) c cl)
                                     (match ann with
                                      | Some a => Broadcast (Remove (hub w) c cl)
                                                    (heap w) (RoomID cl) a
                                      | None => heap w
                                      end) (RoomID cl) gone);
                        store := store w |}).
  { unfold w', ReadPump_cleanup, ann, gone. rewrite Hc.
    by destruct (db.ListRoomMembers _ _ _). }
  assert (Hout : c ∉ room_clients (Remove (hub w) c cl) (RoomID cl)).
  { rewrite room_clients_Remove, decide_True by done. set_solver. }
  assert (Hstays : ∀ p, p ≠ c →
            (p ∈ room_clients (Remove (hub w) c cl) (RoomID cl)
             ↔ p ∈ room_clients (hub w) (RoomID cl))).
  { intros p Hp. rewrite room_clients_Remove, decide_True by done. set_solver. }
  split_and!.
  - by rewrite Hw'.
  - by rewrite Hw'.
  - by rewrite Hw'.
  - rewrite Hw'. simpl. rewrite lookup_alter_eq, Broadcast_lookup.
    rewrite decide_False by done.
    destruct ann; [rewrite Broadcast_lookup, decide_False by done|];
      by rewrite Hc.
  - intros p x Hp Hx. rewrite Hw'. simpl.
    rewrite lookup_alter_ne by done. rewrite Broadcast_lookup.
    destruct (decide (p ∈ room_clients (hub w) (RoomID cl))) as [Hin|Hnin].
    + rewrite decide_True by (by apply Hstays).
      destruct ann; simpl;
        [rewrite Broadcast_lookup, decide_True by (by apply Hstays)|];
        by rewrite Hx.
    + rewrite decide_False by (by rewrite Hstays).
      destruct ann; simpl;
        [rewrite Broadcast_lookup, decide_False by (by rewrite Hstays)|];
        by rewrite Hx.
  - intros e rest. cbn [ReadPump]. unfold ReadPump_body. rewrite Hc.
    by destruct (Conn cl).
  - intros Hclosed rd e rest. cbn [ReadPump]. unfold ReadPump_body.
    by rewrite Hc, Hclosed.
Qed.

Lemma read_failure_detaches_witness :
  hub ex.world_other_lost
  = Remove (hub ex.world_one_joined) 2%positive
      (default ex.alice1 (heap ex.world_one_joined !! 2%positive))
  ∧ 2%positive ∉ room_clients (hub ex.world_other_lost) ex.lobby.
Proof.
  destruct (read_failure_detaches ex.world_one_joined 2%positive
              (default ex.alice1 (heap ex.world_one_joined !! 2%positive)) false)
    as (Hhub & _ & Hout & _); [by vm_compute|].
  split; [exact Hhub | exact Hout].
Defined.

End ReadPumpMore.

(* ================================================================== *)
(** * More about the message store *)
(* ================================================================== *)

Section StoreMore.
Import db.

(** The row of a message as the listing query reads it back. *)
Lemma elem_of_room_rows (s : Store) (roomID : uuid) (m : Message) :
  m ∈ room_rows s roomID
  ↔ ∃ row u, row ∈ messages s ∧ row_room_id row = roomID
             ∧ users s !! row_user_id row = Some u
             ∧ m = {| ID := row_id row; RoomID := row_room_id row;
                      UserID := row_user_id row; Username := User_Username u;
                      Content := row_content row;
                      MessageType := row_message_type row;
                      MediaURL := default EmptyString (row_media_url row);
                      CreatedAt := row_created_at row |}.
Proof.
  unfold room_rows. rewrite list_elem_of_omap. split.
  - intros (row & Hin & Hf). case_decide as Hr; [|done].
    destruct (users s !! row_user_id row) as [u|] eqn:Hu; [|done].
    simpl in Hf. injection Hf as <-. by exists row, u.
  - intros (row & u & Hin & Hr & Hu & ->). exists row. split; [done|].
    rewrite decide_True by done. by rewrite Hu.
Qed.

Lemma ListMessages_scope (s : Store) (fail : bool) (roomID : uuid)
    (limit : Z) (l : list Message) :
  ListMessages s fail roomID limit = Ok l →
  Z.of_nat (length l) ≤ 200 ∧ ∀ m, m ∈ l → m ∈ room_rows s roomID.
Proof.
  rewrite ListMessages_unfold. destruct fail; [done|]. intros [= <-]. split.
  - rewrite length_reverse.
    destruct (query_messages_spec s roomID
                (if decide (limit ≤ 0 ∨ limit > 200) then 50 else limit))
      as (_ & -> & _).
    case_decide; lia.
  - intros m Hm. rewrite elem_of_reverse in Hm. unfold query_messages in Hm.
    apply elem_of_take in Hm as (i & Hm & _).
    apply list_elem_of_lookup_2 in Hm.
    by rewrite merge_sort_Permutation in Hm.
Qed.

(** [Store.ListMessages]: whatever the limit, every message of the
    answer belongs to the room asked for, is a row of the table, and
    carries the name that the users table has for its author; a row
    whose author has no user row is never listed. *)
Theorem ListMessages_room_only (s : Store) (fail : bool) (roomID : uuid)
    (limit : Z) (l : list Message) :
  ListMessages s fail roomID limit = Ok l →
  ∀ m, m ∈ l →
    RoomID m = roomID
    ∧ ∃ row u, row ∈ messages s
               ∧ users s !! row_user_id row = Some u
               ∧ ID m = row_id row ∧ UserID m = row_user_id row
               ∧ Content m = row_content row
               ∧ CreatedAt m = row_created_at row
               ∧ Username m = User_Username u.
Proof.
  intros Hl m Hm.
  apply (ListMessages_scope _ _ _ _ _ Hl) in Hm.
  apply elem_of_room_rows in Hm as (row & u & Hin & Hr & Hu & ->).
  simpl. split; [done|]. exists row, u. by split_and!.
Qed.

Lemma ListMessages_room_only_witness :
  let m := {| ID := 2; RoomID := ex.lobby; UserID := ex.bob;
              Username := "bob"; Content := "two";
              MessageType := "text"; MediaURL := ""; CreatedAt := 30 |} in
  RoomID m = ex.lobby
  ∧ ∃ row u, row ∈ messages ex.store0
             ∧ users ex.store0 !! row_user_id row = Some u
             ∧ ID m = row_id row ∧ UserID m = row_user_id row
             ∧ Content m = row_content row
             ∧ CreatedAt m = row_created_at row
             ∧ Username m = User_Username u.
Proof.
  intros m.
  apply (ListMessages_room_only ex.store0 false ex.lobby 2
           [ {| ID := 4; RoomID := ex.lobby; UserID := ex.alice;
                Username := "alice"; Content := "three";
                MessageType := "text"; MediaURL := ""; CreatedAt := 20 |}; m ]).
  - by vm_compute.
  - apply list_elem_of_further, list_elem_of_here.
Defined.

Lemma SaveMessageWithType_rows (s s' : Store) (e : SaveEnv)
    (roomID userID : uuid) (content messageType mediaURL : string)
    (msg : Message) :
  SaveMessageWithType s e roomID userID content messageType mediaURL
  = (s', Ok msg) →
  room_rows s' roomID = room_rows s roomID ++ [msg] ∧ CreatedAt msg = now e.
Proof.
  unfold SaveMessageWithType.
  destruct (fail_insert e); [done|].
  unfold FindUserByID. simpl.
  destruct (fail_find_user e); [done|].
  destruct (users s !! userID) as [u|] eqn:Hu; [|done].
  intros [= <- <-]. split; [|done].
  unfold room_rows. simpl. rewrite omap_app. simpl.
  rewrite decide_True by done. by rewrite Hu.
Qed.

(** [Store.SaveMessageWithType]: a save that succeeds returns the very
    message that the listing query reads back afterwards: it is the last
    row of its room, no other room sees it, an empty type was stored as
    "text", and the media URL comes back as given (the empty URL goes
    through NULL). *)
Theorem SaveMessageWithType_readback (s s' : Store) (e : SaveEnv)
    (roomID userID : uuid) (content messageType mediaURL : string)
    (msg : Message) :
  SaveMessageWithType s e roomID userID content messageType mediaURL
  = (s', Ok msg) →
  room_rows s' roomID = room_rows s roomID ++ [msg]
  ∧ (∀ r, r ≠ roomID → room_rows s' r = room_rows s r)
  ∧ RoomID msg = roomID ∧ UserID msg = userID ∧ Content msg = content
  ∧ MessageType msg
    = (if decide (messageType = EmptyString) then "text"%string else messageType)
  ∧ MediaURL msg = mediaURL
  ∧ CreatedAt msg = now e
  ∧ users s' = users s ∧ rooms s' = rooms s ∧ room_members s' = room_members s.
Proof.
  unfold SaveMessageWithType.
  destruct (fail_insert e); [done|].
  unfold FindUserByID. simpl.
  destruct (fail_find_user e); [done|].
  destruct (users s !! userID) as [u|] eqn:Hu; [|done].
  intros [= <- <-]. simpl.
  assert (Hmedia : default EmptyString (nullableString mediaURL) = mediaURL).
  { unfold nullableString. by case_decide. }
  split_and!; try done.
  - unfold room_rows. simpl. rewrite omap_app. simpl.
    rewrite decide_True by done. by rewrite Hu.
  - intros r Hr. unfold room_rows. simpl. rewrite omap_app. simpl.
    rewrite decide_False by done. by rewrite app_nil_r.
Qed.

Lemma SaveMessageWithType_readback_witness :
  ∃ s' msg,
    SaveMessageWithType ex.store0 ex.no_fault ex.lobby ex.bob "look" "image" "/u/1.png"
    = (s', Ok msg)
    ∧ room_rows s' ex.lobby = room_rows ex.store0 ex.lobby ++ [msg]
    ∧ MessageType msg = "image"%string ∧ MediaURL msg = "/u/1.png"%string.
Proof.
  eexists _, _. split; [reflexivity|].
  destruct (SaveMessageWithType_readback ex.store0 _ ex.no_fault ex.lobby ex.bob
              "look" "image" "/u/1.png" _ eq_refl)
    as (H1 & _ & _ & _ & _ & H2 & H3 & _).
  split; [exact H1|]. split; [exact H2 | exact H3].
Defined.

(** [Store.SaveMessage] then [Store.ListMessages]: a message saved
    with a timestamp later than every message of its room is the last
    entry of every later listing of the room, whatever the limit. *)
Theorem saved_message_listed_last (s s' : Store) (e : SaveEnv)
    (roomID userID : uuid) (content : string) (msg : Message) (limit : Z) :
  SaveMessage s e roomID userID content = (s', Ok msg) →
  (∀ m, m ∈ room_rows s roomID → CreatedAt m < now e) →
  ∃ l, ListMessages s' false roomID limit = Ok l ∧ last l = Some msg.
Proof.
  intros Hsave Hlater.
  destruct (SaveMessageWithType_rows _ _ _ _ _ _ _ _ _ Hsave) as (Hrows & Hat).
  rewrite ListMessages_unfold. eexists. split; [done|].
  set (n := if decide (limit ≤ 0 ∨ limit > 200) then 50 else limit).
  assert (Hn : (1 ≤ Z.to_nat n)%nat) by (unfold n; case_decide; lia).
  unfold query_messages.
  pose proof (StronglySorted_merge_sort newer_first (room_rows s' roomID)) as Hs.
  pose proof (merge_sort_Permutation newer_first (room_rows s' roomID)) as Hp.
  destruct (merge_sort newer_first (room_rows s' roomID)) as [|x rest] eqn:E.
  { apply Permutation_length in Hp. rewrite Hrows, length_app in Hp.
    simpl in Hp. lia. }
  assert (x = msg) as ->.
  { assert (Hx : x ∈ room_rows s' roomID)
      by (rewrite <- Hp; apply elem_of_cons; by left).
    assert (Hm : msg ∈ x :: rest)
      by (rewrite Hp, Hrows; apply elem_of_app; right;
          by apply list_elem_of_singleton).
    apply elem_of_cons in Hm as [Hm|Hm]; [done|].
    rewrite Hrows in Hx.
    apply elem_of_app in Hx as [Hx|Hx%list_elem_of_singleton]; [|done].
    apply StronglySorted_inv in Hs as [_ Hall].
    rewrite Forall_forall in Hall. specialize (Hall msg Hm).
    unfold newer_first in Hall. specialize (Hlater x Hx). lia. }
  destruct (Z.to_nat n) as [|k]; [lia|]. simpl.
  rewrite reverse_cons. apply last_snoc.
Qed.

Lemma saved_message_listed_last_witness :
  ∃ l, ListMessages (SaveMessage ex.store0 ex.no_fault ex.lobby ex.bob "late").1
                    false ex.lobby 1 = Ok l
       ∧ (Content <$> last l) = Some "late"%string.
Proof.
  destruct (saved_message_listed_last ex.store0 _ ex.no_fault ex.lobby ex.bob
              "late" _ 1 eq_refl) as (l & Hl & Hlast).
  - intros m Hm. apply elem_of_room_rows in Hm as (row & u & Hin & _ & _ & ->).
    simpl. revert row Hin. apply Forall_forall.
    apply (bool_decide_unpack _). vm_compute. exact I.
  - exists l. split; [exact Hl|]. by rewrite Hlast.
Defined.

Global Instance username_le_total : Total username_le.
Proof. intros a b. unfold username_le. apply String.leb_total. Qed.

Lemma length_omap_le {A B} (f : A → option B) (l : list A) :
  (length (omap f l) ≤ length l)%nat.
Proof.
  induction l as [|x l IH]; simpl; [done|].
  change (list_omap A B f l) with (omap f l).
  destruct (f x); simpl; lia.
Qed.

(** [Store.ListRoomMembers]: the listing succeeds when the database
    does, is in ascending order of user name, has exactly the members of
    the room that have a user row, each with the identifier and the name
    of that row, and agrees with [Store.IsRoomMember]: whoever passes the
    membership test and has a user row is listed. *)
Theorem ListRoomMembers_spec (s : Store) (roomID : uuid) :
  ∃ l, ListRoomMembers s false roomID = Ok l
       ∧ Sorted username_le l
       ∧ (∀ m, m ∈ l ↔ ∃ uid u, (roomID, uid) ∈ room_members s
                                ∧ users s !! uid = Some u
                                ∧ m = {| RoomMember_ID := User_ID u;
                                         RoomMember_Username := User_Username u |})
       ∧ (length l ≤ size (room_members s))%nat
       ∧ (∀ userID u,
            IsRoomMember s false roomID userID = Ok true →
            users s !! userID = Some u →
            {| RoomMember_ID := User_ID u;
               RoomMember_Username := User_Username u |} ∈ l).
Proof.
  unfold ListRoomMembers. eexists. split; [done|].
  assert (Hmem : ∀ m,
    m ∈ merge_sort username_le
          (omap (λ rm : uuid * uuid,
                   if decide (rm.1 = roomID) then
                     (λ u, {| RoomMember_ID := User_ID u;
                              RoomMember_Username := User_Username u |})
                       <$> users s !! rm.2
                   else None) (elements (room_members s)))
    ↔ ∃ uid u, (roomID, uid) ∈ room_members s ∧ users s !! uid = Some u
               ∧ m = {| RoomMember_ID := User_ID u;
                        RoomMember_Username := User_Username u |}).
  { intros m. rewrite merge_sort_Permutation, list_elem_of_omap. split.
    - intros ([r uid] & Hin%elem_of_elements & Hf). simpl in Hf.
      case_decide as Hr; [|done]. subst r.
      destruct (users s !! uid) as [u|] eqn:Hu; [|done].
      simpl in Hf. injection Hf as <-. by exists uid, u.
    - intros (uid & u & Hin & Hu & ->). exists (roomID, uid).
      split; [by apply elem_of_elements|]. simpl.
      rewrite decide_True by done. by rewrite Hu. }
  split_and!.
  - apply Sorted_merge_sort; apply _.
  - exact Hmem.
  - rewrite (Permutation_length (merge_sort_Permutation _ _)).
    etrans; [apply length_omap_le|]. done.
  - intros userID u Hm Hu. apply Hmem. exists userID, u.
    split; [|done]. unfold IsRoomMember in Hm. injection Hm as Hm.
    by apply bool_decide_eq_true in Hm.
Qed.

Lemma ListRoomMembers_spec_witness :
  ∃ l, ListRoomMembers ex.store0 false ex.lobby = Ok l
       ∧ {| RoomMember_ID := ex.bob; RoomMember_Username := "bob" |} ∈ l.
Proof.
  destruct (ListRoomMembers_spec ex.store0 ex.lobby)
    as (l & Hl & _ & _ & _ & Hin).
  exists l. split; [exact Hl|].
  apply (Hin ex.bob (ex.user ex.bob "bob")); reflexivity.
Defined.

End StoreMore.

(* ================================================================== *)
(** * Creating a room *)
(* ================================================================== *)

Lemma CreateRoom_Ok (s s' : db.Store) (ce : dbrooms.CreateEnv) (name : string)
    (createdBy : uuid) (isPrivate : bool) (room : db.Room) :
  dbrooms.CreateRoom s ce name createdBy isPrivate = (s', Ok room) →
  db.rooms s !! dbrooms.new_room_id ce = None
  ∧ room = {| db.Room_ID := dbrooms.new_room_id ce; db.Room_Name := name;
              db.Room_CreatedBy := createdBy; db.Room_IsPrivate := true;
              db.Room_CreatedAt := dbrooms.created ce |}
  ∧ db.rooms s' = <[dbrooms.new_room_id ce := room]> (db.rooms s)
  ∧ db.room_members s'
    = {[ (dbrooms.new_room_id ce, createdBy) ]} ∪ db.room_members s
  ∧ db.users s' = db.users s ∧ db.messages s' = db.messages s.
Proof.
  unfold dbrooms.CreateRoom, dbrooms.JoinRoom.
  destruct (dbrooms.fail_insert_room ce); [done|].
  destruct (db.rooms s !! dbrooms.new_room_id ce) eqn:Hfresh; [done|].
  cbn [db.Room_ID].
  destruct (dbrooms.fail_insert_member ce); [done|].
  by intros [= <- <-].
Qed.

(** [Store.CreateRoom]: the room is created private whatever the
    caller asked for; after a success the room is what [GetRoomByID]
    reads, its creator passes [IsRoomMember], nobody else became a member
    of anything and the other rooms are as before. *)
Theorem CreateRoom_private (s s' : db.Store) (ce : dbrooms.CreateEnv)
    (name : string) (createdBy : uuid) (isPrivate : bool) (room : db.Room) :
  dbrooms.CreateRoom s ce name createdBy isPrivate = (s', Ok room) →
  db.Room_IsPrivate room = true
  ∧ db.Room_Name room = name ∧ db.Room_CreatedBy room = createdBy
  ∧ db.GetRoomByID s (false) (db.Room_ID room) = Err ErrNotFound
  ∧ db.GetRoomByID s' false (db.Room_ID room) = Ok room
  ∧ db.IsRoomMember s' false (db.Room_ID room) createdBy = Ok true
  ∧ (∀ roomID userID,
       (roomID, userID) ≠ (db.Room_ID room, createdBy) →
       db.IsRoomMember s' false roomID userID
       = db.IsRoomMember s false roomID userID)
  ∧ (∀ roomID, roomID ≠ db.Room_ID room →
       db.GetRoomByID s' false roomID = db.GetRoomByID s false roomID).
Proof.
  intros (Hfresh & -> & Hrooms & Hmem & _)%CreateRoom_Ok.
  unfold db.GetRoomByID, db.IsRoomMember. cbn [db.Room_ID db.Room_IsPrivate
    db.Room_Name db.Room_CreatedBy].
  rewrite Hrooms, Hmem, Hfresh, lookup_insert_eq.
  split_and!; try done.
  - f_equal. apply bool_decide_eq_true. set_solver.
  - intros roomID userID Hne. f_equal. apply bool_decide_ext. set_solver.
  - intros roomID Hne. by rewrite lookup_insert_ne.
Qed.

(** [Store.CreateRoom]: the two INSERTs are not one transaction.  When
    the second fails the caller gets an error and no room, but the room
    row stays in the table, private and without any member. *)
Theorem CreateRoom_half_done (s : db.Store) (ce : dbrooms.CreateEnv)
    (name : string) (createdBy : uuid) (isPrivate : bool) :
  dbrooms.fail_insert_room ce = false →
  dbrooms.fail_insert_member ce = true →
  db.rooms s !! dbrooms.new_room_id ce = None →
  let (s', res) := dbrooms.CreateRoom s ce name createdBy isPrivate in
  res = Err ErrDriver
  ∧ (∃ room, db.GetRoomByID s' false (dbrooms.new_room_id ce) = Ok room
             ∧ db.Room_IsPrivate room = true)
  ∧ db.room_members s' = db.room_members s.
Proof.
  intros Hroom Hmem Hfresh.
  unfold dbrooms.CreateRoom, dbrooms.JoinRoom.
  rewrite Hroom, Hfresh. cbn [db.Room_ID]. rewrite Hmem.
  split_and!; [done| |done].
  unfold db.GetRoomByID. cbn. rewrite lookup_insert_eq. eauto.
Qed.

(* ================================================================== *)
(** * The room handlers *)
(* ================================================================== *)

Section RoomHandlers.
Import ws handlers.
Variable uuid_Parse : string → option uuid.
Variable strconv_Atoi : string → Z * bool.

Local Abbreviation joinRoom := (handlers.joinRoom uuid_Parse).
Local Abbreviation listMessages := (handlers.listMessages uuid_Parse strconv_Atoi).
Local Abbreviation listCallParticipants := (handlers.listCallParticipants uuid_Parse).

Lemma GetRoomByID_Ok (s : db.Store) (fail : bool) (roomID : uuid) (room : db.Room) :
  db.GetRoomByID s fail roomID = Ok room →
  fail = false ∧ db.rooms s !! roomID = Some room.
Proof.
  unfold db.GetRoomByID. destruct fail; [done|].
  destruct (db.rooms s !! roomID); [|done]. by intros [= <-].
Qed.

Lemma IsRoomMember_Ok (s : db.Store) (fail : bool) (roomID userID : uuid) (b : bool) :
  db.IsRoomMember s fail roomID userID = Ok b →
  fail = false ∧ (b = true ↔ (roomID, userID) ∈ db.room_members s).
Proof.
  unfold db.IsRoomMember. destruct fail; [done|]. intros [= <-].
  split; [done|]. apply bool_decide_eq_true.
Qed.

(** [Server.listMessages]: whoever is answered with messages is a
    member of the room when the answer is given; the messages are at most
    200 and all of that room; the hub and the client structs are never
    touched; the database is written only to make the caller a member of
    a room that is not private, and never for a private room, so that a
    caller who is not a member of a private room gets no messages. *)
Theorem listMessages_access (w w' : World) (r : Req) (e : Env) (reply : Reply) :
  listMessages w r e = (w', reply) →
  hub w' = hub w ∧ heap w' = heap w
  ∧ (w' = w
     ∨ ∃ u roomID room,
         user r = Some u ∧ uuid_Parse (roomID_param r) = Some roomID
         ∧ db.rooms (store w) !! roomID = Some room
         ∧ db.Room_IsPrivate room = false
         ∧ store w' = dbrooms.with_room_members (store w)
                        ({[ (roomID, middleware.ID u) ]} ∪ db.room_members (store w)))
  ∧ ∀ ms, reply = messages ms →
      ∃ u roomID,
        user r = Some u ∧ uuid_Parse (roomID_param r) = Some roomID
        ∧ (roomID, middleware.ID u) ∈ db.room_members (store w')
        ∧ Z.of_nat (length ms) ≤ 200
        ∧ ∀ m, m ∈ ms → db.RoomID m = roomID.
Proof.
  unfold handlers.listMessages.
  destruct (user r) as [u|] eqn:Hu;
    [|by intros [= <- <-]; split_and!; [done|done|by left|done]].
  destruct (uuid_Parse (roomID_param r)) as [roomID|] eqn:Hr;
    [|by intros [= <- <-]; split_and!; [done|done|by left|done]].
  destruct (db.GetRoomByID _ _ roomID) as [room|] eqn:Hroom;
    [|by intros [= <- <-]; split_and!; [done|done|by left|done]].
  apply GetRoomByID_Ok in Hroom as [_ Hroom].
  assert (Hlist : ∀ w1 ms,
            db.ListMessages (store w1) (fail_ListMessages e) roomID
                            (strconv_Atoi (limit_param r)).1 = Ok ms →
            Z.of_nat (length ms) ≤ 200 ∧ ∀ m, m ∈ ms → db.RoomID m = roomID).
  { intros w1 ms Hms.
    destruct (ListMessages_scope _ _ _ _ _ Hms) as [Hlen Hrows].
    split; [done|]. intros m Hm.
    apply Hrows, elem_of_room_rows in Hm as (row & ? & _ & Hrow & _ & ->).
    done. }
  destruct (db.Room_IsPrivate room) eqn:Hpriv.
  - destruct (db.IsRoomMember _ _ _ _) as [[|]|] eqn:Hm;
      [|by intros [= <- <-]; split_and!; [done|done|by left|done]..].
    apply IsRoomMember_Ok in Hm as [_ Hm].
    destruct (db.ListMessages _ _ _ _) as [ms|] eqn:Hms; intros [= <- <-].
    + split_and!; [done|done|by left|]. intros ms' [= <-].
      exists u, roomID. destruct (Hlist w ms Hms).
      split_and!; try done. by apply Hm.
    + split_and!; [done|done|by left|done].
  - unfold dbrooms.JoinRoom.
    destruct (fail_JoinRoom e).
    { intros [= <- <-]. split_and!; [done|done|left; by destruct w|done]. }
    destruct (db.ListMessages _ _ _ _) as [ms|] eqn:Hms; intros [= <- <-].
    + split_and!; [done|done|right; by exists u, roomID, room|].
      intros ms' [= <-]. exists u, roomID.
      destruct (Hlist _ ms Hms).
      split_and!; try done. simpl. set_solver.
    + split_and!; [done|done|right; by exists u, roomID, room|done].
Qed.

Lemma with_store_same (w : World) (x : uuid * uuid) :
  x ∈ db.room_members (store w) →
  with_store w (dbrooms.with_room_members (store w)
                  ({[ x ]} ∪ db.room_members (store w))) = w.
Proof.
  intros Hx.
  assert ({[ x ]} ∪ db.room_members (store w) = db.room_members (store w))
    as -> by set_solver.
  by destruct w as [h hp []].
Qed.

(** [Server.joinRoom]: the hub and the client structs are never
    touched.  Either the answer is an error and nothing changed, or the
    answer is [joined], the room exists and the caller's membership row
    is in the table afterwards, all other rows being as before.  For a
    private room [joined] is only answered to somebody who was a member
    already, and then nothing changed at all: the handler makes nobody a
    member of a private room. *)
Theorem joinRoom_membership (w w' : World) (r : Req) (e : Env) (reply : Reply) :
  joinRoom w r e = (w', reply) →
  hub w' = hub w ∧ heap w' = heap w
  ∧ ((w' = w ∧ ∃ status msg, reply = jsonError status msg)
     ∨ ∃ u roomID room,
         reply = joined
         ∧ user r = Some u ∧ uuid_Parse (roomID_param r) = Some roomID
         ∧ db.rooms (store w) !! roomID = Some room
         ∧ store w' = dbrooms.with_room_members (store w)
                        ({[ (roomID, middleware.ID u) ]} ∪ db.room_members (store w))
         ∧ (db.Room_IsPrivate room = true →
            (roomID, middleware.ID u) ∈ db.room_members (store w) ∧ w' = w)).
Proof.
  unfold handlers.joinRoom.
  destruct (user r) as [u|] eqn:Hu;
    [|intros [= <- <-]; split_and!; [done|done|left; eauto]].
  destruct (uuid_Parse (roomID_param r)) as [roomID|] eqn:Hr;
    [|intros [= <- <-]; split_and!; [done|done|left; eauto]].
  destruct (db.GetRoomByID _ _ roomID) as [room|] eqn:Hroom;
    [|intros [= <- <-]; split_and!; [done|done|left; eauto]].
  apply GetRoomByID_Ok in Hroom as [_ Hroom].
  destruct (db.Room_IsPrivate room) eqn:Hpriv.
  - destruct (db.IsRoomMember _ _ _ _) as [[|]|] eqn:Hm;
      [|intros [= <- <-]; split_and!; [done|done|left; eauto]..].
    apply IsRoomMember_Ok in Hm as [_ Hm].
    assert (Hin : (roomID, middleware.ID u) ∈ db.room_members (store w))
      by by apply Hm.
    unfold dbrooms.JoinRoom. destruct (fail_JoinRoom e); intros [= <- <-].
    + split_and!; [done|done|left; split; [by destruct w|eauto]].
    + split_and!; [done|done|right]. exists u, roomID, room.
      split_and!; try done. intros _. split; [done|].
      by apply with_store_same.
  - unfold dbrooms.JoinRoom. destruct (fail_JoinRoom e); intros [= <- <-].
    + split_and!; [done|done|left; split; [by destruct w|eauto]].
    + split_and!; [done|done|right]. exists u, roomID, room.
      split_and!; try done. intros ?. congruence.
Qed.

(** [Server.listCallParticipants]: the handler changes nothing; what
    it answers is the hub's call snapshot of the room named in the path,
    so each entry is the record of a user of that room's call; the room
    exists, and for a private room the caller is a member. *)
Theorem listCallParticipants_readonly (w w' : World) (r : Req) (e : Env)
    (reply : Reply) :
  listCallParticipants w r e = (w', reply) →
  w' = w
  ∧ ∀ ps, reply = call_participants ps →
      ∃ u roomID room,
        user r = Some u ∧ uuid_Parse (roomID_param r) = Some roomID
        ∧ db.rooms (store w) !! roomID = Some room
        ∧ ps = CallParticipants (hub w) roomID
        ∧ (∀ p, p ∈ ps ↔ ∃ userID, obs.record (hub w) roomID userID = Some p)
        ∧ (db.Room_IsPrivate room = true →
           (roomID, middleware.ID u) ∈ db.room_members (store w)).
Proof.
  unfold handlers.listCallParticipants.
  destruct (user r) as [u|] eqn:Hu; [|by intros [= <- <-]].
  destruct (uuid_Parse (roomID_param r)) as [roomID|] eqn:Hr;
    [|by intros [= <- <-]].
  destruct (db.GetRoomByID _ _ roomID) as [room|] eqn:Hroom;
    [|by intros [= <- <-]].
  apply GetRoomByID_Ok in Hroom as [_ Hroom].
  destruct (db.Room_IsPrivate room) eqn:Hpriv.
  - destruct (db.IsRoomMember _ _ _ _) as [[|]|] eqn:Hm;
      [|by intros [= <- <-]..].
    apply IsRoomMember_Ok in Hm as [_ Hm].
    intros [= <- <-]. split; [done|]. intros ps [= <-].
    exists u, roomID, room. split_and!; try done.
    + intros p. apply elem_of_CallParticipants.
    + intros _. by apply Hm.
  - intros [= <- <-]. split; [done|]. intros ps [= <-].
    exists u, roomID, room. split_and!; try done.
    + intros p. apply elem_of_CallParticipants.
    + intros ?. congruence.
Qed.

(** [Store.CreateRoom] then [Server.joinRoom]: a room that was just
    created cannot be joined through the join handler by anybody but its
    creator: the request is answered with an error (403 when the database
    works) and the membership table does not change. *)
Theorem created_room_not_joinable (w w' : World) (ce : dbrooms.CreateEnv)
    (name : string) (createdBy : uuid) (isPrivate : bool) (s' : db.Store)
    (room : db.Room) (r : Req) (u : middleware.UserContext) (e : Env)
    (reply : Reply) :
  dbrooms.CreateRoom (store w) ce name createdBy isPrivate = (s', Ok room) →
  user r = Some u →
  uuid_Parse (roomID_param r) = Some (db.Room_ID room) →
  middleware.ID u ≠ createdBy →
  (db.Room_ID room, middleware.ID u) ∉ db.room_members (store w) →
  joinRoom (with_store w s') r e = (w', reply) →
  w' = with_store w s'
  ∧ ∃ status msg,
      reply = jsonError status msg
      ∧ (fail_GetRoomByID e = false → fail_IsRoomMember e = false →
         status = httpapi.StatusForbidden).
Proof.
  clear strconv_Atoi.
  intros (Hfresh & -> & Hrooms & Hmem & _)%CreateRoom_Ok Hu Hr Hne Hnot.
  cbn [db.Room_ID] in *.
  unfold handlers.joinRoom. rewrite Hu, Hr.
  unfold db.GetRoomByID, db.IsRoomMember. cbn [store with_store].
  destruct (fail_GetRoomByID e);
    [intros [= <- <-]; split; [done|]; by do 2 eexists|].
  rewrite Hrooms, lookup_insert_eq. cbn [db.Room_IsPrivate].
  destruct (fail_IsRoomMember e);
    [intros [= <- <-]; split; [done|]; by do 2 eexists|].
  rewrite Hmem, bool_decide_eq_false_2 by set_solver.
  intros [= <- <-]. split; [done|]. by do 2 eexists.
Qed.

End RoomHandlers.

Lemma listMessages_access_witness :
  ∃ w' ms,
    handlers.listMessages ex.parse ex2.atoi ex2.world_hall
      (ex2.as_user ex.alice "alice" "r7" "2") ex2.calm = (w', handlers.messages ms)
    ∧ ws.hub w' = ws.hub ex2.world_hall
    ∧ Z.of_nat (length ms) ≤ 200.
Proof.
  eexists _, _. split; [reflexivity|].
  destruct (listMessages_access ex.parse ex2.atoi ex2.world_hall _
              (ex2.as_user ex.alice "alice" "r7" "2") ex2.calm _ eq_refl)
    as (Hhub & _ & _ & Hms).
  split; [exact Hhub|].
  destruct (Hms _ eq_refl) as (u & roomID & _ & _ & _ & Hlen & _).
  exact Hlen.
Defined.

Lemma joinRoom_membership_witness :
  ∃ w',
    handlers.joinRoom ex.parse ex2.world_hall
      (ex2.as_user ex.bob "bob" "r9" "") ex2.calm = (w', handlers.joined)
    ∧ ws.hub w' = ws.hub ex2.world_hall ∧ ws.heap w' = ws.heap ex2.world_hall.
Proof.
  eexists. split; [reflexivity|].
  destruct (joinRoom_membership ex.parse ex2.world_hall _
              (ex2.as_user ex.bob "bob" "r9" "") ex2.calm _ eq_refl)
    as (Hhub & Hheap & _).
  split; [exact Hhub | exact Hheap].
Defined.

Lemma listCallParticipants_readonly_witness :
  ∃ w' ps,
    handlers.listCallParticipants ex.parse ex2.world_hall
      (ex2.as_user ex.alice "alice" "r7" "") ex2.calm
    = (w', handlers.call_participants ps)
    ∧ w' = ex2.world_hall.
Proof.
  eexists _, _. split; [reflexivity|].
  destruct (listCallParticipants_readonly ex.parse ex2.world_hall _
              (ex2.as_user ex.alice "alice" "r7" "") ex2.calm _ eq_refl)
    as (Hw & _).
  exact Hw.
Defined.

Lemma CreateRoom_private_witness :
  ∃ s' room,
    dbrooms.CreateRoom ex.store0 ex2.new_room "open house" ex.bob false
    = (s', Ok room)
    ∧ db.Room_IsPrivate room = true
    ∧ db.IsRoomMember s' false (db.Room_ID room) ex.bob = Ok true.
Proof.
  eexists _, _. split; [reflexivity|].
  destruct (CreateRoom_private ex.store0 _ ex2.new_room "open house" ex.bob
              false _ eq_refl)
    as (Hpriv & _ & _ & _ & _ & Hmem & _).
  split; [exact Hpriv | exact Hmem].
Defined.

Lemma CreateRoom_half_done_witness :
  let ce := {| dbrooms.fail_insert_room := false;
               dbrooms.fail_insert_member := true;
               dbrooms.new_room_id := 12%N; dbrooms.created := 50 |} in
  let (s', res) := dbrooms.CreateRoom ex.store0 ce "den" ex.bob false in
  res = Err ErrDriver
  ∧ (∃ room, db.GetRoomByID s' false 12%N = Ok room
             ∧ db.Room_IsPrivate room = true)
  ∧ db.room_members s' = db.room_members ex.store0.
Proof.
  intros ce.
  apply (CreateRoom_half_done ex.store0 ce "den" ex.bob false);
    reflexivity.
Defined.

Lemma created_room_not_joinable_witness :
  let s' := (dbrooms.CreateRoom ex.store0 ex2.new_room "den" ex.bob false).1 in
  let parse := λ s, if decide (s = "r12") then Some 12%N else ex.parse s in
  ∃ w' status msg,
    handlers.joinRoom parse (handlers.with_store ex.world0 s')
      (ex2.as_user ex.alice "alice" "r12" "") ex2.calm
    = (w', handlers.jsonError status msg)
    ∧ w' = handlers.with_store ex.world0 s'
    ∧ status = httpapi.StatusForbidden.
Proof.
  intros s' parse.
  destruct (created_room_not_joinable parse ex.world0
              (handlers.joinRoom parse (handlers.with_store ex.world0 s')
                 (ex2.as_user ex.alice "alice" "r12" "") ex2.calm).1
              ex2.new_room "den" ex.bob false s'
              {| db.Room_ID := 12%N; db.Room_Name := "den";
                 db.Room_CreatedBy := ex.bob; db.Room_IsPrivate := true;
                 db.Room_CreatedAt := 50 |}
              (ex2.as_user ex.alice "alice" "r12" "")
              {| middleware.ID := ex.alice; middleware.Username := "alice" |}
              ex2.calm
              (handlers.joinRoom parse (handlers.with_store ex.world0 s')
                 (ex2.as_user ex.alice "alice" "r12" "") ex2.calm).2)
    as (Hw & status & msg & Hreply & Hstatus).
  - reflexivity.
  - reflexivity.
  - reflexivity.
  - by vm_compute.
  - apply (bool_decide_unpack _). vm_compute. exact I.
  - reflexivity.
  - exists (handlers.joinRoom parse (handlers.with_store ex.world0 s')
              (ex2.as_user ex.alice "alice" "r12" "") ex2.calm).1, status, msg.
    split; [|split; [exact Hw | by apply Hstatus]].
    rewrite <- Hreply. reflexivity.
Defined.

(* ================================================================== *)
(** * A consumer that does not keep up *)
(* ================================================================== *)

Section Eviction.
Import ws.

Lemma Remove_Close (h : Hub) (c : ptr) (cl : Client) :
  Remove h c (Close cl) = Remove h c cl.
Proof. done. Qed.

(** [Hub.Broadcast] then [Client.ReadPump]: a connection whose queue
    is full when a message is broadcast to its room has its socket
    closed by the broadcast; whatever its peer sends next is not looked
    at (a chat frame is not stored), the read loop ends and the deferred
    function takes the connection out of its room. *)
Theorem slow_consumer_evicted (w : World) (c : ptr) (cl : Client)
    (m : OutgoingMessage) (fail_members : bool) :
  heap w !! c = Some cl →
  c ∈ room_clients (hub w) (RoomID cl) →
  (cap (Send cl) ≤ length (buf (Send cl)))%nat →
  let w1 := {| hub := hub w;
               heap := Broadcast (hub w) (heap w) (RoomID cl) m;
               store := store w |} in
  heap w1 !! c = Some (Close cl)
  ∧ ∀ rd e rest,
      let w2 := ReadPump w1 c ((rd, e) :: rest) fail_members in
      ReadPump_body w1 c rd e = (w1, Break)
      ∧ hub w2 = Remove (hub w) c cl
      ∧ (c ∉ room_clients (hub w2) (RoomID cl))
      ∧ store w2 = store w
      ∧ heap w2 !! c = Some (Close cl).
Proof.
  intros Hc Hin Hfull w1.
  assert (Hc1 : heap w1 !! c = Some (Close cl)).
  { unfold w1. cbn [heap]. rewrite Broadcast_lookup, decide_True by done.
    rewrite Hc. cbn. by rewrite deliver_closes. }
  split; [done|]. intros rd e rest w2.
  assert (Hbody : ReadPump_body w1 c rd e = (w1, Break)).
  { unfold ReadPump_body. by rewrite Hc1. }
  assert (Hw2 : w2 = ReadPump_cleanup w1 c fail_members).
  { unfold w2. cbn [ReadPump]. by rewrite Hbody. }
  assert (Hout : c ∉ room_clients (Remove (hub w) c cl) (RoomID cl)).
  { rewrite room_clients_Remove, decide_True by done. set_solver. }
  rewrite Hw2. unfold ReadPump_cleanup. rewrite Hc1.
  cbn [hub store heap]. rewrite Remove_Close.
  change (RoomID (Close cl)) with (RoomID cl).
  split_and!; [done|done|done|done|].
  rewrite lookup_alter_eq, Broadcast_lookup, decide_False by done.
  destruct (db.ListRoomMembers _ _ _).
  - rewrite Broadcast_lookup, decide_False by done.
    cbn [heap] in Hc1. by rewrite Hc1.
  - cbn [heap] in Hc1. by rewrite Hc1.
Qed.

Lemma slow_consumer_evicted_witness :
  let w := {| hub := ex.hub_fs; heap := ex.heap_fs; store := ex.store0 |} in
  let w1 := {| hub := hub w;
               heap := Broadcast (hub w) (heap w) ex.lobby ex.ping;
               store := store w |} in
  let w2 := ReadPump w1 2%positive
              [(Some (ex.frame "chat" "wait for me"), ex.no_fault)] false in
  (2%positive ∉ room_clients (hub w2) ex.lobby) ∧ store w2 = ex.store0.
Proof.
  intros w w1 w2.
  destruct (slow_consumer_evicted w 2%positive ex.slow ex.ping false)
    as (_ & H).
  - reflexivity.
  - apply (bool_decide_unpack _). vm_compute. exact I.
  - vm_compute. lia.
  - destruct (H (Some (ex.frame "chat" "wait for me")) ex.no_fault [])
      as (_ & _ & Hout & Hstore & _).
    split; [exact Hout | exact Hstore].
Defined.

End Eviction.

(* ================================================================== *)
(** * The room handlers of the revision with invitation links *)
(* ================================================================== *)

Section RoomHandlersLinks.
Import ws handlers handlers_links.
Variable uuid_Parse : string → option uuid.
Variable strconv_Atoi : string → Z * bool.

(** [Server.joinRoom], [Server.listMessages] and
    [Server.listCallParticipants] in the revision with invitation links:
    none of them writes anything, and whoever is not answered with an
    error is a member of the room named in the path, which exists.  The
    join handler then only says so; the messages are at most 200 and all
    of that room; the call participants are the hub's snapshot of that
    room. *)
Theorem handlers_links_members_only (w : World) (r : Req) (e : Env) :
  answered uuid_Parse w r (handlers_links.joinRoom uuid_Parse w r e)
    (λ _ reply, reply = joined)
  ∧ answered uuid_Parse w r
      (handlers_links.listMessages uuid_Parse strconv_Atoi w r e)
      (λ roomID reply,
         ∃ ms, reply = messages ms ∧ Z.of_nat (length ms) ≤ 200
               ∧ ∀ m, m ∈ ms → db.RoomID m = roomID)
  ∧ answered uuid_Parse w r
      (handlers_links.listCallParticipants uuid_Parse w r e)
      (λ roomID reply,
         reply = call_participants (CallParticipants (hub w) roomID)).
Proof.
  unfold answered, handlers_links.joinRoom, handlers_links.listMessages,
    handlers_links.listCallParticipants.
  destruct (user r) as [u|]; [|split_and!; try done; left; by do 2 eexists].
  destruct (uuid_Parse (roomID_param r)) as [roomID|];
    [|split_and!; try done; left; by do 2 eexists].
  destruct (db.GetRoomByID _ _ roomID) as [room|] eqn:Hroom;
    [|split_and!; try done; left; by do 2 eexists].
  apply GetRoomByID_Ok in Hroom as [_ Hroom].
  destruct (db.IsRoomMember _ _ _ _) as [[|]|] eqn:Hm;
    [|split_and!; try done; left; by do 2 eexists..].
  apply IsRoomMember_Ok in Hm as [_ Hm].
  assert ((roomID, middleware.ID u) ∈ db.room_members (store w)) as Hin
    by by apply Hm.
  destruct (db.ListMessages _ _ _ _) as [ms|] eqn:Hms;
    split_and!; try done; try (left; by do 2 eexists);
    right; exists u, roomID, room; split_and!; try done.
  exists ms. destruct (ListMessages_scope _ _ _ _ _ Hms) as [Hlen Hrows].
  split_and!; try done. intros m Hmem.
  by apply Hrows, elem_of_room_rows in Hmem as (row & ? & _ & Hrow & _ & ->).
Qed.

(** The two revisions of the room handlers: on a store in which every
    room is private they answer alike and leave the same world, for the
    message list and the call participants always, and for the join
    handler whenever the INSERT of the older revision does not fail. *)
Theorem handlers_agree_when_private (w : World) (r : Req) (e : Env) :
  all_private (store w) →
  handlers.listMessages uuid_Parse strconv_Atoi w r e
  = handlers_links.listMessages uuid_Parse strconv_Atoi w r e
  ∧ handlers.listCallParticipants uuid_Parse w r e
    = handlers_links.listCallParticipants uuid_Parse w r e
  ∧ (fail_JoinRoom e = false →
     handlers.joinRoom uuid_Parse w r e
     = handlers_links.joinRoom uuid_Parse w r e).
Proof.
  intros Hall.
  unfold handlers.listMessages, handlers.listCallParticipants, handlers.joinRoom,
    handlers_links.joinRoom, handlers_links.listMessages,
    handlers_links.listCallParticipants.
  destruct (user r) as [u|]; [|done].
  destruct (uuid_Parse (roomID_param r)) as [roomID|]; [|done].
  destruct (db.GetRoomByID _ _ roomID) as [room|] eqn:Hroom; [|done].
  apply GetRoomByID_Ok in Hroom as [_ Hroom].
  rewrite (Hall _ _ Hroom).
  destruct (db.IsRoomMember _ _ _ _) as [[|]|] eqn:Hm; [|done..].
  apply IsRoomMember_Ok in Hm as [_ Hm].
  split_and!; [done|done|]. intros ->. unfold dbrooms.JoinRoom.
  rewrite with_store_same; [done|]. by apply Hm.
Qed.

(** [Store.CreateRoom]: a store in which every room is private stays
    so whatever is asked for and whether the call succeeds or fails half
    way. *)
Theorem CreateRoom_keeps_private (s : db.Store) (ce : dbrooms.CreateEnv)
    (name : string) (createdBy : uuid) (isPrivate : bool) :
  all_private s →
  all_private (dbrooms.CreateRoom s ce name createdBy isPrivate).1.
Proof.
  intros Hall. unfold dbrooms.CreateRoom, dbrooms.JoinRoom.
  destruct (dbrooms.fail_insert_room ce); [done|].
  destruct (db.rooms s !! dbrooms.new_room_id ce) eqn:Hfresh; [done|].
  cbn [db.Room_ID].
  assert (all_private
            (dbrooms.with_rooms s
               (<[dbrooms.new_room_id ce :=
                    {| db.Room_ID := dbrooms.new_room_id ce; db.Room_Name := name;
                       db.Room_CreatedBy := createdBy; db.Room_IsPrivate := true;
                       db.Room_CreatedAt := dbrooms.created ce |}]> (db.rooms s))))
    as Hall'.
  { intros roomID room. cbn.
    destruct (decide (roomID = dbrooms.new_room_id ce)) as [->|Hne].
    - rewrite lookup_insert_eq. by intros [= <-].
    - rewrite lookup_insert_ne by done. apply Hall. }
  by destruct (dbrooms.fail_insert_member ce).
Qed.

End RoomHandlersLinks.

Lemma handlers_agree_when_private_witness :
  handlers.listMessages ex.parse ex2.atoi ex.world0
    (ex2.as_user ex.alice "alice" "r7" "2") ex2.calm
  = handlers_links.listMessages ex.parse ex2.atoi ex.world0
      (ex2.as_user ex.alice "alice" "r7" "2") ex2.calm
  ∧ handlers.joinRoom ex.parse ex.world0
      (ex2.as_user ex.alice "alice" "r7" "2") ex2.calm
    = handlers_links.joinRoom ex.parse ex.world0
        (ex2.as_user ex.alice "alice" "r7" "2") ex2.calm.
Proof.
  destruct (handlers_agree_when_private ex.parse ex2.atoi ex.world0
              (ex2.as_user ex.alice "alice" "r7" "2") ex2.calm)
    as (Hlist & _ & Hjoin).
  - change (map_Forall (λ _ room, db.Room_IsPrivate room = true)
              (db.rooms ex.store0)).
    apply (bool_decide_unpack _). vm_compute. exact I.
  - split; [exact Hlist | exact (Hjoin eq_refl)].
Defined.

Lemma CreateRoom_keeps_private_witness :
  handlers_links.all_private
    (dbrooms.CreateRoom ex.store0 ex2.new_room "open house" ex.bob false).1.
Proof.
  apply CreateRoom_keeps_private.
  change (map_Forall (λ _ room, db.Room_IsPrivate room = true)
            (db.rooms ex.store0)).
  apply (bool_decide_unpack _). vm_compute. exact I.
Defined.
